(* ===== verification/_CoqProject ===== *)
-Q . S2P
Prelude.v
Unicode.v
Lexical.v
JsObject.v
KeyOrder.v
ObjectLiteral.v
Heap.v
TsTypes.v
Registry.v
SampleCode.v
Lifecycle.v
RegistrySim.v
HeapModule.v
