(* ===== verification/Prelude.v ===== *)
(** * The sample table of the prism-react-renderer demo, verified

    ** The program

    [src/packages/demo/src/sample-code.ts] is one declaration:
    [export const sampleCode = { ["TypeScript with React"]: { language:
    "tsx", code: `...` }, ["JavaScript"]: ..., ["Objective-C"]: ...,
    ["Rust"]: ... }].  It has no function; what it does is what
    JavaScript makes of it when the module is evaluated, and what a
    reader (the demo, not under src/) gets when it looks a label up or
    lists the labels.  So the development models the parts of ECMA-262
    the file exercises, applies them to the file, and proves the
    properties spec.md asks of the table seen as a registry:
    - lexing: each [code] is a template literal and each label and
      [language] a string literal, whose value the lexical grammar fixes
      (escapes, line terminators, early errors);
    - strings: a String value is a sequence of 16-bit code units made
      from the source code points by UTF-16;
    - objects: the literal allocates ordinary objects (the table, then
      each entry) and fills them through CreateDataPropertyOrThrow, in
      source order; readers hold references to them and use [[Get]]
      (which falls back to %Object.prototype%), Object.keys and
      Object.entries (whose order is OrdinaryOwnPropertyKeys), and
      could assign with [[Set]];
    - the registry: spec.md §3-§8 describe get/entries, unique labels,
      non-empty fields, immutability and a DuplicateLabel error;
    - typing: the file is TypeScript, and [tsc] gives the declaration a
      type and rejects some literals the runtime accepts;
    - the module: the file is an ECMAScript module, linked and evaluated
      once by the host and shared by every module that imports it.

    ** Files, in dependency order (verification/_CoqProject)

    - [Prelude.v] (this file): code-unit strings [jsstr] (list Z) and
      [str], the [result] type with [Ok]/[Err] and its bind notation in
      [js_scope], association lists ([assoc] and its lemmas), generic
      list lemmas ([omap_Permutation], [filter_map_fst]), the hint
      databases [js] and [js_rw].
    - [Unicode.v], Module [Utf16]: UTF16EncodeCodePoint,
      CodePointsToString, StringToCodePoints (surrogate pairs).
    - [Lexical.v], Module [Lexer]: [scan_literal], one TemplateCharacter
      or StringCharacter per step with [scan_escape] for what follows a
      backslash, [literal_value], [template_value] (TV) and
      [string_value] (SV); the printer [escape_template]; the step
      relation [lex_step] and the induction principle
      [scan_literal_Ok_ind] over successful scans.
    - [JsObject.v], Module [JsObject]: ordinary objects (own data
      properties in creation order with their attributes, extensible
      flag, prototype), CreateDataProperty(OrThrow) with the guards of
      ValidateAndApplyPropertyDescriptor, OrdinarySet, array indices
      read digit by digit ([array_index_value]), OrdinaryOwnPropertyKeys
      (a merge sort of the index keys, then the others) and
      EnumerableOwnProperties.
    - [KeyOrder.v], Module [KeyOrder]: Number::toString on array
      indices ([index_string]); the proof that [array_index_value] is
      its inverse on exactly the canonical strings (the ECMA definition
      of an array index), and the full order of OrdinaryOwnPropertyKeys.
    - [ObjectLiteral.v], Module [Literal]: values, %Object.prototype%
      and OrdinaryGet ([get]), the expressions of the file ([expr],
      [propdefs], [propname]) and their evaluation [eval_expr],
      [eval_propdefs], [eval_propname], [eval_export_const]; the
      denotation [literal_object] of a literal as a fold.
    - [Heap.v], Module [Heap]: the same evaluation with reference
      semantics: heap values ([hvalue]: primitives and [HRef] to a cell),
      a heap of objects, each object literal allocating its object
      before its definitions run ([heval_expr], [heval_propdefs],
      [heval_propname], [heval_export_const], [heap_update]), [[Get]] and
      [[Set]] on cells ([hget], [heap_set]); [deref] reads a heap value as
      a tree, [wf_heap] (references point to later cells) and [heap_ok]
      (no cell designated twice, one property per key) are the heap's
      invariants.
    - [TsTypes.v], Module [TsType]: TypeScript types ([ty]: string,
      string literal types, object types), the checker on the file's
      expression forms ([infer_expr], [infer_propdefs],
      [infer_propname], [infer_export_const]: literal types, widening,
      TS2464 on computed names, TS1117 on duplicate names), and
      [has_type], what a type promises of a run-time value.
    - [Registry.v], Module [Registry]: the interface [SampleRegistry]
      (a type class) and its laws [registry_contract]; the abstract model
      (the declared table, [table_get], [build_registry] with
      DuplicateLabel); the implementation [js_registry], which reads a
      JavaScript object the way the demo does ([entry_of_value],
      modelled from spec.md because the demo is not under src/); the
      objects [entry_value] and [table_object] of literal tables.
    - [SampleCode.v], Module [SampleCode]: the file itself.
      [sampleCode_expr] is lines 1-150 as an expression,
      [entry_literal] the shape of lines 2-27 (and 29-48, 50-81, 83-149),
      [tsx_code_lines], [javascript_code_lines], [objectivec_code_lines]
      and [rust_code_lines] the four template bodies line by line
      (leading newline, trailing spaces of lines 59-60 and 67-68 and the
      final indentation included; the double quotes of the Rust sample
      are [dq]); [sampleCode_module] is the evaluation of the export.
      [sample_table] is the declared table read off the source.
    - [Lifecycle.v], Module [Lifecycle]: the module record of the file
      as a state ([mstate]: status, the binding [sampleCode], a heap of
      objects, the number of runs of the body) and the host's and
      importers' actions as [step]: Link() ([link]), Evaluate()
      ([evaluate], [execute_module]), reads and writes of
      [sampleCode[label]] through the import binding ([read_entry],
      [assign_entry]), writes of [sampleCode[label][field]]
      ([assign_field], by [set_entry_field] on the entry object inside
      the table), both through [update_table], and assignment of the
      binding; [reachable] is the set of states a sequence of actions
      reaches.
    - [RegistrySim.v], Module [RegistrySim]: the registry of spec.md §3
      as a state machine ([reg_state], [reg_step]: absent, then
      constructed once from the declared table) and the simulation
      relation [registry_sim] between it and the module record of
      [Lifecycle.v].
    - [HeapModule.v], Module [HeapModule]: the module record on the heap
      of [Heap.v] ([hstate]: status, a binding holding a reference, the
      heap, the runs of the body, the constants importers declared),
      its actions [haction] and [hstep] ([hlink], [hevaluate],
      [hexecute_module], [hread_entry], [hassign_entry],
      [hassign_field], [hcopy_entry] for [const x = sampleCode[l]],
      [hread_local] for [x[f]]), and the relation [hsim] to the states
      of [Lifecycle.v].

    ** Theorems (claim ids of PROJECT.json)

    Each claim is a property of [sample-code.ts] or of the module
    instance it creates; a change to the file's table, to its entries or
    to how JavaScript runs it would falsify it.
    - The table (SampleCode.v): C1 the module evaluates without error
      and its object implements the declared table (entries in order,
      lookups for every label); C2 it satisfies the registry contract;
      C3-C6 the four scenarios of spec.md §8 (Object.keys order, Rust,
      JavaScript, Swift undefined); C9 undeclared labels naming
      %Object.prototype% members are not absent; C10 the four templates
      are read verbatim; C11 every code starts with a newline and ends
      with a newline and four spaces; C15 [tsc] accepts the file and
      declares [sampleCode] with the type
      { [label]: { language: string; code: string } }, which its value has.
    - The registry (Registry.v): C7 refinement of the declared table by
      the object of any table literal with distinct, non-index labels;
      C8 a duplicate label is rejected by the construction spec.md asks
      for and accepted by the literal (first position, last entry);
      C12 every label but [__proto__] can be reassigned by a reader;
      C13 for any table with distinct labels, the entries come as the
      canonical-decimal labels in ascending numeric order, then the
      others in declaration order.
    - Typing (TsTypes.v): C14 a name defined twice is rejected (TS1117).
    - The module (Lifecycle.v), by rule induction on [reachable] with
      the invariant [lifecycle_inv]: C16 the body runs at most once and
      the binding is initialized exactly after a normal evaluation;
      C17 from any reachable state Link() then Evaluate() initialize the
      binding (liveness); C18 before that every read of an entry and
      every write of an entry or of a field of one is a ReferenceError
      (temporal dead zone), while an assignment [sampleCode = v] is a
      TypeError in every state (the import binding is immutable);
      C19 the binding is never rebound; C20 one importer's assignment
      [sampleCode[label] = e] is what every importer reads next; C21 an
      importer can rewrite the [code] of any entry and every importer
      then reads the new text, contrary to spec.md §3.
    - The simulation (RegistrySim.v): C22 the module record refines the
      registry machine of the spec along every step that does not write
      through the binding (forward simulation, [registry_sim_step]);
      C23 for sample-code.ts, after any such sequence of actions a read
      is a ReferenceError or the declared table's answer.
    - Reference semantics (HeapModule.v): C24 an entry an importer keeps
      in a constant is the table's entry itself: it shows other
      importers' writes to its fields, and not their replacement of the
      entry.

    ** Lemmas of the model

    The library also proves what makes the model trustworthy, as lemmas
    without claim ids: [Heap.heval_eval] (the heap evaluation fails
    exactly when the tree evaluation does and otherwise reads as its
    value, keeping the heap well-formed and tree-shaped) and
    [HeapModule.heap_refines_lifecycle] (a forward simulation,
    [hsim_step], from the heap model of the module to [Lifecycle.v]), so
    that C16-C23 hold of the module with reference semantics;
    [Literal.eval_object_literal] and [Literal.literal_object_key_order]
    (the evaluation of any literal and the order of its keys);
    [TsType.infer_export_const_safe] (type safety of a declaration [tsc]
    accepts, by mutual induction, [infer_sound_mut]); in [Lexical.v] the
    round trip [template_value_escape], the fuel lemma
    [scan_literal_fuel], [scan_literal_unterminated],
    [scan_literal_code_units] and [scan_template_no_cr]; in [JsObject.v]
    the effect of CreateDataProperty on keys, properties and their
    order and when CreateDataPropertyOrThrow throws; in [Unicode.v]
    that CodePointsToString yields 16-bit units and that
    StringToCodePoints inverts it on scalar values.

    ** Bounds and fuel

    Code units are [Z] with the bound 0..0xFFFF stated by
    [is_code_unit] and proved ([scan_literal_code_units],
    [code_points_to_string_code_units]), code points 0..0x10FFFF.  The
    scanner's fuel is the length of the source text plus one, and
    [scan_literal_fuel] shows that any fuel above the length never runs
    out, since each step consumes at least one code point.  Array
    indices are bounded by 2^32 - 2 as in ECMA-262; [index_string]
    prints with a fuel of ten digits, which [MAX_ARRAY_INDEX_digits]
    shows is enough (2^32 - 2 < 10^10).  The heap of [Lifecycle.v] is a
    list indexed by [nat] whose only object is the table.  In [Heap.v]
    every object is a cell; the fuel of [deref] is the length of the
    heap, which is enough because in a well-formed heap every reference
    of the cell [i] designates a cell after [i], so a path visits at
    most [length h] cells ([deref_fuel]: any fuel above [length h - lo]
    gives the same tree).

    ** Not modelled

    The demo that renders the samples and Prism's highlighting (not in
    src/; the reads and writes the demo performs are modelled from
    spec.md); template substitutions [${...}], tagged templates and raw
    strings (reported as errors, none occur); Symbol keys, accessor
    properties other than the inherited [__proto__], whose setter is
    reported as unsupported, and ToPropertyKey of objects; in the
    checker, type annotations, [as const] and excess-property checks
    (none occur).  In the heap model, importers keep what they read in
    constants but do not store those constants back into the table, and
    the right-hand sides of their assignments are expressions of the
    file's kind (literals): so no two properties ever share an entry,
    which is what makes [Lifecycle.v] exact ([heap_refines_lifecycle]).  Object.freeze and
    the other integrity levels are not modelled: the file does not call
    them.  Everything the 150 lines of [sample-code.ts] do when the module is
    loaded and used is modelled; what remains outside is ECMAScript the
    file does not use. *)

From Stdlib Require Import ZArith Lia.
From stdpp Require Import base list decidable sets strings.

Declare Scope js_scope.
Delimit Scope js_scope with js.
Open Scope Z_scope.

(** ** JavaScript strings

    A JavaScript String value is a finite sequence of 16-bit code units;
    source text is a sequence of Unicode code points.  Both are lists of
    [Z] here; the width of a code unit is stated by [is_code_unit] and
    kept by the theorems of [Unicode.v]. *)

Abbreviation jsstr := (list Z).

(** The code points of a Rocq string literal (the source file is ASCII). *)
Fixpoint str (s : string) : list Z :=
  match s with
  | EmptyString => []
  | String a s' => Z.of_nat (Ascii.nat_of_ascii a) :: str s'
  end.

Definition is_code_unit (u : Z) : Prop := 0 <= u <= 0xFFFF.
Definition is_code_point (c : Z) : Prop := 0 <= c <= 0x10FFFF.

#[export] Instance is_code_unit_dec u : Decision (is_code_unit u).
Proof. unfold is_code_unit. apply _. Defined.
#[export] Instance is_code_point_dec c : Decision (is_code_point c).
Proof. unfold is_code_point. apply _. Defined.

(** ** Completions

    Evaluation of the module either produces a value or stops with an
    error: an early [SyntaxError] of the lexer, a [TypeError] of an
    abstract operation, or a construct this model does not cover. *)

Inductive syntax_error :=
  | UnterminatedLiteral
  | SubstitutionInTemplate
  | NotEscapeSequence
  | LineTerminatorInString
  | TrailingSourceText.

Inductive js_error :=
  | SyntaxError (why : syntax_error)
  | TypeError
  | ReferenceError
  | Unsupported (what : string).

Inductive result (A : Type) :=
  | Ok (a : A)
  | Err (e : js_error).
Arguments Ok {A} a.
Arguments Err {A} e.

Definition bind {A B} (m : result A) (k : A -> result B) : result B :=
  match m with Ok a => k a | Err e => Err e end.

Notation "x <- m ;; k" := (bind m (fun x => k))
  (at level 100, m at next level, right associativity) : js_scope.

Lemma bind_Ok {A B} (a : A) (k : A -> result B) : bind (Ok a) k = k a.
Proof. reflexivity. Qed.

Lemma bind_Err {A B} (e : js_error) (k : A -> result B) : bind (Err e) k = Err e.
Proof. reflexivity. Qed.

(** ** Association lists

    Own properties and the declared table keep their keys in order, so
    they are association lists; [assoc] finds the first binding. *)

Fixpoint assoc {K V} `{EqDecision K} (k : K) (l : list (K * V)) : option V :=
  match l with
  | [] => None
  | (k', v) :: l' => if decide (k = k') then Some v else assoc k l'
  end.

Section Assoc.
Context {K V : Type} `{EqDecision K}.
Implicit Types (l : list (K * V)).

Lemma assoc_None k l : assoc k l = None <-> k ∉ map fst l.
Proof.
  induction l as [|[k' v] l IH]; simpl; [set_solver|].
  case_decide; [subst; set_solver|]. rewrite IH. set_solver.
Qed.

Lemma assoc_elem k v l : assoc k l = Some v -> (k, v) ∈ l.
Proof.
  induction l as [|[k' v'] l IH]; [done|]. cbn [assoc].
  destruct (decide (k = k')); [intros [= ->]; subst; by left|]. intros; right; auto.
Qed.

Lemma assoc_Some k v l : NoDup (map fst l) -> assoc k l = Some v <-> (k, v) ∈ l.
Proof.
  intros Hnd. split; [apply assoc_elem|]. revert Hnd.
  induction l as [|[k' v'] l IH]; simpl; [set_solver|].
  intros [Hn Hnd]%NoDup_cons. rewrite elem_of_cons. intros [[= -> ->]|Hin].
  - by rewrite decide_True.
  - rewrite decide_False; [by apply IH|]. intros ->. apply Hn, list_elem_of_fmap. by exists (k', v).
Qed.

Lemma assoc_snoc k k' v l :
  assoc k (l ++ [(k', v)]) = match assoc k l with Some w => Some w | None => if decide (k = k') then Some v else None end.
Proof.
  induction l as [|[k1 v1] l IH]; [reflexivity|]. cbn [app assoc].
  destruct (decide (k = k1)); [done|apply IH].
Qed.

Lemma assoc_fmap_snd {W} (g : V -> W) k l :
  assoc k (map (fun kv => (kv.1, g kv.2)) l) = g <$> assoc k l.
Proof. induction l as [|[k' v] l IH]; [done|]. cbn [map assoc fst snd]. by case_decide. Qed.

End Assoc.

(** ** Lists *)

Lemma omap_Permutation {A B} (f : A -> option B) (l1 l2 : list A) :
  l1 ≡ₚ l2 -> omap f l1 ≡ₚ omap f l2.
Proof.
  induction 1 as [|x l1 l2 _ IH|x y l|l1 l2 l3 _ IH1 _ IH2]; simpl.
  - done.
  - destruct (f x); [by constructor|done].
  - destruct (f x), (f y); try constructor; done.
  - by rewrite IH1.
Qed.

Lemma filter_map_fst {A B} (P : A -> Prop) `{forall x, Decision (P x)} (l : list (A * B)) :
  filter P (map fst l) = map fst (filter (fun kv => P kv.1) l).
Proof.
  induction l as [|[k v] l IH]; [done|]. simpl.
  destruct (decide (P k)).
  - rewrite !filter_cons_True by done. simpl. by f_equal.
  - by rewrite !filter_cons_False by done.
Qed.

Lemma filter_elem_Forall {A} (P : A -> Prop) `{forall x, Decision (P x)} (l : list A) :
  Forall (fun x => x ∈ l) (filter P l).
Proof. apply Forall_forall. intros x. rewrite list_elem_of_filter. tauto. Qed.

Lemma submseteq_NoDup {A} (l k : list A) : l ⊆+ k -> NoDup k -> NoDup l.
Proof. intros [k' Hp]%submseteq_Permutation Hk. rewrite Hp in Hk. by apply NoDup_app in Hk as [? _]. Qed.

Lemma omap_cons_option {A B} (f : A -> option B) x l : omap f (x :: l) = option_list (f x) ++ omap f l.
Proof. simpl. by destruct (f x). Qed.

(** Two elements of [l] that [f] maps to the same value are equal when
    the values of [omap f l] are distinct. *)
Lemma NoDup_omap_same {A B} (f : A -> option B) l a b z :
  NoDup (omap f l) -> a ∈ l -> b ∈ l -> f a = Some z -> f b = Some z -> a = b.
Proof.
  intros Hnd Ha Hb Hfa Hfb. induction l as [|x l IH]; [set_solver|].
  rewrite omap_cons_option in Hnd. apply NoDup_app in Hnd as (_ & Hdis & Hnd).
  assert (Hin : forall c, c ∈ l -> f c = Some z -> f x = Some z -> False).
  { intros c Hc Hfc Hfx. apply (Hdis z); [by rewrite Hfx; left|]. apply list_elem_of_omap. eauto. }
  apply elem_of_cons in Ha as [->|Ha], Hb as [->|Hb]; [done| | |by apply IH].
  - exfalso. by apply (Hin b).
  - exfalso. by apply (Hin a).
Qed.

Create HintDb js.
Create Rewrite HintDb js_rw.
#[export] Hint Rewrite @bind_Ok @bind_Err : js_rw.
#[export] Hint Resolve assoc_elem : js.

