(* ===== verification/Unicode.v ===== *)
(** * UTF-16: code points and the code units of JavaScript strings

    ECMA-262 stores a String as a sequence of 16-bit code units and reads
    source text as code points.  This file models the static semantics
    that translate between the two (ECMA-262 §11.1: UTF16EncodeCodePoint,
    UTF16SurrogatePairToCodePoint, CodePointAt, StringToCodePoints,
    CodePointsToString), which the lexer of [Lexical.v] uses to build the
    value of every template and string literal of the sample table. *)

From Stdlib Require Import ZArith Lia.
From stdpp Require Import base list decidable sets.
From S2P Require Import Prelude.
Open Scope Z_scope.

Module Utf16.

Definition is_leading_surrogate (u : Z) : bool := (0xD800 <=? u) && (u <=? 0xDBFF).
Definition is_trailing_surrogate (u : Z) : bool := (0xDC00 <=? u) && (u <=? 0xDFFF).
Definition is_surrogate (c : Z) : bool := (0xD800 <=? c) && (c <=? 0xDFFF).

(** UTF16EncodeCodePoint(cp) *)
Definition utf16_encode_code_point (cp : Z) : list Z :=
  if cp <=? 0xFFFF then [cp]
  else [(cp - 0x10000) / 0x400 + 0xD800; (cp - 0x10000) mod 0x400 + 0xDC00].

(** UTF16SurrogatePairToCodePoint(lead, trail) *)
Definition utf16_surrogate_pair_to_code_point (lead trail : Z) : Z :=
  (lead - 0xD800) * 0x400 + (trail - 0xDC00) + 0x10000.

(** CodePointsToString(text) *)
Definition code_points_to_string (cps : list Z) : jsstr :=
  concat (map utf16_encode_code_point cps).

(** StringToCodePoints(string): the loop over CodePointAt, which reads a
    leading surrogate followed by a trailing one as one code point and
    every other code unit (an unpaired surrogate included) as itself. *)
Fixpoint string_to_code_points (s : jsstr) : list Z :=
  match s with
  | [] => []
  | u1 :: rest =>
      if is_leading_surrogate u1 then
        match rest with
        | u2 :: rest' =>
            if is_trailing_surrogate u2
            then utf16_surrogate_pair_to_code_point u1 u2 :: string_to_code_points rest'
            else u1 :: string_to_code_points rest
        | [] => [u1]
        end
      else u1 :: string_to_code_points rest
  end.

(** A Unicode scalar value: a code point that is not a surrogate. *)
Definition is_scalar_value (c : Z) : Prop := is_code_point c /\ is_surrogate c = false.

#[export] Instance is_scalar_value_dec c : Decision (is_scalar_value c).
Proof. unfold is_scalar_value. apply _. Defined.

(** ** Lemmas *)

Lemma encode_bmp cp : cp <= 0xFFFF -> utf16_encode_code_point cp = [cp].
Proof. intros H. unfold utf16_encode_code_point. by rewrite (proj2 (Z.leb_le _ _) H). Qed.

Lemma encode_astral cp :
  0xFFFF < cp ->
  utf16_encode_code_point cp =
    [(cp - 0x10000) / 0x400 + 0xD800; (cp - 0x10000) mod 0x400 + 0xDC00].
Proof. intros H. unfold utf16_encode_code_point. by rewrite (proj2 (Z.leb_gt _ _) H). Qed.

Lemma astral_lead_range cp :
  0xFFFF < cp <= 0x10FFFF -> 0xD800 <= (cp - 0x10000) / 0x400 + 0xD800 <= 0xDBFF.
Proof.
  intros. assert (0 <= (cp - 0x10000) / 0x400) by (apply Z.div_pos; lia).
  assert ((cp - 0x10000) / 0x400 < 0x400) by (apply Z.div_lt_upper_bound; lia).
  lia.
Qed.

Lemma astral_trail_range cp : 0xDC00 <= (cp - 0x10000) mod 0x400 + 0xDC00 <= 0xDFFF.
Proof. pose proof (Z.mod_pos_bound (cp - 0x10000) 0x400). lia. Qed.

Lemma leading_surrogate_true u : 0xD800 <= u <= 0xDBFF -> is_leading_surrogate u = true.
Proof. intros. unfold is_leading_surrogate. apply andb_true_intro; split; apply Z.leb_le; lia. Qed.

Lemma trailing_surrogate_true u : 0xDC00 <= u <= 0xDFFF -> is_trailing_surrogate u = true.
Proof. intros. unfold is_trailing_surrogate. apply andb_true_intro; split; apply Z.leb_le; lia. Qed.

Lemma leading_surrogate_false u : is_surrogate u = false -> is_leading_surrogate u = false.
Proof.
  unfold is_surrogate, is_leading_surrogate. intros H.
  apply andb_false_iff in H as [H|H]; apply Z.leb_gt in H;
    apply andb_false_iff; [left|right]; apply Z.leb_gt; lia.
Qed.

Lemma code_points_to_string_cons cp cps :
  code_points_to_string (cp :: cps) =
    utf16_encode_code_point cp ++ code_points_to_string cps.
Proof. reflexivity. Qed.

Lemma code_points_to_string_app cps1 cps2 :
  code_points_to_string (cps1 ++ cps2) =
    code_points_to_string cps1 ++ code_points_to_string cps2.
Proof. unfold code_points_to_string. by rewrite map_app, concat_app. Qed.

#[export] Hint Rewrite code_points_to_string_cons code_points_to_string_app : js_rw.

Lemma utf16_encode_elem cp u :
  u ∈ utf16_encode_code_point cp -> u = cp \/ 0xD800 <= u.
Proof.
  destruct (Z.leb_spec cp 0xFFFF) as [Hb|Hb].
  - rewrite encode_bmp by lia. set_solver.
  - rewrite encode_astral by lia. rewrite !elem_of_cons, elem_of_nil.
    pose proof (astral_trail_range cp).
    assert (0 <= (cp - 0x10000) / 0x400) by (apply Z.div_pos; lia).
    intros [->|[->|[]]]; right; lia.
Qed.

Lemma code_points_to_string_bmp cps :
  Forall (fun c => c <= 0xFFFF) cps -> code_points_to_string cps = cps.
Proof.
  induction 1 as [|c cps Hc _ IH]; [done|].
  rewrite code_points_to_string_cons, encode_bmp by done. simpl. by rewrite IH.
Qed.

(** ** Properties *)

(** UTF16EncodeCodePoint maps every code point (0 to 0x10FFFF) to one
    or two values that fit a 16-bit code unit. *)
Lemma utf16_encode_code_units cp :
  is_code_point cp -> Forall is_code_unit (utf16_encode_code_point cp).
Proof.
  unfold is_code_point, is_code_unit. intros Hcp.
  destruct (Z.leb_spec cp 0xFFFF) as [Hb|Hb].
  - rewrite encode_bmp by lia. repeat constructor; lia.
  - rewrite encode_astral by lia.
    pose proof (astral_lead_range cp) as Hl. pose proof (astral_trail_range cp).
    repeat constructor; lia.
Qed.

(** Bounds: CodePointsToString of code points (each 0 to 0x10FFFF)
    is a sequence of 16-bit code units. *)
Theorem code_points_to_string_code_units cps :
  Forall is_code_point cps -> Forall is_code_unit (code_points_to_string cps).
Proof.
  induction 1; [constructor|].
  autorewrite with js_rw. apply Forall_app. split; [|done].
  by apply utf16_encode_code_units.
Qed.

(** A surrogate pair read back gives the code point it encodes. *)
Lemma surrogate_pair_encode cp :
  0xFFFF < cp ->
  utf16_surrogate_pair_to_code_point
    ((cp - 0x10000) / 0x400 + 0xD800) ((cp - 0x10000) mod 0x400 + 0xDC00) = cp.
Proof.
  intros. unfold utf16_surrogate_pair_to_code_point.
  pose proof (Z.div_mod (cp - 0x10000) 0x400). lia.
Qed.

Lemma string_to_code_points_encode cp rest :
  is_scalar_value cp ->
  string_to_code_points (utf16_encode_code_point cp ++ rest) =
    cp :: string_to_code_points rest.
Proof.
  intros [Hcp Hs]. unfold is_code_point in Hcp.
  destruct (Z.leb_spec cp 0xFFFF) as [Hb|Hb].
  - rewrite encode_bmp by lia. simpl. by rewrite leading_surrogate_false.
  - rewrite encode_astral by lia. simpl.
    rewrite leading_surrogate_true by (apply astral_lead_range; lia).
    rewrite trailing_surrogate_true by apply astral_trail_range.
    by rewrite surrogate_pair_encode by lia.
Qed.

(** Decoding a string built from Unicode scalar values with
    StringToCodePoints gives back the code points it was built from. *)
Theorem string_to_code_points_roundtrip cps :
  Forall is_scalar_value cps ->
  string_to_code_points (code_points_to_string cps) = cps.
Proof.
  induction 1 as [|cp cps Hcp _ IH]; [done|].
  rewrite code_points_to_string_cons, string_to_code_points_encode by done.
  by rewrite IH.
Qed.

End Utf16.
