(* ===== verification/Lexical.v ===== *)
(** * The lexical grammar of the literals of the sample table

    The values of the table are a template literal (the [code] of each
    sample) and string literals (the labels and the [language] tags).
    Their String value is fixed by the lexical grammar of ECMA-262:
    §12.9.4 (string literals, SV) and §12.9.6 (template literal lexical
    components, TV), with the early error of §13.2.8.1 that forbids a
    NotEscapeSequence outside a tagged template and the strict-mode rule
    that forbids legacy octal and \8 \9 escapes (module code is strict).

    [scan_literal] is the scanner: from the source text after the opening
    quote or backtick it returns the literal's value (a list of code
    units) and the source text after the closing delimiter.  It reads one
    TemplateCharacter or StringCharacter per step; an escape sequence
    consumes a variable number of code points (\u{...} an unbounded one),
    so the loop carries fuel, and [scan_literal_fuel] shows that the
    length of the input plus one is always enough. *)

From Stdlib Require Import ZArith Lia.
From stdpp Require Import base list decidable sets strings.
From S2P Require Import Prelude Unicode.
Import Utf16.
Open Scope Z_scope.

Module Lexer.

Definition LF := 10.
Definition CR := 13.
Definition LS := 0x2028.
Definition PS := 0x2029.
Definition DQUOTE := 34.
Definition DOLLAR := 36.
Definition SQUOTE := 39.
Definition BACKSLASH := 92.
Definition BACKTICK := 96.
Definition LBRACE := 123.
Definition RBRACE := 125.

(** LineTerminator :: <LF> | <CR> | <LS> | <PS> *)
Definition is_line_terminator (c : Z) : bool :=
  (c =? LF) || (c =? CR) || (c =? LS) || (c =? PS).

Definition is_decimal_digit (c : Z) : bool := (48 <=? c) && (c <=? 57).

(** HexDigit and its MV *)
Definition hex_digit_value (c : Z) : option Z :=
  if (48 <=? c) && (c <=? 57) then Some (c - 48)
  else if (65 <=? c) && (c <=? 70) then Some (c - 55)
  else if (97 <=? c) && (c <=? 102) then Some (c - 87)
  else None.

(** SingleEscapeCharacter :: one of quote, double quote, backslash, b f n r t v, with its SV
    (ECMA-262 Table 40). *)
Definition single_escape_value (c : Z) : option Z :=
  if c =? SQUOTE then Some SQUOTE
  else if c =? DQUOTE then Some DQUOTE
  else if c =? BACKSLASH then Some BACKSLASH
  else if c =? 98 then Some 8      (* \b *)
  else if c =? 102 then Some 12    (* \f *)
  else if c =? 110 then Some LF    (* \n *)
  else if c =? 114 then Some CR    (* \r *)
  else if c =? 116 then Some 9     (* \t *)
  else if c =? 118 then Some 11    (* \v *)
  else None.

(** The longest prefix of hex digits, with the MV of the digits read. *)
Fixpoint take_hex_digits (l : list Z) : list Z * list Z :=
  match l with
  | c :: l' =>
      match hex_digit_value c with
      | Some d => let '(ds, rest) := take_hex_digits l' in (d :: ds, rest)
      | None => ([], l)
      end
  | [] => ([], [])
  end.

Definition hex_mv (ds : list Z) : Z := fold_left (fun acc d => acc * 16 + d) ds 0.

Definition not_escape {A} : result A := Err (SyntaxError NotEscapeSequence).

(** UnicodeEscapeSequence :: u Hex4Digits | u{ CodePoint }, the text
    after the [u]. *)
Definition scan_unicode_escape (l : list Z) : result (list Z * list Z) :=
  match l with
  | c :: l1 =>
      if c =? LBRACE then
        let '(ds, rest) := take_hex_digits l1 in
        match ds, rest with
        | _ :: _, c' :: l2 =>
            if (c' =? RBRACE) && (hex_mv ds <=? 0x10FFFF)
            then Ok (utf16_encode_code_point (hex_mv ds), l2)
            else not_escape
        | _, _ => not_escape
        end
      else
        match l with
        | h1 :: h2 :: h3 :: h4 :: l2 =>
            match hex_digit_value h1, hex_digit_value h2,
                  hex_digit_value h3, hex_digit_value h4 with
            | Some a, Some b, Some c, Some d =>
                Ok ([((a * 16 + b) * 16 + c) * 16 + d], l2)
            | _, _, _, _ => not_escape
            end
        | _ => not_escape
        end
  | [] => not_escape
  end.

(** What follows a backslash: a LineContinuation (no code unit), a
    CharacterEscapeSequence, [\0] not followed by a digit, a
    HexEscapeSequence or a UnicodeEscapeSequence.  Every other digit, and
    a malformed [\x] or [\u], is a NotEscapeSequence: a SyntaxError in
    an untagged template and, by the strict-mode rules, in a string
    literal. *)
Definition scan_escape (l : list Z) : result (list Z * list Z) :=
  match l with
  | [] => Err (SyntaxError UnterminatedLiteral)
  | c :: l1 =>
      if c =? CR then
        match l1 with
        | c2 :: l2 => if c2 =? LF then Ok ([], l2) else Ok ([], l1)
        | [] => Ok ([], l1)
        end
      else if is_line_terminator c then Ok ([], l1)
      else match single_escape_value c with
      | Some v => Ok ([v], l1)
      | None =>
          if c =? 48 then
            match l1 with
            | c2 :: _ => if is_decimal_digit c2 then not_escape else Ok ([0], l1)
            | [] => Ok ([0], l1)
            end
          else if is_decimal_digit c then not_escape
          else if c =? 120 then
            match l1 with
            | h1 :: h2 :: l2 =>
                match hex_digit_value h1, hex_digit_value h2 with
                | Some a, Some b => Ok ([a * 16 + b], l2)
                | _, _ => not_escape
                end
            | _ => not_escape
            end
          else if c =? 117 then scan_unicode_escape l1
          else Ok (utf16_encode_code_point c, l1)
      end
  end.

(** The two literal forms of the table. *)
Inductive literal_kind :=
  | TemplateLit                   (* NoSubstitutionTemplate, between backticks *)
  | StringLit (quote : Z).        (* StringLiteral, between single or double quotes *)

Definition closing (k : literal_kind) : Z :=
  match k with TemplateLit => BACKTICK | StringLit q => q end.

Definition add_units (units : list Z) (r : option (result (list Z * list Z)))
  : option (result (list Z * list Z)) :=
  match r with
  | Some (Ok (tv, rest)) => Some (Ok (units ++ tv, rest))
  | r => r
  end.

(** One literal character per step: the closing delimiter ends the
    literal; a backslash starts an escape; in a template [${] would start
    a substitution (this is then not a NoSubstitutionTemplate) and a
    LineTerminatorSequence <CR><LF> or <CR> stands for <LF>; in a string
    literal a raw <LF> or <CR> is a SyntaxError; any other code point
    stands for its UTF-16 encoding.  [None] is running out of fuel. *)
Fixpoint scan_literal (k : literal_kind) (fuel : nat) (l : list Z)
  : option (result (list Z * list Z)) :=
  match fuel with
  | O => None
  | S fuel' =>
      match l with
      | [] => Some (Err (SyntaxError UnterminatedLiteral))
      | c :: l1 =>
          if c =? closing k then Some (Ok ([], l1))
          else if c =? BACKSLASH then
            match scan_escape l1 with
            | Ok (units, l2) => add_units units (scan_literal k fuel' l2)
            | Err e => Some (Err e)
            end
          else match k with
          | TemplateLit =>
              if c =? DOLLAR then
                match l1 with
                | c2 :: _ =>
                    if c2 =? LBRACE then Some (Err (SyntaxError SubstitutionInTemplate))
                    else add_units [DOLLAR] (scan_literal k fuel' l1)
                | [] => add_units [DOLLAR] (scan_literal k fuel' l1)
                end
              else if c =? CR then
                match l1 with
                | c2 :: l2 =>
                    if c2 =? LF then add_units [LF] (scan_literal k fuel' l2)
                    else add_units [LF] (scan_literal k fuel' l1)
                | [] => add_units [LF] (scan_literal k fuel' l1)
                end
              else add_units (utf16_encode_code_point c) (scan_literal k fuel' l1)
          | StringLit _ =>
              if (c =? LF) || (c =? CR) then Some (Err (SyntaxError LineTerminatorInString))
              else add_units (utf16_encode_code_point c) (scan_literal k fuel' l1)
          end
      end
  end.

(** The value of a literal whose body (the text between the delimiters)
    is [body]: the scan must stop exactly at the closing delimiter. *)
Definition literal_value (k : literal_kind) (body : list Z) : result jsstr :=
  let src := body ++ [closing k] in
  match scan_literal k (S (length src)) src with
  | Some (Ok (v, [])) => Ok v
  | Some (Ok (_, _ :: _)) => Err (SyntaxError TrailingSourceText)
  | Some (Err e) => Err e
  | None => Err (Unsupported "scanner fuel"%string)
  end.

(** TV of a NoSubstitutionTemplate and SV of a StringLiteral. *)
Definition template_value (body : list Z) : result jsstr := literal_value TemplateLit body.
Definition string_value (body : list Z) : result jsstr := literal_value (StringLit DQUOTE) body.

(** ** Shape of the scanner's steps *)

Lemma take_hex_digits_spec l :
  (exists p, l = p ++ snd (take_hex_digits l) /\ length p = length (fst (take_hex_digits l)))
  /\ Forall (fun d => 0 <= d < 16) (fst (take_hex_digits l)).
Proof.
  induction l as [|c l [[p [IH1 IH2]] IH3]]; [by split; [exists []|]|]. simpl.
  destruct (hex_digit_value c) eqn:Hd; [|by split; [exists []|]].
  destruct (take_hex_digits l) as [ds rest]. simpl in *.
  split; [exists (c :: p); simpl; split; congruence|]. constructor; [|done].
  unfold hex_digit_value in Hd. repeat case_match; simplify_eq; lia.
Qed.

(** An escape consumes at least the character after the backslash and
    leaves a suffix of its input. *)
Lemma scan_escape_suffix l units rest :
  scan_escape l = Ok (units, rest) -> exists c p, l = c :: p ++ rest.
Proof.
  unfold scan_escape, scan_unicode_escape, not_escape. intros H.
  destruct l as [|c l1]; [done|]. exists c.
  repeat (case_match; simplify_eq/=);
    try (by exists []); try (by eexists [_]); try (by eexists [_; _]);
    try (by eexists [_; _; _]); try (by eexists [_; _; _; _]).
  all: match goal with
       | H : take_hex_digits ?l = (?ds, ?r) |- _ =>
           destruct (take_hex_digits_spec l) as [[p [Hs _]] _]; rewrite H in Hs; simpl in Hs; subst
       end.
  all: eexists (_ :: p ++ [_]); simpl; by rewrite <-app_assoc.
Qed.

Lemma add_units_Some units r : add_units units r = None <-> r = None.
Proof. destruct r as [[[]|]|]; naive_solver. Qed.

Lemma add_units_Ok units r tv rest :
  add_units units r = Some (Ok (tv, rest)) <->
  exists tv', r = Some (Ok (tv', rest)) /\ tv = units ++ tv'.
Proof. destruct r as [[[]|]|]; simpl; split; naive_solver. Qed.

(** The scanner's fuel: any fuel above the length of the input is
    enough, so the scan of a literal always ends with a value or an
    error, never for lack of fuel. *)
Theorem scan_literal_fuel k fuel l :
  (length l < fuel)%nat -> scan_literal k fuel l <> None.
Proof.
  revert l. induction fuel as [|fuel IH]; intros l Hl; [lia|].
  destruct l as [|c l1]; [done|]. simpl in Hl.
  simpl. rewrite ?add_units_Some.
  repeat (case_match; rewrite ?add_units_Some; try done);
    try (apply IH; subst; simpl in *; lia).
  all: try match goal with
    | E : scan_escape _ = Ok _ |- _ =>
        apply scan_escape_suffix in E as (? & ? & ->);
        apply IH; simpl in *; rewrite ?length_app in *; lia
    end.
Qed.

(** ** Printing a template literal

    [escape_template] writes text as the body of a template literal: it
    escapes the backtick, the backslash, a [$] before a [{], and <CR>
    (which the lexer would otherwise read as <LF>). *)

Definition next_is (c : Z) (l : list Z) : bool :=
  match l with c2 :: _ => c2 =? c | [] => false end.

Fixpoint escape_template (cps : list Z) : list Z :=
  match cps with
  | [] => []
  | c :: l =>
      if (c =? BACKTICK) || (c =? BACKSLASH) then BACKSLASH :: c :: escape_template l
      else if c =? CR then BACKSLASH :: 114 :: escape_template l
      else if (c =? DOLLAR) && next_is LBRACE l then BACKSLASH :: DOLLAR :: escape_template l
      else c :: escape_template l
  end.

(** Text the lexer reads verbatim: no backtick, backslash, <CR>, [${]. *)
Fixpoint plain_template_text (cps : list Z) : bool :=
  match cps with
  | [] => true
  | c :: l =>
      negb ((c =? BACKTICK) || (c =? BACKSLASH) || (c =? CR)
            || ((c =? DOLLAR) && next_is LBRACE l))
      && plain_template_text l
  end.

Lemma escape_template_plain cps : plain_template_text cps = true -> escape_template cps = cps.
Proof.
  induction cps as [|c l IH]; [done|]. simpl.
  intros [Hc Hl]%andb_prop. apply negb_true_iff in Hc.
  repeat rewrite orb_false_iff in Hc. destruct Hc as [[[-> ->] ->] ->]. simpl.
  by rewrite IH.
Qed.

Lemma length_escape_template cps : (length cps <= length (escape_template cps))%nat.
Proof. induction cps; simpl; repeat case_match; simpl; lia. Qed.

(** The first character of an escaped text followed by a backtick is a
    [{] only if the text starts with one. *)
Lemma escape_template_next l rest :
  next_is LBRACE l = false ->
  next_is LBRACE (escape_template l ++ BACKTICK :: rest) = false.
Proof. destruct l as [|c l]; [done|]. simpl. intros H. by repeat case_match. Qed.

(** One step of the template scanner on each form [escape_template]
    writes. *)
Lemma scan_template_escaped c f l :
  c = BACKTICK \/ c = BACKSLASH \/ c = DOLLAR ->
  scan_literal TemplateLit (S f) (BACKSLASH :: c :: l)
  = add_units [c] (scan_literal TemplateLit f l).
Proof. intros [-> | [-> | ->]]; reflexivity. Qed.

Lemma scan_template_cr f l :
  scan_literal TemplateLit (S f) (BACKSLASH :: 114 :: l)
  = add_units [CR] (scan_literal TemplateLit f l).
Proof. reflexivity. Qed.

Lemma scan_template_char c f l :
  c <> BACKTICK -> c <> BACKSLASH -> c <> CR ->
  (c = DOLLAR -> next_is LBRACE l = false) ->
  scan_literal TemplateLit (S f) (c :: l)
  = add_units (utf16_encode_code_point c) (scan_literal TemplateLit f l).
Proof.
  intros H1 H2 H3 H4. simpl. rewrite (proj2 (Z.eqb_neq _ _) H1), (proj2 (Z.eqb_neq _ _) H2).
  destruct (Z.eqb_spec c DOLLAR) as [->|Hd].
  - specialize (H4 eq_refl). destruct l as [|c2 l]; simpl in *; [done|]. by rewrite H4.
  - by rewrite (proj2 (Z.eqb_neq _ _) H3).
Qed.

Ltac escape_len := simpl in *; rewrite ?length_app in *; simpl in *; lia.

Lemma scan_escape_template_fuel cps rest f :
  (length (escape_template cps ++ BACKTICK :: rest) < f)%nat ->
  scan_literal TemplateLit f (escape_template cps ++ BACKTICK :: rest)
  = Some (Ok (code_points_to_string cps, rest)).
Proof.
  revert f. induction cps as [|c l IH]; intros [|f] Hf; try (simpl in Hf; lia); [done|].
  rewrite code_points_to_string_cons.
  destruct (Z.eqb_spec c BACKTICK) as [->|H1];
    [simpl; fold BACKTICK; rewrite IH by escape_len; done|].
  destruct (Z.eqb_spec c BACKSLASH) as [->|H2];
    [simpl; fold BACKTICK; rewrite IH by escape_len; done|].
  destruct (Z.eqb_spec c CR) as [->|H3];
    [simpl; fold BACKTICK; rewrite IH by escape_len; done|].
  destruct (Z.eqb_spec c DOLLAR) as [->|H4].
  - destruct (next_is LBRACE l) eqn:Hn.
    + simpl. rewrite Hn. simpl. fold BACKTICK. rewrite IH by (simpl in Hf; rewrite Hn in Hf; escape_len). done.
    + assert (He : escape_template (DOLLAR :: l) = DOLLAR :: escape_template l)
        by (simpl; by rewrite Hn).
      rewrite He in *. rewrite <-app_comm_cons, scan_template_char by (try done; by intros; apply escape_template_next).
      rewrite IH by escape_len. done.
  - assert (He : escape_template (c :: l) = c :: escape_template l).
    { cbn [escape_template]. rewrite (proj2 (Z.eqb_neq _ _) H1), (proj2 (Z.eqb_neq _ _) H2),
        (proj2 (Z.eqb_neq _ _) H3), (proj2 (Z.eqb_neq _ _) H4). done. }
    rewrite He in *. rewrite <-app_comm_cons, scan_template_char by done.
    rewrite IH by escape_len. done.
Qed.

(** Round trip: the template literal that [escape_template] writes
    for any text evaluates to the UTF-16 encoding of that text. *)
Theorem template_value_escape cps :
  template_value (escape_template cps) = Ok (code_points_to_string cps).
Proof.
  unfold template_value, literal_value. simpl closing.
  rewrite scan_escape_template_fuel by lia. done.
Qed.

(** a template body with no backtick, backslash, <CR> or [${] is
    taken verbatim: its value is the UTF-16 encoding of its text. *)
Corollary template_value_plain body :
  plain_template_text body = true ->
  template_value body = Ok (code_points_to_string body).
Proof.
  intros H. unfold template_value, literal_value. simpl closing.
  rewrite <-(escape_template_plain body) at 1 2 by done.
  rewrite scan_escape_template_fuel by lia. done.
Qed.

(** ** The scanner as a step relation

    [lex_step k l units l'] is one TemplateCharacter or StringCharacter:
    it reads a prefix of [l], contributes [units] to the value and leaves
    [l'].  [scan_literal_Ok_inv] shows that every successful scan is a
    sequence of such steps ended by the closing delimiter. *)

Inductive lex_step (k : literal_kind) : list Z -> list Z -> list Z -> Prop :=
  | LexEscape l1 units l2 :
      BACKSLASH <> closing k -> scan_escape l1 = Ok (units, l2) ->
      lex_step k (BACKSLASH :: l1) units l2
  | LexDollar l1 :
      k = TemplateLit -> next_is LBRACE l1 = false ->
      lex_step k (DOLLAR :: l1) [DOLLAR] l1
  | LexCRLF l1 :
      k = TemplateLit -> lex_step k (CR :: LF :: l1) [LF] l1
  | LexCR l1 :
      k = TemplateLit -> next_is LF l1 = false ->
      lex_step k (CR :: l1) [LF] l1
  | LexChar c l1 :
      c <> closing k -> c <> BACKSLASH ->
      (k = TemplateLit -> c <> DOLLAR /\ c <> CR) ->
      (k <> TemplateLit -> c <> LF /\ c <> CR) ->
      lex_step k (c :: l1) (utf16_encode_code_point c) l1.

Lemma scan_literal_Ok_inv k f l tv rest :
  scan_literal k (S f) l = Some (Ok (tv, rest)) ->
  (l = closing k :: rest /\ tv = []) \/
  exists units l' tv', lex_step k l units l' /\
    scan_literal k f l' = Some (Ok (tv', rest)) /\ tv = units ++ tv'.
Proof.
  destruct l as [|c l1]; [done|]. simpl.
  destruct (Z.eqb_spec c (closing k)) as [->|Hc]; [intros [=]; by left; subst|].
  intros H; right.
  destruct (Z.eqb_spec c BACKSLASH) as [->|Hb].
  { destruct (scan_escape l1) as [[u l2]|] eqn:E; [|done].
    apply add_units_Ok in H as (tv' & H & ->). do 3 eexists. split; [|done].
    by constructor. }
  destruct k as [|q].
  - destruct (Z.eqb_spec c DOLLAR) as [->|Hd].
    { destruct l1 as [|c2 l2]; [apply add_units_Ok in H as (? & ? & ->); eauto 10 using lex_step|].
      destruct (Z.eqb_spec c2 LBRACE); [done|].
      apply add_units_Ok in H as (? & ? & ->). do 3 eexists. split; [|done].
      constructor; [done|]. by apply Z.eqb_neq. }
    destruct (Z.eqb_spec c CR) as [->|Hr].
    { destruct l1 as [|c2 l2]; [apply add_units_Ok in H as (? & ? & ->); eauto 10 using lex_step|].
      destruct (Z.eqb_spec c2 LF) as [->|Hl]; apply add_units_Ok in H as (? & ? & ->);
        [eauto 10 using lex_step|].
      do 3 eexists. split; [|done]. constructor; [done|]. by apply Z.eqb_neq. }
    apply add_units_Ok in H as (? & ? & ->). do 3 eexists. split; [|done].
    constructor; naive_solver.
  - destruct ((c =? LF) || (c =? CR)) eqn:Hlt; [done|].
    apply orb_false_iff in Hlt as [?%Z.eqb_neq ?%Z.eqb_neq].
    apply add_units_Ok in H as (? & ? & ->). do 3 eexists. split; [|done].
    constructor; naive_solver.
Qed.

Lemma lex_step_suffix k l units l' : lex_step k l units l' -> exists c p, l = c :: p ++ l'.
Proof.
  destruct 1 as [l1 u l2 _ E|l1|l1|l1|c l1].
  - apply scan_escape_suffix in E as (c & p & ->). by exists BACKSLASH, (c :: p).
  - by exists DOLLAR, [].
  - by exists CR, [LF].
  - by exists CR, [].
  - by exists c, [].
Qed.

(** Induction on the steps of a successful scan. *)
Lemma scan_literal_Ok_ind k (P : list Z -> list Z -> Prop) rest :
  P (closing k :: rest) [] ->
  (forall l units l' tv', lex_step k l units l' -> P l' tv' -> P l (units ++ tv')) ->
  forall f l tv, scan_literal k f l = Some (Ok (tv, rest)) -> P l tv.
Proof.
  intros Hdone Hstep f. induction f as [|f IH]; intros l tv H; [done|].
  apply scan_literal_Ok_inv in H as [[-> ->]|(u & l' & tv' & Hs & H & ->)]; eauto.
Qed.

Lemma Forall_suffix {A} (P : A -> Prop) c p l :
  Forall P (c :: p ++ l) -> Forall P l.
Proof. intros H. apply Forall_cons in H as [_ H]. by apply Forall_app in H as [_ H]. Qed.

Lemma hex_digit_value_range c d : hex_digit_value c = Some d -> 0 <= d < 16.
Proof. unfold hex_digit_value. intros. repeat case_match; simplify_eq; lia. Qed.

Lemma hex_mv_nonneg ds acc :
  Forall (fun d => 0 <= d < 16) ds -> 0 <= acc -> 0 <= fold_left (fun acc d => acc * 16 + d) ds acc.
Proof.
  intros Hds. revert acc. induction Hds; intros acc Hacc; simpl; [done|]. apply IHHds. lia.
Qed.

Lemma single_escape_value_range c v : single_escape_value c = Some v -> is_code_unit v.
Proof.
  unfold single_escape_value, is_code_unit, SQUOTE, DQUOTE, BACKSLASH, LF, CR.
  intros. repeat case_match; simplify_eq; lia.
Qed.

Ltac hex_ranges :=
  repeat match goal with
  | H : hex_digit_value _ = Some _ |- _ => apply hex_digit_value_range in H
  end.

(** Every code unit an escape sequence stands for fits 16 bits. *)
Lemma scan_escape_units l units rest :
  Forall is_code_point l -> scan_escape l = Ok (units, rest) -> Forall is_code_unit units.
Proof.
  unfold scan_escape, scan_unicode_escape, not_escape. intros Hl H.
  destruct l as [|c l1]; [done|]. apply Forall_cons in Hl as [Hc _].
  repeat (case_match; simplify_eq/=); hex_ranges;
    try (repeat constructor; unfold is_code_unit; lia);
    try (by apply utf16_encode_code_units);
    try (constructor; [by eapply single_escape_value_range|constructor]).
  match goal with
  | H : take_hex_digits ?l = _ |- _ =>
      destruct (take_hex_digits_spec l) as [_ Hd]; rewrite H in Hd; simpl in Hd
  end.
  apply utf16_encode_code_units. split; [|lia].
  apply hex_mv_nonneg; [done|lia].
Qed.

Lemma lex_step_units k l units l' :
  Forall is_code_point l -> lex_step k l units l' -> Forall is_code_unit units.
Proof.
  intros Hl. destruct 1 as [l1 u l2 _ E| | | |c l1]; try (repeat constructor; unfold is_code_unit, DOLLAR, LF; lia).
  - eapply scan_escape_units; [|done]. by apply Forall_cons in Hl as [_ Hl].
  - apply Forall_cons in Hl as [Hc _]. by apply utf16_encode_code_units.
Qed.

Lemma lex_step_no_cr l units l' :
  BACKSLASH ∉ l -> lex_step TemplateLit l units l' -> CR ∉ units.
Proof.
  intros Hb. destruct 1 as [l1 u l2 _ E| | | |c l1 H1 H2 H3 H4].
  - set_solver.
  - unfold DOLLAR, CR. set_solver.
  - unfold CR, LF. set_solver.
  - unfold CR, LF. set_solver.
  - destruct (H3 eq_refl) as [_ Hcr]. intros Hin.
    apply utf16_encode_elem in Hin as [Heq|Hge]; [congruence|]. unfold CR in Hge. lia.
Qed.

(** ** Properties of the scanner *)

(** A literal whose closing delimiter never occurs in the source
    text is unterminated: its scan never produces a value. *)
Theorem scan_literal_unterminated k f l tv rest :
  closing k ∉ l -> scan_literal k f l <> Some (Ok (tv, rest)).
Proof.
  intros Hn H. apply Hn. revert H. apply (scan_literal_Ok_ind k (fun l _ => closing k ∈ l)).
  - by left.
  - intros l0 u l' tv' Hs Hin. apply lex_step_suffix in Hs as (c & p & ->). set_solver.
Qed.

(** Bounds: every code unit of the value of a literal is a 16-bit
    value, when the source text consists of code points. *)
Theorem scan_literal_code_units k f l tv rest :
  Forall is_code_point l -> scan_literal k f l = Some (Ok (tv, rest)) -> Forall is_code_unit tv.
Proof.
  intros Hl H. revert H Hl.
  apply (scan_literal_Ok_ind k (fun l tv => Forall is_code_point l -> Forall is_code_unit tv)).
  - constructor.
  - intros l0 u l' tv' Hs IH Hl0. apply Forall_app. split; [by eapply lex_step_units|].
    apply IH. apply lex_step_suffix in Hs as (c & p & ->). by eapply Forall_suffix.
Qed.

(** Line terminator normalisation: a template with no escape
    sequence has no <CR> in its value, whatever line endings its source
    text has. *)
Theorem scan_template_no_cr f l tv rest :
  BACKSLASH ∉ l -> scan_literal TemplateLit f l = Some (Ok (tv, rest)) -> CR ∉ tv.
Proof.
  intros Hl H. revert H Hl.
  apply (scan_literal_Ok_ind TemplateLit (fun l tv => BACKSLASH ∉ l -> CR ∉ tv)).
  - set_solver.
  - intros l0 u l' tv' Hs IH Hl0. rewrite elem_of_app. intros [Hu|Ht].
    + by eapply lex_step_no_cr.
    + apply lex_step_suffix in Hs as (c & p & ->). set_solver.
Qed.

End Lexer.
