(* ===== verification/JsObject.v ===== *)
(** * Ordinary objects: own properties, CreateDataProperty, key order

    The table [sampleCode] and each of its entries are ordinary objects
    created by an object literal.  This file models the part of an
    ordinary object (ECMA-262 §10.1) the literal and its readers use:
    - the own data properties, in the order they were created, with
      their attributes [[Writable]], [[Enumerable]], [[Configurable]];
    - CreateDataProperty / CreateDataPropertyOrThrow (§7.3.5, §7.3.7)
      through ValidateAndApplyPropertyDescriptor (§10.1.6.3): a new key
      is appended if the object is extensible, an existing configurable
      property is replaced where it stands, a non-configurable one makes
      the operation fail (a TypeError for the OrThrow variant);
    - OrdinaryOwnPropertyKeys (§10.1.11): array-index keys first in
      ascending numeric order, then the other string keys in creation
      order, and the enumerable keys and entries built on it
      (EnumerableOwnProperties, §7.3.23: Object.keys, Object.entries).
    Symbol keys, accessor properties and the prototype chain's [[Get]]
    are not needed here; [[Get]] is in [ObjectLiteral.v]. *)

From Stdlib Require Import ZArith Lia.
From stdpp Require Import base list decidable sets sorting strings.
From S2P Require Import Prelude.
Open Scope Z_scope.

Module JsObject.

Inductive proto_ref := ProtoNull | ProtoObjectPrototype.

#[export] Instance proto_ref_eq_dec : EqDecision proto_ref.
Proof. solve_decision. Defined.

Section Objects.
Context {V : Type}.

(** A data property and its attributes (ECMA-262 Table 3). *)
Record data_property := mk_prop {
  pr_value : V;
  pr_writable : bool;
  pr_enumerable : bool;
  pr_configurable : bool }.

Record object := mk_object {
  ob_props : list (jsstr * data_property);   (* in creation order *)
  ob_extensible : bool;
  ob_proto : proto_ref }.

(** OrdinaryObjectCreate(proto): no own property, extensible. *)
Definition ordinary_object_create (proto : proto_ref) : object :=
  mk_object [] true proto.

(** [[GetOwnProperty]](P) *)
Definition get_own_property (o : object) (k : jsstr) : option data_property :=
  assoc k (ob_props o).

Definition replace_prop (k : jsstr) (p : data_property) (ps : list (jsstr * data_property))
  : list (jsstr * data_property) :=
  map (fun kp => if decide (kp.1 = k) then (k, p) else kp) ps.

(** CreateDataProperty(O, P, V): [[DefineOwnProperty]] with the
    descriptor { [[Value]]: V, [[Writable]]: true, [[Enumerable]]: true,
    [[Configurable]]: true }, through ValidateAndApplyPropertyDescriptor.
    [None] is the operation returning false. *)
Definition create_data_property (o : object) (k : jsstr) (v : V) : option object :=
  let p := mk_prop v true true true in
  match get_own_property o k with
  | None =>
      if ob_extensible o
      then Some (mk_object (ob_props o ++ [(k, p)]) (ob_extensible o) (ob_proto o))
      else None
  | Some cur =>
      if pr_configurable cur
      then Some (mk_object (replace_prop k p (ob_props o)) (ob_extensible o) (ob_proto o))
      else None
  end.

(** CreateDataPropertyOrThrow(O, P, V) *)
Definition create_data_property_or_throw (o : object) (k : jsstr) (v : V) : result object :=
  match create_data_property o k v with
  | Some o' => Ok o'
  | None => Err TypeError
  end.

(** [[DefineOwnProperty]](P, { [[Value]]: V }) on an existing property:
    the value changes, the attributes stay. *)
Definition set_value (o : object) (k : jsstr) (v : V) : object :=
  mk_object (map (fun kp => if decide (kp.1 = k)
                            then (k, mk_prop v (pr_writable kp.2) (pr_enumerable kp.2) (pr_configurable kp.2))
                            else kp) (ob_props o))
            (ob_extensible o) (ob_proto o).

(** OrdinarySet(O, P, V, O) (§10.1.9) for an object whose prototype is
    null or %Object.prototype%: an own writable property gets the new
    value, an own read-only one refuses ([Some None] is [[Set]] returning
    false); a missing key reaches %Object.prototype%, whose members are
    writable data properties, so the key is created on the receiver with
    CreateDataProperty, except [__proto__], whose inherited setter changes
    the prototype and is not modelled. *)
Definition ordinary_set (o : object) (k : jsstr) (v : V) : result (option object) :=
  match get_own_property o k with
  | Some p => Ok (if pr_writable p then Some (set_value o k v) else None)
  | None =>
      match ob_proto o with
      | ProtoObjectPrototype =>
          if decide (k = str "__proto__") then Err (Unsupported "__proto__ setter"%string)
          else Ok (create_data_property o k v)
      | ProtoNull => Ok (create_data_property o k v)
      end
  end.

(** A well-formed object has one property per key. *)
Definition wf_object (o : object) : Prop := NoDup (map fst (ob_props o)).

Definition keys (o : object) : list jsstr := map fst (ob_props o).

End Objects.
Arguments data_property : clear implicits.
Arguments object : clear implicits.

(** ** Array indices

    A String is an array index when it is the canonical numeric string
    of an integer i with 0 <= i < 2^32 - 1 (§6.1.7): decimal digits, no
    leading zero except for "0" itself. *)

Definition MAX_ARRAY_INDEX := 2 ^ 32 - 2.

Fixpoint digits_value (acc : Z) (l : list Z) : option Z :=
  match l with
  | [] => Some acc
  | c :: l' => if (48 <=? c) && (c <=? 57) then digits_value (acc * 10 + (c - 48)) l' else None
  end.

Definition array_index_value (k : jsstr) : option Z :=
  match k with
  | [] => None
  | c :: rest =>
      if decide (c = 48) then (if decide (rest = []) then Some 0 else None)   (* "0", or a leading zero *)
      else
        match digits_value 0 k with
        | Some n => if n <=? MAX_ARRAY_INDEX then Some n else None
        | None => None
        end
  end.

Definition is_array_index (k : jsstr) : bool :=
  match array_index_value k with Some _ => true | None => false end.

(** ** OrdinaryOwnPropertyKeys and EnumerableOwnProperties *)

Definition index_le : relation (Z * jsstr) := fun x y => x.1 <= y.1.
#[export] Instance index_le_dec : RelDecision index_le.
Proof. intros x y. unfold index_le. apply _. Defined.

Fixpoint index_keys (ks : list jsstr) : list (Z * jsstr) :=
  match ks with
  | [] => []
  | k :: ks' =>
      match array_index_value k with
      | Some n => (n, k) :: index_keys ks'
      | None => index_keys ks'
      end
  end.

Definition ordinary_own_property_keys {V} (o : object V) : list jsstr :=
  map snd (merge_sort index_le (index_keys (keys o)))
  ++ filter (fun k => is_array_index k = false) (keys o).

(** EnumerableOwnProperties(O, key) and (O, key+value): the enumerable
    own keys in [[OwnPropertyKeys]] order, with the value of each. *)
Definition enumerable_own_entries {V} (o : object V) : list (jsstr * V) :=
  omap (fun k => match get_own_property o k with
                 | Some p => if pr_enumerable p then Some (k, pr_value p) else None
                 | None => None
                 end) (ordinary_own_property_keys o).

Definition object_keys {V} (o : object V) : list jsstr := map fst (enumerable_own_entries o).

(** ** Lemmas on the property list *)

Section Lemmas.
Context {V : Type}.
Implicit Types (o : object V) (ps : list (jsstr * data_property V)).

Lemma map_fst_replace_prop k p ps : map fst (replace_prop k p ps) = map fst ps.
Proof. induction ps as [|[k' p'] ps IH]; simpl; [done|]. case_decide; simpl; congruence. Qed.

Lemma prop_lookup_replace_ne k k' p ps :
  k' <> k -> assoc k' (replace_prop k p ps) = assoc k' ps.
Proof.
  intros Hne. induction ps as [|[k1 p1] ps IH]; simpl; [done|].
  case_decide; simpl; subst; [by rewrite !decide_False|]. by case_decide.
Qed.

Lemma prop_lookup_replace_eq k p ps :
  k ∈ map fst ps -> assoc k (replace_prop k p ps) = Some p.
Proof.
  induction ps as [|[k1 p1] ps IH]; simpl; [set_solver|]. rewrite elem_of_cons.
  intros Hin. case_decide; simpl; [by rewrite decide_True|].
  rewrite decide_False by done. apply IH. naive_solver.
Qed.

Lemma prop_lookup_replace k k' p ps :
  k ∈ map fst ps ->
  assoc k' (replace_prop k p ps) = if decide (k' = k) then Some p else assoc k' ps.
Proof.
  intros Hin. case_decide; subst; [by apply prop_lookup_replace_eq|by apply prop_lookup_replace_ne].
Qed.

Lemma create_data_property_cases o k v o' :
  create_data_property o k v = Some o' ->
  ob_extensible o' = ob_extensible o /\ ob_proto o' = ob_proto o /\
  (((k ∉ keys o) /\ ob_props o' = ob_props o ++ [(k, mk_prop v true true true)]) \/
   (k ∈ keys o /\ ob_props o' = replace_prop k (mk_prop v true true true) (ob_props o))).
Proof.
  unfold create_data_property, get_own_property, keys. intros H.
  destruct (assoc k (ob_props o)) as [cur|] eqn:E.
  - destruct (pr_configurable cur); [|done]. injection H as <-. simpl.
    split_and!; [done|done|]. right. split; [|done].
    destruct (decide (k ∈ map fst (ob_props o))) as [|Hn]; [done|].
    apply assoc_None in Hn. congruence.
  - destruct (ob_extensible o); [|done]. injection H as <-. simpl.
    split_and!; [done|done|]. left. by split; [apply assoc_None|].
Qed.

Lemma create_data_property_get_own_eq o k v o' :
  create_data_property o k v = Some o' -> get_own_property o' k = Some (mk_prop v true true true).
Proof.
  unfold get_own_property. intros (_ & _ & [[Hn ->]|[Hin ->]])%create_data_property_cases.
  - rewrite assoc_snoc, (proj2 (assoc_None _ _) Hn). by rewrite decide_True.
  - by apply prop_lookup_replace_eq.
Qed.

(** ** Properties of CreateDataProperty *)

(** Invariant: CreateDataProperty keeps one property per key. *)
Theorem create_data_property_wf o k v o' :
  wf_object o -> create_data_property o k v = Some o' -> wf_object o'.
Proof.
  unfold wf_object. intros Hwf (_ & _ & [[Hn ->]|[_ ->]])%create_data_property_cases.
  - rewrite map_app. apply NoDup_app. split; [done|]. split; [|apply NoDup_singleton].
    intros x Hx. set_solver.
  - by rewrite map_fst_replace_prop.
Qed.

(** After CreateDataProperty(O, P, V) the own property P is the
    data property V, writable, enumerable and configurable, and every
    other own property is unchanged. *)
Theorem create_data_property_get_own o k v o' k' :
  create_data_property o k v = Some o' ->
  get_own_property o' k' =
    if decide (k' = k) then Some (mk_prop v true true true) else get_own_property o k'.
Proof.
  unfold get_own_property. intros (_ & _ & [[Hn ->]|[Hin ->]])%create_data_property_cases.
  - rewrite assoc_snoc. case_decide; subst; [|by case_match].
    by rewrite (proj2 (assoc_None _ _) Hn).
  - by apply prop_lookup_replace.
Qed.

(** CreateDataProperty appends a new key at the end of the creation
    order and leaves the position of an existing key unchanged. *)
Theorem create_data_property_keys o k v o' :
  create_data_property o k v = Some o' ->
  keys o' = if decide (k ∈ keys o) then keys o else keys o ++ [k].
Proof.
  intros (_ & _ & [[Hn Hp]|[Hin Hp]])%create_data_property_cases; unfold keys in *; rewrite Hp.
  - rewrite decide_False by done. by rewrite map_app.
  - rewrite decide_True by done. apply map_fst_replace_prop.
Qed.

(** Objects the literal builds: extensible, every property configurable. *)
Definition literal_shape o : Prop :=
  ob_extensible o = true /\ Forall (fun kp => pr_configurable kp.2 = true) (ob_props o).

Lemma create_data_property_literal_shape o k v :
  literal_shape o ->
  exists o', create_data_property o k v = Some o' /\ literal_shape o'.
Proof.
  intros [He Hc]. unfold create_data_property, get_own_property.
  destruct (assoc k (ob_props o)) as [cur|] eqn:E.
  - assert (Hcur : pr_configurable cur = true).
    { apply assoc_elem in E. by apply (proj1 (Forall_forall _ _) Hc) in E. }
    rewrite Hcur. eexists; split; [done|]. split; [done|]. simpl.
    clear E. induction (ob_props o) as [|[k' p'] ps IH]; simpl; [done|].
    apply Forall_cons in Hc as [Hp Hc]. constructor; [by case_decide|auto].
  - rewrite He. eexists; split; [done|]. split; [done|]. simpl.
    apply Forall_app. split; [done|]. by repeat constructor.
Qed.

(** What CreateDataProperty does on an object of [literal_shape]. *)
Definition upsert_data_property o (k : jsstr) (v : V) : object V :=
  let p := mk_prop v true true true in
  mk_object (if decide (k ∈ keys o) then replace_prop k p (ob_props o) else ob_props o ++ [(k, p)])
            (ob_extensible o) (ob_proto o).

Lemma create_data_property_upsert o k v :
  literal_shape o -> create_data_property o k v = Some (upsert_data_property o k v).
Proof.
  intros Hs. destruct (create_data_property_literal_shape o k v Hs) as (o' & Hc & _).
  rewrite Hc. apply create_data_property_cases in Hc as (He & Hp & [[Hn Hps]|[Hin Hps]]);
    destruct o' as [ps' e' p']; simpl in *; subst; unfold upsert_data_property;
    [rewrite decide_False|rewrite decide_True]; done.
Qed.

Lemma upsert_literal_shape o k v : literal_shape o -> literal_shape (upsert_data_property o k v).
Proof.
  intros Hs. destruct (create_data_property_literal_shape o k v Hs) as (o' & Hc & Hs').
  by rewrite create_data_property_upsert in Hc by done; simplify_eq.
Qed.

Lemma upsert_get_own o k v k' :
  get_own_property (upsert_data_property o k v) k' =
    if decide (k' = k) then Some (mk_prop v true true true) else get_own_property o k'.
Proof.
  unfold upsert_data_property, get_own_property, keys. simpl.
  case_decide as Hin; [by apply prop_lookup_replace|].
  rewrite assoc_snoc. case_decide; subst; [|by case_match].
  by rewrite (proj2 (assoc_None _ _) Hin).
Qed.

Definition add_key (ks : list jsstr) (k : jsstr) : list jsstr :=
  if decide (k ∈ ks) then ks else ks ++ [k].

Lemma upsert_keys o k v : keys (upsert_data_property o k v) = add_key (keys o) k.
Proof.
  unfold upsert_data_property, add_key, keys. simpl.
  case_decide; [apply map_fst_replace_prop|by rewrite map_app].
Qed.

Lemma assoc_set_value k k' v (ps : list (jsstr * data_property V)) :
  assoc k' (map (fun kp => if decide (kp.1 = k)
                            then (k, mk_prop v (pr_writable kp.2) (pr_enumerable kp.2) (pr_configurable kp.2))
                            else kp) ps)
  = if decide (k' = k)
    then (fun p => mk_prop v (pr_writable p) (pr_enumerable p) (pr_configurable p)) <$> assoc k' ps
    else assoc k' ps.
Proof.
  induction ps as [|[k1 p1] ps IH]; [cbn; by destruct (decide (k' = k))|].
  cbn [map assoc fst snd]. rewrite IH.
  destruct (decide (k1 = k)) as [->|Hne]; cbn [assoc].
  - destruct (decide (k' = k)); reflexivity.
  - destruct (decide (k' = k1)) as [->|Hk1].
    + rewrite !decide_False by done. reflexivity.
    + destruct (decide (k' = k)); reflexivity.
Qed.

Lemma set_value_get_own o k v k' :
  get_own_property (set_value o k v) k' =
    if decide (k' = k)
    then (fun p => mk_prop v (pr_writable p) (pr_enumerable p) (pr_configurable p)) <$> get_own_property o k'
    else get_own_property o k'.
Proof. apply assoc_set_value. Qed.

(** The attributes every property of an object literal has. *)
Definition plain_data_props o : Prop :=
  Forall (fun kp => pr_writable kp.2 = true /\ pr_enumerable kp.2 = true /\ pr_configurable kp.2 = true)
         (ob_props o).

Lemma upsert_plain o k v : plain_data_props o -> plain_data_props (upsert_data_property o k v).
Proof.
  intros He. unfold upsert_data_property, plain_data_props in *. simpl. case_decide.
  - induction He as [|[k' p'] ps Hp _ IH]; simpl; constructor; [by case_decide|done].
  - apply Forall_app. by repeat constructor.
Qed.

Lemma upsert_enumerable o k v :
  Forall (fun kp => pr_enumerable kp.2 = true) (ob_props o) ->
  Forall (fun kp => pr_enumerable kp.2 = true) (ob_props (upsert_data_property o k v)).
Proof.
  intros He. unfold upsert_data_property. simpl. case_decide.
  - induction He as [|[k' p'] ps Hp _ IH]; simpl; constructor; [by case_decide|done].
  - apply Forall_app. by repeat constructor.
Qed.

(** A successful [[Set]] leaves the key an own property holding the
    value written. *)
Lemma ordinary_set_get_own o k v o' :
  ordinary_set o k v = Ok (Some o') -> exists p, get_own_property o' k = Some p /\ pr_value p = v.
Proof.
  unfold ordinary_set. destruct (get_own_property o k) as [p|] eqn:E.
  - destruct (pr_writable p); intros [= <-]. rewrite set_value_get_own, decide_True, E by done.
    by eexists.
  - destruct (ob_proto o); [|case_decide; [done|]]; intros [= Hc];
      eexists; (split; [exact (create_data_property_get_own_eq _ _ _ _ Hc)|done]).
Qed.

(** Error: CreateDataPropertyOrThrow throws a TypeError exactly when
    the key is new and the object is not extensible, or the key names a
    non-configurable property. *)
Theorem create_data_property_or_throw_error o k v :
  create_data_property_or_throw o k v = Err TypeError <->
  (get_own_property o k = None /\ ob_extensible o = false) \/
  (exists p, get_own_property o k = Some p /\ pr_configurable p = false).
Proof.
  unfold create_data_property_or_throw, create_data_property.
  destruct (get_own_property o k) as [cur|].
  - destruct (pr_configurable cur) eqn:Hc; simpl; split; [intros [=]| |intros _; right; by exists cur|done].
    intros [[? ?]|(p & [= <-] & ?)]; congruence.
  - destruct (ob_extensible o); simpl; split; [intros [=]| |intros _; by left|done].
    intros [[? ?]|(p & ? & ?)]; congruence.
Qed.

(** ** Key order *)

Lemma index_keys_snd ks : map snd (index_keys ks) = filter (fun k => is_array_index k = true) ks.
Proof.
  induction ks as [|k ks IH]; [done|]. simpl.
  destruct (array_index_value k) eqn:E; simpl.
  - rewrite filter_cons_True by (unfold is_array_index; by rewrite E). by f_equal.
  - rewrite filter_cons_False by (unfold is_array_index; by rewrite E). done.
Qed.

Lemma no_index_keys ks :
  Forall (fun k => is_array_index k = false) ks ->
  index_keys ks = [] /\ filter (fun k => is_array_index k = false) ks = ks.
Proof.
  induction 1 as [|k ks Hk _ [IH1 IH2]]; [done|]. simpl.
  rewrite filter_cons_True by done. unfold is_array_index in Hk.
  destruct (array_index_value k); [done|]. by rewrite IH1, IH2.
Qed.

(** OrdinaryOwnPropertyKeys lists every own key exactly once: its
    result is a permutation of the keys in creation order. *)
Theorem own_property_keys_perm o : ordinary_own_property_keys o ≡ₚ keys o.
Proof.
  unfold ordinary_own_property_keys.
  rewrite (Permutation_map snd (merge_sort_Permutation index_le _)), index_keys_snd.
  rewrite (list_filter_iff (fun k => is_array_index k = false) (fun k => ~ is_array_index k = true)).
  - apply filter_app_complement.
  - intros k. destruct (is_array_index k); naive_solver.
Qed.

(** when no own key is an array index, OrdinaryOwnPropertyKeys is
    the creation order of the keys. *)
Theorem own_property_keys_creation_order o :
  Forall (fun k => is_array_index k = false) (keys o) ->
  ordinary_own_property_keys o = keys o.
Proof.
  intros Hn. unfold ordinary_own_property_keys.
  destruct (no_index_keys _ Hn) as [-> ->]. done.
Qed.

Lemma own_property_keys_elem o k : k ∈ ordinary_own_property_keys o <-> k ∈ keys o.
Proof. by rewrite own_property_keys_perm. Qed.

(** The entries of Object.entries are the enumerable own properties. *)
Lemma enumerable_own_entries_elem o k v :
  (k, v) ∈ enumerable_own_entries o <->
  exists p, get_own_property o k = Some p /\ pr_enumerable p = true /\ pr_value p = v.
Proof.
  unfold enumerable_own_entries. rewrite list_elem_of_omap. split.
  - intros (k' & Hk' & Hf). repeat case_match; simplify_eq. eauto.
  - intros (p & Hp & He & <-). exists k. split.
    + apply own_property_keys_elem. unfold keys, get_own_property in *.
      destruct (decide (k ∈ map fst (ob_props o))) as [|Hn]; [done|].
      apply assoc_None in Hn. congruence.
    + by rewrite Hp, He.
Qed.

(** When every property is enumerable, Object.keys is [[OwnPropertyKeys]]. *)
Lemma object_keys_all_enumerable o :
  Forall (fun kp => pr_enumerable kp.2 = true) (ob_props o) ->
  object_keys o = ordinary_own_property_keys o.
Proof.
  intros He. unfold object_keys, enumerable_own_entries.
  assert (Hk : Forall (fun k => k ∈ keys o) (ordinary_own_property_keys o)).
  { apply Forall_forall. intros k. apply own_property_keys_elem. }
  induction Hk as [|k ks Hin _ IH]; [done|]. simpl.
  assert (exists p, get_own_property o k = Some p /\ pr_enumerable p = true) as (p & -> & ->).
  { unfold keys, get_own_property in *.
    destruct (assoc k (ob_props o)) as [p|] eqn:E.
    - exists p. split; [done|]. apply assoc_elem in E.
      by apply (proj1 (Forall_forall _ _) He) in E.
    - by apply assoc_None in E. }
  simpl. by f_equal.
Qed.

End Lemmas.

(** ** Witnesses *)

Definition example_object : object Z :=
  mk_object [(str "a", mk_prop 1 true true true)] true ProtoObjectPrototype.

End JsObject.
