(* ===== verification/KeyOrder.v ===== *)
(** * Canonical array-index strings and the order of own keys

    [JsObject.v] decides whether a key is an array index by reading its
    decimal digits ([array_index_value]).  ECMA-262 (§6.1.7, §7.1.21
    CanonicalNumericIndexString) defines the same set through a round
    trip: a key is an array index when it is ToString of an integer i
    with 0 <= i < 2^32 - 1.  This file gives ToString on those integers
    ([index_string], Number::toString in radix 10), proves the two
    definitions agree, and derives the full order that
    OrdinaryOwnPropertyKeys puts on the keys of an object: the array
    indices in strictly ascending numeric order, then the other keys in
    creation order. *)

From Stdlib Require Import ZArith Lia.
From stdpp Require Import base list decidable sets sorting.
From S2P Require Import Prelude JsObject.
Import JsObject.
Open Scope Z_scope.

Module KeyOrder.

(** Number::toString(n) in radix 10 for 0 <= n < 10^(fuel+1): the digits
    are produced from the least significant one, each prepended to the
    accumulator. *)
Fixpoint dec_digits (fuel : nat) (n : Z) (acc : jsstr) : jsstr :=
  match fuel with
  | O => (48 + n mod 10) :: acc
  | S f => if n <? 10 then (48 + n) :: acc else dec_digits f (n / 10) ((48 + n mod 10) :: acc)
  end.

(** Ten digits cover every array index: MAX_ARRAY_INDEX = 4294967294 < 10^10. *)
Definition index_string (n : Z) : jsstr := dec_digits 9 n [].

(** ** Digits *)

Lemma digits_value_app a l1 l2 :
  digits_value a (l1 ++ l2) = digits_value a l1 ≫= fun b => digits_value b l2.
Proof.
  induction l1 as [|c l1 IH] in a |- *; [done|]. cbn [digits_value app].
  destruct ((48 <=? c) && (c <=? 57)); [apply IH|done].
Qed.

Lemma digits_value_digit a d l :
  0 <= d < 10 -> digits_value a ((48 + d) :: l) = digits_value (a * 10 + d) l.
Proof.
  intros Hd. cbn [digits_value].
  rewrite (proj2 (Z.leb_le 48 _)), (proj2 (Z.leb_le _ 57)) by lia. do 2 f_equal. lia.
Qed.

Lemma digits_value_cons_inv a c l b :
  digits_value a (c :: l) = Some b -> 48 <= c <= 57 /\ digits_value (a * 10 + (c - 48)) l = Some b.
Proof.
  cbn [digits_value]. destruct (48 <=? c) eqn:E1, (c <=? 57) eqn:E2; try done.
  apply Z.leb_le in E1, E2. auto.
Qed.

(** Each further digit multiplies the value by ten at least. *)
Lemma digits_value_lower a l b :
  0 <= a -> digits_value a l = Some b -> a * 10 ^ Z.of_nat (length l) <= b.
Proof.
  induction l as [|c l IH] in a |- *; intros Ha H.
  - injection H as <-. simpl. lia.
  - apply digits_value_cons_inv in H as [Hc H].
    specialize (IH (a * 10 + (c - 48)) ltac:(lia) H).
    rewrite length_cons, Nat2Z.inj_succ, Z.pow_succ_r by lia.
    assert (0 <= 10 ^ Z.of_nat (length l)) by lia. nia.
Qed.

Lemma dec_digits_acc f n acc : dec_digits f n acc = dec_digits f n [] ++ acc.
Proof.
  induction f as [|f IH] in n, acc |- *; [done|]. simpl.
  destruct (n <? 10); [done|]. rewrite IH, (IH _ [_]), <- app_assoc. done.
Qed.

Lemma dec_digits_small f n acc : 0 <= n < 10 -> dec_digits f n acc = (48 + n) :: acc.
Proof.
  intros Hn. destruct f; simpl.
  - by rewrite Z.mod_small by lia.
  - by rewrite (proj2 (Z.ltb_lt n 10)) by lia.
Qed.

Lemma pow10_succ f : 10 ^ Z.of_nat (S f) = 10 * 10 ^ Z.of_nat f.
Proof. rewrite Nat2Z.inj_succ, Z.pow_succ_r; lia. Qed.

Lemma dec_digits_large f n acc :
  10 <= n -> dec_digits (S f) n acc = dec_digits f (n / 10) [48 + n mod 10] ++ acc.
Proof.
  intros Hn. simpl. rewrite (proj2 (Z.ltb_ge n 10)) by lia.
  by rewrite (dec_digits_acc f _ (_ :: acc)), (dec_digits_acc f _ [_]), <- app_assoc.
Qed.

(** Reading the printed digits gives the number back. *)
Lemma dec_digits_value f n :
  0 <= n < 10 ^ Z.of_nat (S f) -> digits_value 0 (dec_digits f n []) = Some n.
Proof.
  induction f as [|f IH] in n |- *; intros Hn.
  - rewrite dec_digits_small by (simpl in Hn; lia). by rewrite digits_value_digit by (simpl in Hn; lia).
  - destruct (decide (n < 10)).
    + rewrite dec_digits_small, digits_value_digit by lia. done.
    + rewrite dec_digits_large, app_nil_r, dec_digits_acc, digits_value_app by lia.
      rewrite IH; cycle 1.
      { split; [apply Z.div_pos; lia|]. apply Z.div_lt_upper_bound; [lia|]. rewrite <- pow10_succ; lia. }
      cbn [mbind option_bind]. rewrite digits_value_digit by (apply Z.mod_pos_bound; lia).
      cbn [digits_value]. f_equal. pose proof (Z.div_mod n 10 ltac:(lia)). lia.
Qed.

(** A positive number is printed without a leading zero. *)
Lemma dec_digits_head f n acc :
  1 <= n < 10 ^ Z.of_nat (S f) -> exists d l, dec_digits f n acc = d :: l /\ 49 <= d <= 57.
Proof.
  induction f as [|f IH] in n, acc |- *; intros Hn.
  - rewrite dec_digits_small by (simpl in Hn; lia). eexists _, _. split; [done|]. simpl in Hn. lia.
  - destruct (decide (n < 10)).
    + rewrite dec_digits_small by lia. eexists _, _. split; [done|lia].
    + simpl. rewrite (proj2 (Z.ltb_ge n 10)) by lia. apply IH. split.
      * apply Z.div_le_lower_bound; lia.
      * apply Z.div_lt_upper_bound; [lia|]. rewrite <- pow10_succ; lia.
Qed.

Lemma index_string_zero : index_string 0 = [48].
Proof. reflexivity. Qed.

(** ** The two definitions of array index agree *)

Lemma MAX_ARRAY_INDEX_digits : MAX_ARRAY_INDEX < 10 ^ Z.of_nat 10.
Proof. reflexivity. Qed.

Lemma index_string_array_index n :
  0 <= n <= MAX_ARRAY_INDEX -> array_index_value (index_string n) = Some n.
Proof.
  intros Hn. destruct (decide (n = 0)) as [->|Hn0]; [reflexivity|].
  pose proof MAX_ARRAY_INDEX_digits.
  destruct (dec_digits_head 9 n [] ltac:(lia)) as (d & l & Hdl & Hd).
  unfold array_index_value, index_string. rewrite Hdl, decide_False by lia. rewrite <- Hdl.
  rewrite dec_digits_value by lia. by rewrite (proj2 (Z.leb_le _ _)) by lia.
Qed.

Lemma array_index_value_inv k n :
  array_index_value k = Some n ->
  (k = [48] /\ n = 0) \/
  (exists c l, k = c :: l /\ c <> 48 /\ digits_value 0 k = Some n /\ n <= MAX_ARRAY_INDEX).
Proof.
  unfold array_index_value. destruct k as [|c l]; [done|].
  case_decide; [case_decide; [subst; naive_solver|done]|].
  destruct (digits_value 0 (c :: l)) eqn:E; [|done].
  destruct (_ <=? _) eqn:E2; [|done]. intros [= <-]. apply Z.leb_le in E2. eauto 10.
Qed.

(** A digit string without a leading zero is what [dec_digits] prints
    for its value. *)
Lemma dec_digits_canonical k : forall f n,
  k <> [] -> hd 0 k <> 48 -> digits_value 0 k = Some n -> (length k <= S f)%nat ->
  dec_digits f n [] = k.
Proof.
  induction k as [|c k IH] using rev_ind; [done|]. intros f n _ Hhd H Hlen.
  rewrite digits_value_app in H. destruct (digits_value 0 k) as [b|] eqn:Hk; [|done].
  cbn [mbind option_bind] in H. apply digits_value_cons_inv in H as [Hc H].
  cbn [digits_value] in H. injection H as <-.
  destruct k as [|c0 k'].
  - simpl in Hhd. injection Hk as <-. rewrite dec_digits_small by lia. simpl. f_equal. lia.
  - simpl in Hhd. apply digits_value_cons_inv in Hk as Hk'. destruct Hk' as [Hc0 Hk'].
    apply digits_value_lower in Hk'; [|lia].
    pose proof (Z.pow_pos_nonneg 10 (Z.of_nat (length k')) ltac:(lia) ltac:(lia)).
    destruct f as [|f]; [simpl in Hlen; rewrite length_app in Hlen; simpl in Hlen; lia|].
    rewrite dec_digits_large by nia.
    assert (b * 10 + (c - 48) = 10 * b + (c - 48)) as -> by lia.
    rewrite <- (Z.div_unique_pos _ 10 b (c - 48)), <- (Z.mod_unique_pos _ 10 b (c - 48)) by lia.
    rewrite app_nil_r, dec_digits_acc, (IH f b) by (simpl in *; rewrite ?length_app in Hlen; simpl in Hlen; auto with lia).
    by replace (48 + (c - 48)) with c by lia.
Qed.

(** The digit reader [array_index_value] accepts exactly the canonical
    decimal strings of the integers 0 <= n <= 2^32 - 2, and reads each
    one back as the integer it prints. *)
Lemma array_index_value_canonical k n :
  array_index_value k = Some n <-> 0 <= n <= MAX_ARRAY_INDEX /\ k = index_string n.
Proof.
  split; [|intros [Hn ->]; by apply index_string_array_index].
  intros H. destruct (array_index_value_inv _ _ H) as [[-> ->]|(c & l & -> & Hc & Hv & Hmax)]; [done|].
  pose proof (digits_value_lower _ _ _ (Z.le_refl 0) Hv).
  apply digits_value_cons_inv in Hv as Hv'. destruct Hv' as [Hd Hv'].
  apply digits_value_lower in Hv'; [|lia].
  assert (Hlen : (length l <= 9)%nat).
  { destruct (decide (length l <= 9)%nat); [done|]. exfalso.
    pose proof (Z.pow_le_mono_r 10 10 (Z.of_nat (length l)) ltac:(lia) ltac:(lia)).
    pose proof MAX_ARRAY_INDEX_digits. simpl Z.of_nat in *. nia. }
  split; [lia|]. symmetry. apply dec_digits_canonical; simpl; auto with lia.
Qed.

Lemma array_index_value_inj k1 k2 n :
  array_index_value k1 = Some n -> array_index_value k2 = Some n -> k1 = k2.
Proof. rewrite !array_index_value_canonical. naive_solver. Qed.

Lemma is_array_index_canonical k :
  is_array_index k = true <-> exists n, 0 <= n <= MAX_ARRAY_INDEX /\ k = index_string n.
Proof.
  unfold is_array_index. destruct (array_index_value k) as [n|] eqn:E; split; try done.
  - intros _. exists n. by apply array_index_value_canonical.
  - intros (n & Hn). by rewrite (proj2 (array_index_value_canonical k n) Hn) in E.
Qed.

(** ** The order of OrdinaryOwnPropertyKeys *)

Lemma index_keys_fst ks : map fst (index_keys ks) = omap array_index_value ks.
Proof. induction ks as [|k ks IH]; [done|]. simpl. destruct (array_index_value k); simpl; by f_equal. Qed.

Lemma index_keys_sound ks : Forall (fun p => array_index_value p.2 = Some p.1) (index_keys ks).
Proof.
  induction ks as [|k ks IH]; simpl; [constructor|].
  destruct (array_index_value k) eqn:E; [constructor|]; done.
Qed.

Lemma omap_index_snd ps :
  Forall (fun p => array_index_value p.2 = Some p.1) ps -> omap array_index_value (map snd ps) = map fst ps.
Proof. induction 1 as [|[n k] ps Hk _ IH]; [done|]. simpl in Hk |- *. rewrite Hk. f_equal. exact IH. Qed.

(** Distinct keys have distinct numeric values. *)
Lemma NoDup_omap_index ks : NoDup ks -> NoDup (omap array_index_value ks).
Proof.
  induction 1 as [|k ks Hk _ IH]; simpl; [constructor|].
  destruct (array_index_value k) as [n|] eqn:E; [|done]. constructor; [|done].
  rewrite list_elem_of_omap. intros (k' & Hk' & E').
  by rewrite (array_index_value_inj k' k n) in Hk'.
Qed.

#[export] Instance index_le_total : Total index_le.
Proof. intros x y. unfold index_le. lia. Qed.
#[export] Instance index_le_trans : Transitive index_le.
Proof. intros x y z. unfold index_le. lia. Qed.

Lemma index_sorted_fst ps : Sorted index_le ps -> StronglySorted Z.le (map fst ps).
Proof.
  intros Hs. apply Sorted_StronglySorted in Hs; [|apply _].
  induction Hs as [|p ps _ IH Hp]; simpl; constructor; [done|].
  apply Forall_map. exact Hp.
Qed.

Lemma StronglySorted_le_lt l : StronglySorted Z.le l -> NoDup l -> StronglySorted Z.lt l.
Proof.
  induction 1 as [|x l _ IH Hx]; intros Hnd; constructor; apply NoDup_cons in Hnd as [Hx' Hnd]; [auto|].
  apply Forall_forall. intros y Hy. apply Forall_forall with (x := y) in Hx; [|done].
  destruct (decide (x = y)); [subst; done|lia].
Qed.

(** OrdinaryOwnPropertyKeys of an object with distinct keys lists first
    its array-index keys, all of them, in strictly ascending numeric
    order, and then its other keys in creation order. *)
Lemma own_property_keys_order {V} (o : object V) :
  wf_object o ->
  exists idx, ordinary_own_property_keys o = idx ++ filter (fun k => is_array_index k = false) (keys o)
    /\ idx ≡ₚ filter (fun k => is_array_index k = true) (keys o)
    /\ StronglySorted Z.lt (omap array_index_value idx).
Proof.
  intros Hwf. set (ps := merge_sort index_le (index_keys (keys o))).
  assert (Hp : ps ≡ₚ index_keys (keys o)) by apply merge_sort_Permutation.
  exists (map snd ps). split; [done|]. split.
  - by rewrite Hp, index_keys_snd.
  - rewrite omap_index_snd by (rewrite Hp; apply index_keys_sound).
    apply StronglySorted_le_lt; [apply index_sorted_fst, Sorted_merge_sort; apply _|].
    rewrite Hp, index_keys_fst. by apply NoDup_omap_index.
Qed.

End KeyOrder.
