(* ===== verification/ObjectLiteral.v ===== *)
(** * Values, [[Get]] and the evaluation of object literals

    The expression forms of [sample-code.ts] are string literals,
    no-substitution template literals and object literals whose property
    names are identifiers ([language:], [code:]) or computed from a
    string literal ([["Rust"]:]).  This file gives them a big-step
    semantics following ECMA-262 §13.2.5 (Object Initializer):
    - an object literal first creates an ordinary object whose
      [[Prototype]] is %Object.prototype% (OrdinaryObjectCreate);
    - each PropertyDefinition evaluates its PropertyName (a computed one
      through ToPropertyKey), then its value, then calls
      CreateDataPropertyOrThrow, in source order;
    - a literal's value is its SV or TV from [Lexical.v].
    [get] is OrdinaryGet: an own property, else the member of
    %Object.prototype% that a plain object inherits (§20.1.3). *)

From Stdlib Require Import ZArith Lia.
From stdpp Require Import base list decidable sets sorting strings.
From S2P Require Import Prelude Unicode Lexical JsObject KeyOrder.
Import Lexer JsObject KeyOrder.
Open Scope Z_scope.
Open Scope js_scope.

Module Literal.

(** Built-in objects a plain object can reach through its prototype. *)
Inductive intrinsic :=
  | ObjectPrototype                   (* %Object.prototype% *)
  | BuiltinFunction (name : jsstr).   (* %Object% and the methods of %Object.prototype% *)

#[local] Set Warnings "-register-all".
Inductive value :=
  | VUndefined
  | VNull
  | VString (s : jsstr)
  | VIntrinsic (i : intrinsic)
  | VObject (o : object value).

(** The own properties of %Object.prototype% (ECMA-262 §20.1.3) other
    than [constructor] and the [__proto__] accessor. *)
Definition object_prototype_methods : list jsstr :=
  map str ["__defineGetter__"; "__defineSetter__"; "hasOwnProperty";
           "__lookupGetter__"; "__lookupSetter__"; "isPrototypeOf";
           "propertyIsEnumerable"; "toLocaleString"; "toString"; "valueOf"]%string.

(** %Object.prototype%.[[Get]](P, Receiver) *)
Definition object_prototype_get (k : jsstr) (receiver_proto : proto_ref) : value :=
  if decide (k = str "__proto__") then
    (* get Object.prototype.__proto__: the receiver's [[GetPrototypeOf]]() *)
    match receiver_proto with
    | ProtoNull => VNull
    | ProtoObjectPrototype => VIntrinsic ObjectPrototype
    end
  else if decide (k = str "constructor") then VIntrinsic (BuiltinFunction (str "Object"))
  else if decide (k ∈ object_prototype_methods) then VIntrinsic (BuiltinFunction k)
  else VUndefined.    (* the prototype of %Object.prototype% is null *)

(** OrdinaryGet(O, P, O) on an ordinary object. *)
Definition get (o : object value) (k : jsstr) : value :=
  match get_own_property o k with
  | Some p => pr_value p
  | None =>
      match ob_proto o with
      | ProtoNull => VUndefined
      | ProtoObjectPrototype => object_prototype_get k (ob_proto o)
      end
  end.

(** ToPropertyKey(v) for the primitive values; an object would first
    be converted by a call to its [toString], which is not modelled. *)
Definition to_property_key (v : value) : result jsstr :=
  match v with
  | VString s => Ok s
  | VUndefined => Ok (str "undefined")
  | VNull => Ok (str "null")
  | _ => Err (Unsupported "ToPropertyKey of an object"%string)
  end.

(** The expressions of the source. *)
Inductive expr :=
  | EString (body : jsstr)          (* StringLiteral between double quotes *)
  | ETemplate (body : jsstr)        (* NoSubstitutionTemplate *)
  | EObject (defs : propdefs)       (* ObjectLiteral *)
with propdefs :=
  | PDNil
  | PDCons (name : propname) (e : expr) (rest : propdefs)   (* PropertyName : AssignmentExpression *)
with propname :=
  | PIdent (id : jsstr)             (* LiteralPropertyName: IdentifierName *)
  | PComputed (e : expr).           (* ComputedPropertyName: [ AssignmentExpression ] *)

(** Mutual induction over expressions, definition lists and names. *)
Scheme expr_mut := Induction for expr Sort Prop
  with propdefs_mut := Induction for propdefs Sort Prop
  with propname_mut := Induction for propname Sort Prop.
Combined Scheme expr_mutind from expr_mut, propdefs_mut, propname_mut.

(** Evaluation of an expression, of the PropertyDefinitionList of an
    object literal on the object being built, and of a PropertyName. *)
Fixpoint eval_expr (e : expr) : result value :=
  match e with
  | EString body => s <- string_value body ;; Ok (VString s)
  | ETemplate body => s <- template_value body ;; Ok (VString s)
  | EObject defs =>
      o <- eval_propdefs defs (ordinary_object_create ProtoObjectPrototype) ;;
      Ok (VObject o)
  end
with eval_propdefs (defs : propdefs) (o : object value) : result (object value) :=
  match defs with
  | PDNil => Ok o
  | PDCons n e rest =>
      k <- eval_propname n ;;
      v <- eval_expr e ;;
      o' <- create_data_property_or_throw o k v ;;
      eval_propdefs rest o'
  end
with eval_propname (n : propname) : result jsstr :=
  match n with
  | PIdent id =>
      (* [__proto__: v] sets the [[Prototype]] instead (§13.2.5.5) *)
      if decide (id = str "__proto__") then Err (Unsupported "__proto__ setter"%string)
      else Ok id
  | PComputed e => v <- eval_expr e ;; to_property_key v
  end.

(** [export const name = e;]: the binding the module exports. *)
Definition eval_export_const (name : jsstr) (e : expr) : result (jsstr * value) :=
  v <- eval_expr e ;; Ok (name, v).

(** ** Object literals as a fold *)

(** The PropertyDefinitionList evaluated without building the object:
    each name and value in source order. *)
Fixpoint eval_defs (defs : propdefs) : result (list (jsstr * value)) :=
  match defs with
  | PDNil => Ok []
  | PDCons n e rest =>
      k <- eval_propname n ;;
      v <- eval_expr e ;;
      kvs <- eval_defs rest ;;
      Ok ((k, v) :: kvs)
  end.

(** The object a literal builds from its evaluated definitions. *)
Definition define_all (o : object value) (kvs : list (jsstr * value)) : object value :=
  fold_left (fun o kv => upsert_data_property o kv.1 kv.2) kvs o.

Definition literal_object (kvs : list (jsstr * value)) : object value :=
  define_all (ordinary_object_create ProtoObjectPrototype) kvs.

(** The last value given to a key, if any. *)
Fixpoint last_value (k : jsstr) (kvs : list (jsstr * value)) : option value :=
  match kvs with
  | [] => None
  | (k', v) :: kvs' =>
      match last_value k kvs' with
      | Some v' => Some v'
      | None => if decide (k = k') then Some v else None
      end
  end.

(** The keys in the order of their first definition. *)
Definition first_occurrences (ks : list jsstr) : list jsstr := fold_left add_key ks [].

Lemma literal_shape_create : literal_shape (ordinary_object_create (V:=value) ProtoObjectPrototype).
Proof. split; [done|constructor]. Qed.

#[export] Hint Resolve literal_shape_create upsert_literal_shape upsert_plain : js.

Lemma eval_propdefs_define_all defs o :
  literal_shape o ->
  eval_propdefs defs o = (kvs <- eval_defs defs ;; Ok (define_all o kvs)).
Proof.
  revert o. induction defs as [|n e rest IH]; intros o Hs; [done|]. cbn [eval_propdefs eval_defs].
  destruct (eval_propname n) as [k|]; autorewrite with js_rw; [|done].
  destruct (eval_expr e) as [v|]; autorewrite with js_rw; [|done].
  unfold create_data_property_or_throw. rewrite create_data_property_upsert by done.
  autorewrite with js_rw. rewrite IH by auto with js.
  destruct (eval_defs rest); by autorewrite with js_rw.
Qed.

Lemma define_all_get_own o kvs k :
  get_own_property (define_all o kvs) k =
    match last_value k kvs with
    | Some v => Some (mk_prop v true true true)
    | None => get_own_property o k
    end.
Proof.
  revert o. induction kvs as [|[k' v] kvs IH]; intros o; [done|]. simpl.
  rewrite IH. destruct (last_value k kvs); [done|]. rewrite upsert_get_own. by case_decide.
Qed.

Lemma define_all_keys o kvs : keys (define_all o kvs) = fold_left add_key (map fst kvs) (keys o).
Proof.
  revert o. induction kvs as [|[k v] kvs IH]; intros o; [done|]. simpl.
  by rewrite IH, upsert_keys.
Qed.

Lemma define_all_proto o kvs : ob_proto (define_all o kvs) = ob_proto o.
Proof. revert o. induction kvs as [|[k v] kvs IH]; intros o; [done|]. simpl. by rewrite IH. Qed.

Lemma define_all_enumerable o kvs :
  Forall (fun kp => pr_enumerable kp.2 = true) (ob_props o) ->
  Forall (fun kp => pr_enumerable kp.2 = true) (ob_props (define_all o kvs)).
Proof.
  revert o. induction kvs as [|[k v] kvs IH]; intros o He; [done|]. simpl.
  by apply IH, upsert_enumerable.
Qed.

Lemma define_all_shape o kvs :
  literal_shape o -> plain_data_props o ->
  literal_shape (define_all o kvs) /\ plain_data_props (define_all o kvs).
Proof.
  revert o. induction kvs as [|[k v] kvs IH]; intros o Hs Hp; [done|]. simpl.
  apply IH; auto with js.
Qed.

Lemma literal_object_shape kvs :
  literal_shape (literal_object kvs) /\ plain_data_props (literal_object kvs) /\
  ob_proto (literal_object kvs) = ProtoObjectPrototype.
Proof.
  unfold literal_object. split; [|split].
  1,2: apply define_all_shape; auto with js; constructor.
  by rewrite define_all_proto.
Qed.

Lemma first_occurrences_elem ks acc k :
  k ∈ fold_left add_key ks acc -> k ∈ ks \/ k ∈ acc.
Proof.
  revert acc. induction ks as [|k' ks IH]; intros acc; simpl; [by right|].
  intros [Hk|Hk]%IH; [by left; right|]. unfold add_key in Hk.
  case_decide; [by right|]. apply elem_of_app in Hk as [?|?%list_elem_of_singleton]; [by right|].
  subst. by left; left.
Qed.

Lemma literal_keys kvs : keys (literal_object kvs) = first_occurrences (map fst kvs).
Proof. apply define_all_keys. Qed.

Lemma last_value_None kvs k : k ∉ map fst kvs -> last_value k kvs = None.
Proof.
  induction kvs as [|[k' v] kvs IH]; simpl; [done|]. intros Hn.
  rewrite IH by set_solver. rewrite decide_False; [done|]. set_solver.
Qed.

Lemma last_value_NoDup kvs k v :
  NoDup (map fst kvs) -> (k, v) ∈ kvs -> last_value k kvs = Some v.
Proof.
  induction kvs as [|[k' v'] kvs IH]; simpl; [set_solver|].
  intros [Hn Hnd]%NoDup_cons. rewrite elem_of_cons. intros [[= -> ->]|Hin].
  - rewrite last_value_None by done. by rewrite decide_True.
  - by rewrite IH.
Qed.

Lemma first_occurrences_NoDup_acc ks acc : NoDup acc -> NoDup (fold_left add_key ks acc).
Proof.
  induction ks as [|k ks IH] in acc |- *; intros Hnd; [done|]. simpl. apply IH.
  unfold add_key. case_decide; [done|]. apply NoDup_app. split_and!; [done| |apply NoDup_singleton].
  intros x Hx ->%list_elem_of_singleton. done.
Qed.

Lemma literal_object_wf kvs : wf_object (literal_object kvs).
Proof. change (NoDup (keys (literal_object kvs))). rewrite literal_keys. by apply first_occurrences_NoDup_acc, NoDup_nil_2. Qed.

(** ** Properties of object literals *)

(** An object literal evaluates its property definitions in source
    order, stopping at the first error, and otherwise builds the object
    that defines each evaluated key in turn: CreateDataPropertyOrThrow
    never throws while a literal is built, whatever its keys. *)
Theorem eval_object_literal defs :
  eval_expr (EObject defs) = (kvs <- eval_defs defs ;; Ok (VObject (literal_object kvs))).
Proof.
  simpl. rewrite eval_propdefs_define_all by apply literal_shape_create.
  by destruct (eval_defs defs).
Qed.

(** [[Get]] on the object of a literal: a key defined several times
    has the last value given to it, and a key never defined reads the
    member of %Object.prototype% of that name, if any. *)
Theorem literal_object_get kvs k :
  get (literal_object kvs) k =
    match last_value k kvs with
    | Some v => v
    | None => object_prototype_get k ProtoObjectPrototype
    end.
Proof.
  unfold get, literal_object. rewrite define_all_get_own, define_all_proto.
  by destruct (last_value k kvs).
Qed.

(** Object.keys of the object of a literal with no array-index key
    lists each key once, in the order of its first definition. *)
Lemma literal_object_keys kvs :
  Forall (fun k => is_array_index k = false) (map fst kvs) ->
  object_keys (literal_object kvs) = first_occurrences (map fst kvs).
Proof.
  intros Hn. rewrite object_keys_all_enumerable by (apply define_all_enumerable; constructor).
  rewrite own_property_keys_creation_order; [apply literal_keys|]. rewrite literal_keys.
  apply Forall_forall. intros k [Hin|Hin]%first_occurrences_elem; [|set_solver].
  by apply (proj1 (Forall_forall _ _) Hn).
Qed.

(** Object.keys of the object of any literal: first the keys that
    are array indices (the canonical decimal strings of 0 .. 2^32 - 2),
    each once and in strictly ascending numeric order, then the other
    keys in the order of their first definition. *)
Theorem literal_object_key_order kvs :
  exists idx,
    object_keys (literal_object kvs)
      = idx ++ filter (fun k => is_array_index k = false) (first_occurrences (map fst kvs))
    /\ idx ≡ₚ filter (fun k => is_array_index k = true) (first_occurrences (map fst kvs))
    /\ StronglySorted Z.lt (omap array_index_value idx).
Proof.
  rewrite object_keys_all_enumerable by (apply define_all_enumerable; constructor).
  rewrite <- literal_keys. apply own_property_keys_order, literal_object_wf.
Qed.

End Literal.
