(* ===== verification/Heap.v ===== *)
(** * Objects in a heap: the reference semantics of the literal

    ECMA-262 evaluates [{ [label]: { language: ..., code: ... }, ... }]
    by allocating objects: OrdinaryObjectCreate(%Object.prototype%)
    makes the table first (§13.2.5.4), then each PropertyDefinition
    evaluates its name and its value (which allocates the entry object)
    and stores a reference to the value with CreateDataPropertyOrThrow.
    [ObjectLiteral.v] evaluates to values that contain their objects
    ([VObject o]); this file evaluates the same expressions on a heap of
    objects whose properties hold references ([HRef loc]), the way an
    engine does.

    [deref] reads the value a reference designates as a tree, with the
    fuel [length h]: references in a well-formed heap ([wf_heap]) point
    to cells allocated later, so a path through the heap visits each
    cell at most once.  The main theorem, [heval_eval], is that the two
    evaluations agree: same errors, and on success the heap value reads
    as the tree value; [HeapModule.v] builds the module record on it. *)

From Stdlib Require Import ZArith Lia String.
From stdpp Require Import base list decidable sets strings.
From S2P Require Import Prelude Lexical JsObject ObjectLiteral.
Import Lexer JsObject Literal.
Open Scope js_scope.
Open Scope nat_scope.

Module Heap.

(** A value as a program holds it: a primitive, or a reference to an
    object of the heap. *)
Inductive hvalue :=
  | HUndefined
  | HNull
  | HString (s : jsstr)
  | HIntrinsic (i : intrinsic)
  | HRef (loc : nat).

Abbreviation heap := (list (object hvalue)).

(** ToPropertyKey on heap values: the primitives as [to_property_key]. *)
Definition hto_property_key (v : hvalue) : result jsstr :=
  match v with
  | HString s => Ok s
  | HUndefined => Ok (str "undefined")
  | HNull => Ok (str "null")
  | _ => Err (Unsupported "ToPropertyKey of an object"%string)
  end.

(** An abstract operation [f] on the object at [loc], in place. *)
Definition heap_update (h : heap) (loc : nat) (f : object hvalue -> result (object hvalue)) : result heap :=
  match h !! loc with
  | Some o => o' <- f o ;; Ok (<[loc := o']> h)
  | None => Err (Unsupported "dangling reference"%string)
  end.

(** Evaluation with allocation: the object of a literal is allocated
    at the end of the heap before its definitions are evaluated, and
    each definition updates it where it is. *)
Fixpoint heval_expr (h : heap) (e : expr) : result (heap * hvalue) :=
  match e with
  | EString body => s <- string_value body ;; Ok (h, HString s)
  | ETemplate body => s <- template_value body ;; Ok (h, HString s)
  | EObject defs =>
      h' <- heval_propdefs (h ++ [ordinary_object_create ProtoObjectPrototype]) (length h) defs ;;
      Ok (h', HRef (length h))
  end
with heval_propdefs (h : heap) (loc : nat) (defs : propdefs) : result heap :=
  match defs with
  | PDNil => Ok h
  | PDCons n e rest =>
      r1 <- heval_propname h n ;;
      r2 <- heval_expr r1.1 e ;;
      h3 <- heap_update r2.1 loc (fun o => create_data_property_or_throw o r1.2 r2.2) ;;
      heval_propdefs h3 loc rest
  end
with heval_propname (h : heap) (n : propname) : result (heap * jsstr) :=
  match n with
  | PIdent id =>
      if decide (id = str "__proto__") then Err (Unsupported "__proto__ setter"%string)
      else Ok (h, id)
  | PComputed e => r <- heval_expr h e ;; k <- hto_property_key r.2 ;; Ok (r.1, k)
  end.

(** [export const name = e;] on a heap. *)
Definition heval_export_const (h : heap) (name : jsstr) (e : expr) : result (heap * (jsstr * hvalue)) :=
  r <- heval_expr h e ;; Ok (r.1, (name, r.2)).

(** ** Reading a heap value as a tree *)

Section MapObject.
Context {V W : Type} (f : V -> W).

Definition map_prop (p : data_property V) : data_property W :=
  mk_prop (f (pr_value p)) (pr_writable p) (pr_enumerable p) (pr_configurable p).

Definition map_object (o : object V) : object W :=
  mk_object (map (fun kp => (kp.1, map_prop kp.2)) (ob_props o)) (ob_extensible o) (ob_proto o).

End MapObject.

(** The tree a heap value designates, unfolding at most [fuel]
    references on any path. *)
Definition deref_with (r : nat -> value) (v : hvalue) : value :=
  match v with
  | HUndefined => VUndefined
  | HNull => VNull
  | HString s => VString s
  | HIntrinsic i => VIntrinsic i
  | HRef loc => r loc
  end.

Fixpoint deref_ref (fuel : nat) (h : heap) (loc : nat) : value :=
  match fuel with
  | O => VUndefined
  | S f =>
      match h !! loc with
      | Some o => VObject (map_object (deref_with (deref_ref f h)) o)
      | None => VUndefined
      end
  end.

Definition deref (fuel : nat) (h : heap) (v : hvalue) : value := deref_with (deref_ref fuel h) v.
Arguments deref : simpl never.

(** References into [lo .. hi - 1]. *)
Definition refs_in (lo hi : nat) (v : hvalue) : Prop :=
  match v with HRef l => lo <= l < hi | _ => True end.

Definition obj_refs_in (lo hi : nat) (o : object hvalue) : Prop :=
  Forall (fun kp => refs_in lo hi (pr_value kp.2)) (ob_props o).

(** Every reference of the object at [i] designates a cell allocated
    after it: no dangling reference, no cycle. *)
Definition wf_heap (h : heap) : Prop :=
  forall i o, h !! i = Some o -> obj_refs_in (S i) (length h) o.

(** [h'] keeps the cells of [h] and may add new ones. *)
Definition heap_extends (h h' : heap) : Prop :=
  length h <= length h' /\ forall i, i < length h -> h' !! i = h !! i.

(** The cell a heap value designates, if it is a reference. *)
Definition href (v : hvalue) : option nat := match v with HRef l => Some l | _ => None end.

Definition obj_refs (o : object hvalue) : list nat := omap (fun kp => href (pr_value kp.2)) (ob_props o).

(** Every reference stored in a property of a cell of the heap. *)
Fixpoint heap_refs (h : heap) : list nat :=
  match h with
  | [] => []
  | o :: h' => obj_refs o ++ heap_refs h'
  end.

(** No cell is designated by two properties of the heap, and every
    object has one property per key: the objects reachable from a cell
    form a tree. *)
Definition heap_ok (h : heap) : Prop := NoDup (heap_refs h) /\ Forall wf_object h.

(** A primitive as a heap value; [object_prototype_get] never returns an
    object, so the last case is not reached. *)
Definition embed (v : value) : hvalue :=
  match v with
  | VUndefined => HUndefined
  | VNull => HNull
  | VString s => HString s
  | VIntrinsic i => HIntrinsic i
  | VObject _ => HUndefined
  end.

(** OrdinaryGet(O, P, O) on a heap object: as [get]. *)
Definition hget (o : object hvalue) (k : jsstr) : hvalue :=
  match get_own_property o k with
  | Some p => pr_value p
  | None =>
      match ob_proto o with
      | ProtoNull => HUndefined
      | ProtoObjectPrototype => embed (object_prototype_get k (ob_proto o))
      end
  end.

(** [[Set]] on the object at [loc], in place; [[Set]] returning false
    is a TypeError in strict code. *)
Definition heap_set (h : heap) (loc : nat) (k : jsstr) (v : hvalue) : result heap :=
  match h !! loc with
  | Some o =>
      r <- ordinary_set o k v ;;
      match r with
      | Some o' => Ok (<[loc := o']> h)
      | None => Err TypeError
      end
  | None => Err (Unsupported "dangling reference"%string)
  end.

(** Updates of the properties with one key, as [replace_prop] and
    [set_value] do. *)
Definition upd_key (k : jsstr) (q : data_property hvalue -> data_property hvalue)
    (kp : jsstr * data_property hvalue) : jsstr * data_property hvalue :=
  if decide (kp.1 = k) then (k, q kp.2) else kp.

(** [j] is reachable from the cell [l] in at most [fuel] steps. *)
Fixpoint reaches (fuel : nat) (h : heap) (l j : nat) : Prop :=
  match fuel with
  | O => False
  | S f =>
      l = j \/
      match h !! l with
      | Some o => Exists (fun kp => match pr_value kp.2 with HRef l' => reaches f h l' j | _ => False end)
                         (ob_props o)
      | None => False
      end
  end.

(** ** Lemmas on objects *)

Section MapObjectLemmas.
Context {V W : Type} (f : V -> W).

Lemma get_own_property_map o k :
  get_own_property (map_object f o) k = map_prop f <$> get_own_property o k.
Proof. apply assoc_fmap_snd. Qed.

Lemma create_data_property_map o k v :
  create_data_property (map_object f o) k (f v) = map_object f <$> create_data_property o k v.
Proof.
  unfold create_data_property. rewrite get_own_property_map.
  destruct (get_own_property o k) as [p|]; simpl.
  - destruct (pr_configurable p); [|done]. simpl. unfold map_object, replace_prop. simpl.
    f_equal. f_equal. rewrite !map_map. apply map_ext. intros [k' p']. simpl. by case_decide.
  - destruct (ob_extensible o); [|done]. simpl. unfold map_object. simpl. by rewrite map_app.
Qed.

Lemma map_object_ext (g : V -> W) o :
  Forall (fun kp => f (pr_value kp.2) = g (pr_value kp.2)) (ob_props o) ->
  map_object f o = map_object g o.
Proof.
  intros Hfg. unfold map_object, map_prop. f_equal. apply map_ext_Forall.
  eapply Forall_impl; [exact Hfg|]. intros [k p] E. simpl in *. by rewrite E.
Qed.

Lemma set_value_map o k v : set_value (map_object f o) k (f v) = map_object f (set_value o k v).
Proof.
  unfold set_value, map_object, map_prop. simpl. f_equal. rewrite !map_map. apply map_ext.
  intros [k' p']. simpl. by case_decide.
Qed.

Lemma ordinary_set_map o k v :
  ordinary_set (map_object f o) k (f v) =
    match ordinary_set o k v with Ok r => Ok (map_object f <$> r) | Err e => Err e end.
Proof.
  unfold ordinary_set. rewrite get_own_property_map. destruct (get_own_property o k) as [p|]; simpl.
  - by destruct (pr_writable p); rewrite ?set_value_map.
  - destruct (ob_proto o); [|case_decide]; by rewrite ?create_data_property_map.
Qed.

End MapObjectLemmas.

Lemma refs_in_weaken lo hi lo' hi' v :
  lo' <= lo -> hi <= hi' -> refs_in lo hi v -> refs_in lo' hi' v.
Proof. destruct v; simpl; lia. Qed.

Lemma obj_refs_in_weaken lo hi lo' hi' o :
  lo' <= lo -> hi <= hi' -> obj_refs_in lo hi o -> obj_refs_in lo' hi' o.
Proof. intros ?? Ho. eapply Forall_impl; [exact Ho|]. intros ?. by apply refs_in_weaken. Qed.

Lemma create_data_property_refs lo hi o k v o' :
  obj_refs_in lo hi o -> refs_in lo hi v -> create_data_property o k v = Some o' -> obj_refs_in lo hi o'.
Proof.
  intros Ho Hv. unfold create_data_property, obj_refs_in in *.
  destruct (get_own_property o k) as [p|]; [destruct (pr_configurable p)|destruct (ob_extensible o)];
    intros; simplify_eq/=; [|by apply Forall_app; split; [|constructor]].
  unfold replace_prop. apply Forall_fmap. eapply Forall_impl; [exact Ho|].
  intros [k' p'] Hp. simpl. by case_decide.
Qed.

(** ** Lemmas on [deref] *)

(** A heap that agrees with [h] on the cells [lo ..] reads the same
    trees through references into them. *)
Lemma deref_frame f h h' lo v :
  wf_heap h -> (forall i, lo <= i < length h -> h' !! i = h !! i) ->
  refs_in lo (length h) v -> deref f h' v = deref f h v.
Proof.
  intros Hwf Hagree. revert v lo Hagree. induction f as [|f IH]; intros v lo Hagree Hv;
    destruct v as [| | | |l]; try done; unfold deref; simpl.
  simpl in Hv. rewrite Hagree by lia.
  destruct (h !! l) as [o|] eqn:Hl; [|done]. f_equal. apply map_object_ext.
  eapply Forall_impl; [exact (Hwf _ _ Hl)|]. intros kp Hkp.
  apply (IH _ (S l)); [intros; apply Hagree; lia|done].
Qed.

(** Any fuel above the depth of the heap below [lo] gives the same tree. *)
Lemma deref_fuel f1 f2 h lo v :
  wf_heap h -> refs_in lo (length h) v ->
  length h - lo <= f1 -> length h - lo <= f2 -> deref f1 h v = deref f2 h v.
Proof.
  intros Hwf. revert f2 v lo. induction f1 as [|f1 IH]; intros f2 v lo Hv H1 H2;
    destruct v as [| | | |l]; try done; simpl in Hv; [lia|].
  destruct f2 as [|f2]; [lia|]. unfold deref; simpl.
  destruct (h !! l) as [o|] eqn:Hl; [|done]. f_equal. apply map_object_ext.
  eapply Forall_impl; [exact (Hwf _ _ Hl)|]. intros kp Hkp. apply (IH _ _ (S l)); [done|lia|lia].
Qed.

(** The two together: the tree through a reference into [lo .. length h - 1]
    is the same in any heap that agrees with [h] there, at any fuel
    above the depth. *)
Lemma deref_stable F F' h h' lo v :
  wf_heap h -> (forall i, lo <= i < length h -> h' !! i = h !! i) ->
  refs_in lo (length h) v -> length h - lo <= F -> length h - lo <= F' ->
  deref F' h' v = deref F h v.
Proof.
  intros Hwf Hag Hv ??. rewrite (deref_frame _ _ _ lo) by done. by apply (deref_fuel _ _ _ lo).
Qed.

Lemma deref_cell h loc o :
  h !! loc = Some o -> deref (length h) h (HRef loc) = VObject (map_object (deref (pred (length h)) h) o).
Proof.
  intros Hl. destruct (length h) eqn:E; [apply lookup_lt_Some in Hl; lia|]. unfold deref; simpl. by rewrite Hl.
Qed.

Lemma hto_property_key_deref h lo v :
  refs_in lo (length h) v -> hto_property_key v = to_property_key (deref (length h) h v).
Proof.
  destruct v as [| | | |l]; try done. intros Hl.
  destruct (lookup_lt_is_Some_2 h l) as [o Ho]; [simpl in Hl; lia|].
  rewrite (deref_cell _ _ _ Ho). done.
Qed.

(** ** Well-formed heaps *)

Lemma wf_heap_nil : wf_heap [].
Proof. by intros ??. Qed.

Lemma wf_heap_alloc h p :
  wf_heap h -> wf_heap (h ++ [ordinary_object_create p]).
Proof.
  intros Hwf i o Hi. rewrite length_app. simpl.
  destruct (decide (i < length h)) as [Hlt|Hge].
  - rewrite lookup_app_l in Hi by done. eapply obj_refs_in_weaken; [| |exact (Hwf _ _ Hi)]; lia.
  - rewrite lookup_app_r in Hi by lia. destruct (i - length h); simplify_eq/=; by try apply Forall_nil.
Qed.

Lemma wf_heap_insert h loc o :
  wf_heap h -> obj_refs_in (S loc) (length h) o -> wf_heap (<[loc := o]> h).
Proof.
  intros Hwf Ho i o' Hi. rewrite length_insert.
  destruct (decide (i = loc)) as [->|Hne].
  - apply list_lookup_insert_Some in Hi as [(_ & <- & _)|(? & _)]; [done|congruence].
  - rewrite list_lookup_insert_ne in Hi by congruence. by apply Hwf.
Qed.

Lemma wf_heap_prop h i o kp :
  wf_heap h -> h !! i = Some o -> kp ∈ ob_props o -> refs_in (S i) (length h) (pr_value kp.2).
Proof. intros Hwf Hi Hkp. exact (proj1 (Forall_forall _ _) (Hwf _ _ Hi) _ Hkp). Qed.

Lemma heap_extends_refl h : heap_extends h h.
Proof. by split. Qed.

Lemma heap_extends_trans h1 h2 h3 : heap_extends h1 h2 -> heap_extends h2 h3 -> heap_extends h1 h3.
Proof. intros [? H12] [? H23]. split; [lia|]. intros i ?. rewrite H23 by lia. by apply H12. Qed.

Lemma deref_alloc_cell h p :
  deref (length (h ++ [ordinary_object_create p])) (h ++ [ordinary_object_create p]) (HRef (length h))
  = VObject (ordinary_object_create p).
Proof. rewrite (deref_cell _ _ (ordinary_object_create p)); [done|]. by rewrite list_lookup_middle. Qed.

(** One CreateDataPropertyOrThrow on the object under construction at
    [loc], with a value [hv] evaluated into [h2] after the object's cell
    was read as [o] in [h]: the heap update and the tree operation agree. *)
Lemma heap_define_step h h2 loc o k hv v :
  wf_heap h -> wf_heap h2 -> loc < length h -> deref (length h) h (HRef loc) = VObject o ->
  heap_extends h h2 -> refs_in (length h) (length h2) hv -> deref (length h2) h2 hv = v ->
  match create_data_property_or_throw o k v with
  | Ok o' => exists h3,
      heap_update h2 loc (fun c => create_data_property_or_throw c k hv) = Ok h3 /\
      wf_heap h3 /\ length h3 = length h2 /\ (forall i, i <> loc -> h3 !! i = h2 !! i) /\
      deref (length h3) h3 (HRef loc) = VObject o'
  | Err e => heap_update h2 loc (fun c => create_data_property_or_throw c k hv) = Err e
  end.
Proof.
  intros Hwf Hwf2 Hloc Ho [Hlen Hag] Hhv Hv.
  destruct (lookup_lt_is_Some_2 h loc Hloc) as [c Hc].
  rewrite (deref_cell _ _ _ Hc) in Ho. injection Ho as <-.
  set (G := deref (pred (length h2)) h2).
  assert (Hag' : forall i, S loc <= i < length h -> h2 !! i = h !! i) by (intros; apply Hag; lia).
  assert (HcG : map_object (deref (pred (length h)) h) c = map_object G c).
  { apply map_object_ext. eapply Forall_impl; [exact (Hwf _ _ Hc)|]. intros kp Hkp.
    symmetry. apply (deref_stable _ _ _ _ (S loc)); try done; lia. }
  assert (HvG : v = G hv).
  { subst v G. apply (deref_stable _ _ _ _ (S loc)); [done|done| |lia|lia].
    eapply refs_in_weaken; [| |exact Hhv]; lia. }
  rewrite HcG, HvG. unfold heap_update, create_data_property_or_throw.
  rewrite Hag, Hc by done. rewrite create_data_property_map.
  destruct (create_data_property c k hv) as [c'|] eqn:Ec; [|done]. simpl.
  assert (Hc' : obj_refs_in (S loc) (length h2) c').
  { eapply create_data_property_refs; [| |exact Ec].
    - eapply obj_refs_in_weaken; [| |exact (Hwf _ _ Hc)]; lia.
    - eapply refs_in_weaken; [| |exact Hhv]; lia. }
  exists (<[loc := c']> h2). split_and!; [done|by apply wf_heap_insert|apply length_insert| |].
  - intros i Hi. by rewrite list_lookup_insert_ne by congruence.
  - rewrite (deref_cell _ _ c') by (apply list_lookup_insert_eq; lia). rewrite length_insert. f_equal.
    apply map_object_ext. eapply Forall_impl; [exact Hc'|]. intros kp Hkp.
    apply (deref_frame _ _ _ (S loc)); [done| |done].
    intros i Hi. rewrite list_lookup_insert_ne by lia. done.
Qed.

(** ** Evaluation with a heap is evaluation to trees

    By mutual induction over expressions, definition lists and names:
    the heap evaluation fails exactly when the tree evaluation fails,
    with the same error; otherwise it extends the heap, keeps it
    well-formed, and its value reads as the tree value.  A definition
    list works on the object under construction at [loc] and may change
    that cell only. *)
Lemma heval_eval_mut :
  (forall e h, wf_heap h ->
     match eval_expr e with
     | Ok v => exists h' hv, heval_expr h e = Ok (h', hv) /\ wf_heap h' /\ heap_extends h h' /\
                             refs_in (length h) (length h') hv /\ deref (length h') h' hv = v
     | Err err => heval_expr h e = Err err
     end) /\
  (forall defs h loc o, wf_heap h -> loc < length h -> deref (length h) h (HRef loc) = VObject o ->
     match eval_propdefs defs o with
     | Ok o' => exists h', heval_propdefs h loc defs = Ok h' /\ wf_heap h' /\ length h <= length h' /\
                           (forall i, i < length h -> i <> loc -> h' !! i = h !! i) /\
                           deref (length h') h' (HRef loc) = VObject o'
     | Err err => heval_propdefs h loc defs = Err err
     end) /\
  (forall n h, wf_heap h ->
     match eval_propname n with
     | Ok k => exists h', heval_propname h n = Ok (h', k) /\ wf_heap h' /\ heap_extends h h'
     | Err err => heval_propname h n = Err err
     end).
Proof.
  apply expr_mutind.
  - intros body h Hwf. simpl. destruct (string_value body); simpl; [|done].
    eexists _, _. split_and!; [done|done|apply heap_extends_refl|done|done].
  - intros body h Hwf. simpl. destruct (template_value body); simpl; [|done].
    eexists _, _. split_and!; [done|done|apply heap_extends_refl|done|done].
  - intros defs IH h Hwf. simpl.
    specialize (IH (h ++ [ordinary_object_create ProtoObjectPrototype]) (length h) _
                   (wf_heap_alloc _ _ Hwf) ltac:(rewrite length_app; simpl; lia) (deref_alloc_cell _ _)).
    destruct (eval_propdefs defs _) as [o'|err]; simpl; [|by rewrite IH].
    destruct IH as (h' & E & Hwf' & Hlen & Hag & Hd). rewrite length_app in Hlen, Hag. simpl in Hlen, Hag.
    rewrite E. simpl. eexists _, _. split_and!; [done|done| | |done].
    + split; [lia|]. intros i Hi. rewrite Hag by lia. by rewrite lookup_app_l.
    + simpl. lia.
  - intros h loc o Hwf Hloc Ho. simpl. exists h. split_and!; done.
  - intros n IHn e IHe rest IHr h loc o Hwf Hloc Ho. simpl.
    specialize (IHn h Hwf). destruct (eval_propname n) as [k|err]; simpl; [|by rewrite IHn].
    destruct IHn as (h1 & E1 & Hwf1 & Hext1). rewrite E1. simpl.
    specialize (IHe h1 Hwf1). destruct (eval_expr e) as [v|err]; simpl; [|by rewrite IHe].
    destruct IHe as (h2 & hv & E2 & Hwf2 & Hext2 & Hr & Hd). rewrite E2. simpl.
    pose proof (heap_extends_trans _ _ _ Hext1 Hext2) as Hext.
    assert (Hr' : refs_in (length h) (length h2) hv)
      by (eapply refs_in_weaken; [| |exact Hr]; [apply Hext1|done]).
    pose proof (heap_define_step h h2 loc o k hv v Hwf Hwf2 Hloc Ho Hext Hr' Hd) as Hstep.
    destruct (create_data_property_or_throw o k v) as [o'|err]; simpl; [|by rewrite Hstep].
    destruct Hstep as (h3 & E3 & Hwf3 & Hlen3 & Hag3 & Hd3). rewrite E3. simpl.
    destruct Hext as [Hlen Hag].
    specialize (IHr h3 loc o' Hwf3 ltac:(lia) Hd3). destruct (eval_propdefs rest o') as [o''|err]; [|done].
    destruct IHr as (h' & E' & Hwf' & Hlen' & Hag' & Hd'). exists h'. split_and!; try done; [lia|].
    intros i Hi Hne. rewrite Hag', Hag3, Hag by lia. done.
  - intros id h Hwf. simpl. case_decide; [done|]. exists h. split_and!; [done|done|apply heap_extends_refl].
  - intros e IHe h Hwf. simpl.
    specialize (IHe h Hwf). destruct (eval_expr e) as [v|err]; simpl; [|by rewrite IHe].
    destruct IHe as (h' & hv & E & Hwf' & Hext & Hr & Hd). rewrite E. simpl.
    rewrite (hto_property_key_deref h' (length h)), Hd
      by (eapply refs_in_weaken; [| |exact Hr]; lia).
    destruct (to_property_key v); simpl; [|done]. by exists h'.
Qed.

(** ** Facts of the heap evaluation, read off [heval_eval_mut] *)

Lemma heval_expr_facts e h h' hv :
  wf_heap h -> heval_expr h e = Ok (h', hv) ->
  wf_heap h' /\ heap_extends h h' /\ refs_in (length h) (length h') hv.
Proof.
  intros Hwf E. pose proof (proj1 heval_eval_mut e h Hwf) as H.
  destruct (eval_expr e); [|congruence].
  destruct H as (h2 & hv2 & E2 & ? & ? & ? & _). rewrite E2 in E. by simplify_eq.
Qed.

Lemma heval_propdefs_facts defs h loc h' :
  wf_heap h -> loc < length h -> heval_propdefs h loc defs = Ok h' ->
  wf_heap h' /\ length h <= length h' /\ (forall i, i < length h -> i <> loc -> h' !! i = h !! i).
Proof.
  intros Hwf Hloc E. destruct (lookup_lt_is_Some_2 h loc Hloc) as [c Hc].
  pose proof (proj1 (proj2 heval_eval_mut) defs h loc _ Hwf Hloc (deref_cell _ _ _ Hc)) as H.
  destruct (eval_propdefs defs _); [|congruence].
  destruct H as (h2 & E2 & ? & ? & ? & _). rewrite E2 in E. by simplify_eq.
Qed.

Lemma heval_propname_facts n h h' k :
  wf_heap h -> heval_propname h n = Ok (h', k) -> wf_heap h' /\ heap_extends h h'.
Proof.
  intros Hwf E. pose proof (proj2 (proj2 heval_eval_mut) n h Hwf) as H.
  destruct (eval_propname n); [|congruence].
  destruct H as (h2 & E2 & ? & ?). rewrite E2 in E. by simplify_eq.
Qed.

(** ** References *)

Lemma elem_of_obj_refs x o :
  x ∈ obj_refs o <-> exists kp, kp ∈ ob_props o /\ pr_value kp.2 = HRef x.
Proof.
  unfold obj_refs. rewrite list_elem_of_omap. split; intros (kp & Hin & Hx); exists kp; split; try done.
  - destruct (pr_value kp.2); by simplify_eq/=.
  - by rewrite Hx.
Qed.

Lemma elem_of_heap_refs x h :
  x ∈ heap_refs h <-> exists i o, h !! i = Some o /\ x ∈ obj_refs o.
Proof.
  induction h as [|o h IH]; simpl.
  - split; [set_solver|]. by intros (i & o & Hi & _).
  - rewrite elem_of_app, IH. split.
    + intros [Hx|(i & o' & Hi & Hx)]; [by exists 0, o|by exists (S i), o'].
    + intros ([|i] & o' & Hi & Hx); simplify_eq/=; [by left|right; eauto].
Qed.

(** In a heap whose references are distinct, two cells referring to the
    same cell are the same cell. *)
Lemma heap_refs_unique h i1 i2 o1 o2 x :
  NoDup (heap_refs h) -> h !! i1 = Some o1 -> h !! i2 = Some o2 ->
  x ∈ obj_refs o1 -> x ∈ obj_refs o2 -> i1 = i2.
Proof.
  revert i1 i2. induction h as [|o h IH]; intros i1 i2 Hnd H1 H2 Hx1 Hx2; [done|].
  simpl in Hnd. apply NoDup_app in Hnd as (_ & Hdis & Hnd).
  destruct i1 as [|i1], i2 as [|i2]; simplify_eq/=; [done| | |f_equal; eauto].
  - exfalso. apply (Hdis x Hx1). apply elem_of_heap_refs. eauto.
  - exfalso. apply (Hdis x Hx2). apply elem_of_heap_refs. eauto.
Qed.

Lemma heap_refs_obj_NoDup h i o : NoDup (heap_refs h) -> h !! i = Some o -> NoDup (obj_refs o).
Proof.
  revert i. induction h as [|o' h IH]; intros [|i] Hnd Hi; simplify_eq/=;
    apply NoDup_app in Hnd as (? & _ & ?); eauto.
Qed.

Lemma heap_refs_snoc_empty h p : heap_refs (h ++ [ordinary_object_create p]) = heap_refs h.
Proof. induction h as [|o h IH]; simpl; [done|by rewrite IH]. Qed.

Lemma heap_refs_insert h j c c' extra :
  h !! j = Some c -> obj_refs c' ⊆+ obj_refs c ++ extra ->
  heap_refs (<[j := c']> h) ⊆+ heap_refs h ++ extra.
Proof.
  revert j. induction h as [|o h IH]; intros [|j] Hj Hc; simplify_eq/=; rewrite <- app_assoc.
  - transitivity ((obj_refs c ++ extra) ++ heap_refs h); [by apply submseteq_skips_r|].
    rewrite <- app_assoc. apply submseteq_skips_l. apply Permutation_submseteq, Permutation_app_comm.
  - apply submseteq_skips_l. by apply IH.
Qed.

(** A cell designated by no other cell can be given one more reference. *)
Lemma heap_refs_insert_NoDup h j c c' hv :
  NoDup (heap_refs h) -> h !! j = Some c ->
  obj_refs c' ⊆+ obj_refs c ++ option_list (href hv) ->
  (forall m, href hv = Some m -> m ∉ heap_refs h) ->
  NoDup (heap_refs (<[j := c']> h)).
Proof.
  intros Hnd Hc Hsub Hfresh. eapply submseteq_NoDup; [by apply (heap_refs_insert _ _ c)|].
  apply NoDup_app. split_and!; [done| |].
  - intros x Hx Hx'. destruct (href hv) eqn:E; simpl in Hx'; [|set_solver]. apply list_elem_of_singleton in Hx'. subst.
    by eapply Hfresh.
  - destruct (href hv); [apply NoDup_singleton|constructor].
Qed.

(** The cell allocated first by an evaluation is designated by no cell. *)
Lemma fresh_unreferenced h h' :
  wf_heap h -> wf_heap h' -> heap_extends h h' -> length h ∉ heap_refs h'.
Proof.
  intros Hwf Hwf' [_ Hag] (i & o & Hi & (kp & Hkp & Hv)%elem_of_obj_refs)%elem_of_heap_refs.
  pose proof (wf_heap_prop _ _ _ _ Hwf' Hi Hkp) as Hr. rewrite Hv in Hr. simpl in Hr.
  assert (Hlt : i < length h) by lia. rewrite Hag in Hi by done.
  pose proof (wf_heap_prop _ _ _ _ Hwf Hi Hkp) as Hr'. rewrite Hv in Hr'. simpl in Hr'. lia.
Qed.

(** ** Updates of the properties with one key *)

Lemma map_upd_key_notin k q ps : k ∉ map fst ps -> map (upd_key k q) ps = ps.
Proof.
  induction ps as [|[k' p'] ps IH]; simpl; [done|]. rewrite not_elem_of_cons. intros [Hne Hn].
  unfold upd_key at 1. simpl. rewrite decide_False by congruence. by rewrite IH.
Qed.

Lemma map_fst_upd_key k q ps : map fst (map (upd_key k q) ps) = map fst ps.
Proof. induction ps as [|[k' p'] ps IH]; simpl; [done|]. unfold upd_key at 1. simpl. case_decide; simpl; congruence. Qed.

(** Replacing the value of the one property with key [k] by [v] adds at
    most the reference [v] holds. *)
Lemma obj_refs_upd_key ps k q v :
  NoDup (map fst ps) -> (forall p, pr_value (q p) = v) ->
  omap (fun kp => href (pr_value kp.2)) (map (upd_key k q) ps)
    ⊆+ omap (fun kp => href (pr_value kp.2)) ps ++ option_list (href v).
Proof.
  intros Hnd Hq. induction ps as [|[k' p'] ps IH]; [apply submseteq_nil_l|].
  simpl in Hnd. apply NoDup_cons in Hnd as [Hn Hnd]. cbn [map].
  rewrite !omap_cons_option. unfold upd_key at 1. simpl. case_decide as Hk.
  - subst k'. rewrite map_upd_key_notin by done. simpl. rewrite Hq.
    transitivity (omap (fun kp => href (pr_value kp.2)) ps ++ option_list (href v));
      [apply Permutation_submseteq, Permutation_app_comm|].
    rewrite <- app_assoc. by apply submseteq_inserts_l.
  - rewrite <- app_assoc. apply submseteq_skips_l. by apply IH.
Qed.

Lemma create_data_property_shape o k v o' :
  wf_object o -> create_data_property o k v = Some o' ->
  wf_object o' /\ obj_refs o' ⊆+ obj_refs o ++ option_list (href v) /\
  forall lo hi, obj_refs_in lo hi o -> refs_in lo hi v -> obj_refs_in lo hi o'.
Proof.
  intros Hwf Hc. split_and!; [| |intros; by eapply create_data_property_refs].
  - unfold wf_object in *.
    destruct (create_data_property_cases _ _ _ _ Hc) as (_ & _ & [[Hn ->]|[_ ->]]);
      [|by rewrite map_fst_replace_prop].
    rewrite map_app. apply NoDup_app. split_and!; [done| |apply NoDup_singleton]. set_solver.
  - unfold obj_refs.
    destruct (create_data_property_cases _ _ _ _ Hc) as (_ & _ & [[Hn ->]|[_ ->]]);
      [rewrite omap_app; simpl; by destruct (href v)|].
    apply (obj_refs_upd_key _ k (fun _ => mk_prop v true true true)); [done|done].
Qed.

Lemma ordinary_set_shape o k v o' :
  wf_object o -> ordinary_set o k v = Ok (Some o') ->
  wf_object o' /\ obj_refs o' ⊆+ obj_refs o ++ option_list (href v) /\
  forall lo hi, obj_refs_in lo hi o -> refs_in lo hi v -> obj_refs_in lo hi o'.
Proof.
  intros Hwf. unfold ordinary_set.
  destruct (get_own_property o k) as [p|].
  - destruct (pr_writable p); intros [= <-]. unfold set_value, obj_refs, wf_object, obj_refs_in. simpl.
    fold (upd_key k (fun p => mk_prop v (pr_writable p) (pr_enumerable p) (pr_configurable p))).
    split_and!; [by rewrite map_fst_upd_key|by apply obj_refs_upd_key|].
    intros lo hi Ho Hv. apply Forall_fmap. eapply Forall_impl; [exact Ho|]. intros kp Hkp.
    unfold compose, upd_key. by case_decide.
  - destruct (ob_proto o); [|case_decide; [done|]]; intros [= Hc]; by apply (create_data_property_shape _ k v).
Qed.

(** ** The heap evaluation keeps references distinct *)

Lemma heap_ok_alloc h p : heap_ok h -> heap_ok (h ++ [ordinary_object_create p]).
Proof.
  intros [Hnd Hf]. split; [by rewrite heap_refs_snoc_empty|].
  apply Forall_app. split; [done|]. repeat constructor.
Qed.

(** CreateDataPropertyOrThrow on the cell [loc] with a value whose cell,
    if any, no property designates. *)
Lemma heap_ok_define h h2 loc c c' k hv :
  wf_heap h -> wf_heap h2 -> heap_ok h2 -> loc < length h -> heap_extends h h2 ->
  h2 !! loc = Some c -> refs_in (length h) (length h2) hv ->
  (forall m, href hv = Some m -> m ∉ heap_refs h2) ->
  create_data_property c k hv = Some c' ->
  wf_heap (<[loc := c']> h2) /\ heap_ok (<[loc := c']> h2).
Proof.
  intros Hwf Hwf2 [Hnd Hf] Hloc [Hlen Hag] Hc Hr Hfresh Ec.
  destruct (create_data_property_shape c k hv c') as (Hwfo & Hsub & Hrefs);
    [exact (Forall_lookup_1 _ _ _ _ Hf Hc)|done|].
  split; [|split; [by eapply heap_refs_insert_NoDup|by apply Forall_insert]].
  apply wf_heap_insert; [done|]. apply Hrefs.
  - rewrite Hag in Hc by done. eapply obj_refs_in_weaken; [| |exact (Hwf _ _ Hc)]; lia.
  - eapply refs_in_weaken; [| |exact Hr]; lia.
Qed.

Lemma heval_ok_mut :
  (forall e h h' hv, wf_heap h -> heap_ok h -> heval_expr h e = Ok (h', hv) ->
     heap_ok h' /\ forall m, href hv = Some m -> m ∉ heap_refs h') /\
  (forall defs h loc h', wf_heap h -> heap_ok h -> loc < length h ->
     heval_propdefs h loc defs = Ok h' -> heap_ok h') /\
  (forall n h h' k, wf_heap h -> heap_ok h -> heval_propname h n = Ok (h', k) -> heap_ok h').
Proof.
  apply expr_mutind.
  - intros body h h' hv _ Hok. simpl. destruct (string_value body); intros [= <- <-]. by split.
  - intros body h h' hv _ Hok. simpl. destruct (template_value body); intros [= <- <-]. by split.
  - intros defs IH h h' hv Hwf Hok. simpl.
    destruct (heval_propdefs _ _ defs) as [h2|] eqn:E; intros [= <- <-].
    pose proof (wf_heap_alloc h ProtoObjectPrototype Hwf) as Hwf0.
    assert (Hlt : length h < length (h ++ [ordinary_object_create ProtoObjectPrototype]))
      by (rewrite length_app; simpl; lia).
    split; [exact (IH _ _ _ Hwf0 (heap_ok_alloc _ _ Hok) Hlt E)|].
    intros m [= <-]. destruct (heval_propdefs_facts _ _ _ _ Hwf0 Hlt E) as (Hwf2 & Hlen & Hag).
    apply fresh_unreferenced; [done|done|]. split; [lia|].
    intros i Hi. rewrite Hag by lia. by apply lookup_app_l.
  - intros h loc h' _ Hok _. simpl. by intros [= <-].
  - intros n IHn e IHe rest IHr h loc h' Hwf Hok Hloc. simpl.
    destruct (heval_propname h n) as [[h1 k]|] eqn:E1; simpl; [|done].
    destruct (heval_expr h1 e) as [[h2 hv]|] eqn:E2; simpl; [|done].
    destruct (heval_propname_facts _ _ _ _ Hwf E1) as [Hwf1 Hext1].
    destruct (heval_expr_facts _ _ _ _ Hwf1 E2) as (Hwf2 & Hext2 & Hr).
    destruct (IHe _ _ _ Hwf1 (IHn _ _ _ Hwf Hok E1) E2) as [Hok2 Hfresh].
    pose proof (heap_extends_trans _ _ _ Hext1 Hext2) as Hext.
    destruct (lookup_lt_is_Some_2 h loc Hloc) as [c Hc].
    assert (Hc2 : h2 !! loc = Some c) by (rewrite (proj2 Hext); done).
    unfold heap_update, create_data_property_or_throw. rewrite Hc2.
    destruct (create_data_property c k hv) as [c'|] eqn:Ec; simpl; [|done].
    assert (Hr' : refs_in (length h) (length h2) hv)
      by (eapply refs_in_weaken; [| |exact Hr]; [apply Hext1|done]).
    destruct (heap_ok_define h h2 loc c c' k hv) as [Hwf3 Hok3]; try done.
    apply (IHr _ _ _ Hwf3 Hok3). rewrite length_insert. pose proof (proj1 Hext). lia.
  - intros id h h' k _ Hok. simpl. case_decide; [done|]. by intros [= <- _].
  - intros e IHe h h' k Hwf Hok. simpl.
    destruct (heval_expr h e) as [[h1 hv]|] eqn:E; simpl; [|done].
    destruct (hto_property_key hv); simpl; [|done]. intros [= <- _]. exact (proj1 (IHe _ _ _ Hwf Hok E)).
Qed.

(** ** Reachability *)

Lemma deref_ref_insert_unreached F h j c l :
  ~ reaches F h l j -> deref_ref F (<[j := c]> h) l = deref_ref F h l.
Proof.
  revert l. induction F as [|F IH]; intros l Hr; [done|]. simpl.
  rewrite list_lookup_insert_ne by (intros ->; apply Hr; by left).
  destruct (h !! l) as [o|] eqn:Hl; [|done]. f_equal. apply map_object_ext. apply Forall_forall.
  intros kp Hkp. destruct (pr_value kp.2) as [| | | |l'] eqn:Hv; try done. simpl. apply IH.
  intros Hr'. apply Hr. right. rewrite Hl. apply Exists_exists. exists kp. by rewrite Hv.
Qed.

(** A cell reachable from [l] is [l] or is designated by a cell at or
    after [l]. *)
Lemma reaches_referenced F h l j :
  wf_heap h -> reaches F h l j ->
  l = j \/ exists p o, l <= p /\ h !! p = Some o /\ j ∈ obj_refs o.
Proof.
  intros Hwf. revert l. induction F as [|F IH]; intros l Hr; [done|]. simpl in Hr.
  destruct Hr as [->|Hr]; [by left|]. right.
  destruct (h !! l) as [o|] eqn:Hl; [|done]. apply Exists_exists in Hr as (kp & Hkp & Hr).
  destruct (pr_value kp.2) as [| | | |l'] eqn:Hv; try done.
  pose proof (wf_heap_prop _ _ _ _ Hwf Hl Hkp) as Hl'. rewrite Hv in Hl'. simpl in Hl'.
  destruct (IH l' Hr) as [->|(p & o' & Hle & Hp & Hj)].
  - exists l, o. split_and!; [lia|done|]. apply elem_of_obj_refs. by exists kp.
  - exists p, o'. split_and!; [lia|done|done].
Qed.

(** In a heap whose references are distinct, the value of one property
    of a cell does not reach the cell another property designates. *)
Lemma sibling_unreached F h r t kp0 kp j l :
  wf_heap h -> heap_ok h -> h !! r = Some t -> kp0 ∈ ob_props t -> pr_value kp0.2 = HRef j ->
  kp ∈ ob_props t -> kp <> kp0 -> pr_value kp.2 = HRef l -> ~ reaches F h l j.
Proof.
  intros Hwf [Hnd _] Ht Hkp0 Hv0 Hkp Hne Hv Hr.
  assert (Hj : j ∈ obj_refs t) by (apply elem_of_obj_refs; eauto).
  destruct (reaches_referenced _ _ _ _ Hwf Hr) as [->|(p & o & Hle & Hp & Hjp)].
  - apply Hne. apply (NoDup_omap_same (fun kp => href (pr_value kp.2)) (ob_props t) _ _ j);
      [exact (heap_refs_obj_NoDup _ _ _ Hnd Ht)|done|done|by rewrite Hv|by rewrite Hv0].
  - assert (r = p) by exact (heap_refs_unique _ _ _ _ _ _ Hnd Ht Hp Hj Hjp). subst p.
    pose proof (wf_heap_prop _ _ _ _ Hwf Ht Hkp) as Hl. rewrite Hv in Hl. simpl in Hl. lia.
Qed.

(** Updating the cell [j] that the property [l] of the cell [r]
    designates changes the tree read from [r] at [l] only. *)
Lemma deref_field_write F h r t l p j c' :
  wf_heap h -> heap_ok h -> h !! r = Some t -> get_own_property t l = Some p -> pr_value p = HRef j ->
  map_object (deref F (<[j := c']> h)) t
  = set_value (map_object (deref F h) t) l (deref F (<[j := c']> h) (HRef j)).
Proof.
  intros Hwf Hok Ht Hp Hv.
  assert (Hwft : wf_object t) by exact (Forall_lookup_1 _ _ _ _ (proj2 Hok) Ht).
  assert (Hin : (l, p) ∈ ob_props t) by (by apply assoc_elem).
  unfold map_object, set_value, map_prop. simpl. f_equal. rewrite map_map. apply map_ext_Forall.
  apply Forall_forall. intros [k q] Hkq. simpl. case_decide as Hk.
  - subst k. assert (q = p) as ->.
    { apply (assoc_Some l q (ob_props t)) in Hkq; [unfold get_own_property in Hp; congruence|exact Hwft]. }
    by rewrite Hv.
  - destruct (pr_value q) as [| | | |l'] eqn:Hq; try done.
    unfold deref. simpl. rewrite deref_ref_insert_unreached; [done|].
    apply (sibling_unreached F h r t (l, p) (k, q) j l'); try done. congruence.
Qed.

Lemma deref_hget F h o k : deref F h (hget o k) = get (map_object (deref F h) o) k.
Proof.
  unfold hget, get. rewrite get_own_property_map. destruct (get_own_property o k) as [p|]; [done|].
  simpl. destruct (ob_proto o); [done|]. unfold object_prototype_get. by repeat case_decide.
Qed.

Lemma heap_ok_nil : heap_ok [].
Proof. split; constructor. Qed.

(** ** Heap values read as trees *)

Lemma deref_string F h hv s : deref F h hv = VString s -> hv = HString s.
Proof.
  destruct hv as [| | | |l]; unfold deref; simpl; try congruence.
  destruct F; simpl; [done|]. by destruct (h !! l).
Qed.

Lemma deref_object F h hv o : deref F h hv = VObject o -> exists r, hv = HRef r.
Proof. destruct hv; unfold deref; simpl; try done. eauto. Qed.

Lemma eval_expr_shape e v : eval_expr e = Ok v -> (exists s, v = VString s) \/ (exists o, v = VObject o).
Proof.
  destruct e as [body|body|defs]; simpl.
  - destruct (string_value body); intros [= <-]; eauto.
  - destruct (template_value body); intros [= <-]; eauto.
  - destruct (eval_propdefs defs _); intros [= <-]; eauto.
Qed.

(** The tree of a cell, at the fuel [length h]. *)
Lemma deref_cell_obs h r t :
  wf_heap h -> h !! r = Some t -> deref (length h) h (HRef r) = VObject (map_object (deref (length h) h) t).
Proof.
  intros Hwf Ht. pose proof (lookup_lt_Some _ _ _ Ht). rewrite (deref_cell _ _ _ Ht). f_equal.
  apply map_object_ext. eapply Forall_impl; [exact (Hwf _ _ Ht)|]. intros kp Hkp.
  apply (deref_fuel _ _ _ (S r)); [done|done|lia|lia].
Qed.

Lemma obs_cell h r o :
  wf_heap h -> deref (length h) h (HRef r) = VObject o ->
  exists t, h !! r = Some t /\ o = map_object (deref (length h) h) t.
Proof.
  intros Hwf Hd. destruct (h !! r) as [t|] eqn:Ht.
  - exists t. split; [done|]. rewrite (deref_cell_obs _ _ _ Hwf Ht) in Hd. by injection Hd.
  - exfalso. unfold deref in Hd. simpl in Hd. destruct (length h); simpl in Hd; [done|]. by rewrite Ht in Hd.
Qed.

(** A successful tree evaluation is a successful heap evaluation. *)
Lemma heval_of_eval e h v :
  wf_heap h -> heap_ok h -> eval_expr e = Ok v ->
  exists h' hv, heval_expr h e = Ok (h', hv) /\ wf_heap h' /\ heap_ok h' /\ heap_extends h h' /\
    refs_in (length h) (length h') hv /\ (forall m, href hv = Some m -> m ∉ heap_refs h') /\
    deref (length h') h' hv = v.
Proof.
  intros Hwf Hok Ev. pose proof (proj1 heval_eval_mut e h Hwf) as H. rewrite Ev in H.
  destruct H as (h' & hv & E & Hwf' & Hext & Hr & Hd).
  destruct (proj1 heval_ok_mut e h h' hv Hwf Hok E) as [Hok' Hfresh].
  exists h', hv. by split_and!.
Qed.

Lemma heval_of_eval_err e h err :
  wf_heap h -> eval_expr e = Err err -> heval_expr h e = Err err.
Proof. intros Hwf Ev. pose proof (proj1 heval_eval_mut e h Hwf) as H. by rewrite Ev in H. Qed.

(** [[Set]] on a cell that reads as [o], with a value [hv] that reads as
    [v] and whose cell no property designates, is [[Set]] on [o]. *)
Lemma heap_set_sim h r t k hv :
  wf_heap h -> heap_ok h -> h !! r = Some t -> refs_in (S r) (length h) hv ->
  (forall m, href hv = Some m -> m ∉ heap_refs h) ->
  match ordinary_set (map_object (deref (length h) h) t) k (deref (length h) h hv) with
  | Ok (Some o') => exists t', heap_set h r k hv = Ok (<[r := t']> h) /\
      wf_heap (<[r := t']> h) /\ heap_ok (<[r := t']> h) /\
      deref (length h) (<[r := t']> h) (HRef r) = VObject o'
  | Ok None => heap_set h r k hv = Err TypeError
  | Err e => heap_set h r k hv = Err e
  end.
Proof.
  intros Hwf [Hnd Hf] Ht Hhv Hfresh. pose proof (lookup_lt_Some _ _ _ Ht) as Hr.
  unfold heap_set. rewrite Ht, ordinary_set_map.
  destruct (ordinary_set t k hv) as [[t'|]|err] eqn:Es; simpl; try done.
  destruct (ordinary_set_shape t k hv t') as (Hwfo & Hsub & Hrefs); [exact (Forall_lookup_1 _ _ _ _ Hf Ht)|done|].
  exists t'. split_and!; [done| | |].
  - apply wf_heap_insert; [done|]. by apply Hrefs; [exact (Hwf _ _ Ht)|].
  - split; [by eapply heap_refs_insert_NoDup|by apply Forall_insert].
  - rewrite <- (length_insert h r t'). rewrite (deref_cell _ _ t') by (by apply list_lookup_insert_eq).
    rewrite length_insert. f_equal.
    apply map_object_ext. eapply Forall_impl; [exact (Hrefs _ _ (Hwf _ _ Ht) Hhv)|]. intros kp Hkp.
    apply (deref_stable _ _ _ _ (S r)); [done| |done|lia|lia].
    intros i Hi. by rewrite list_lookup_insert_ne by lia.
Qed.

(** The tree of a cell is the same in a heap that extends [h]. *)
Lemma map_object_extends h h2 r t :
  wf_heap h -> heap_extends h h2 -> h !! r = Some t ->
  map_object (deref (length h) h) t = map_object (deref (length h2) h2) t.
Proof.
  intros Hwf [Hlen Hag] Ht. pose proof (lookup_lt_Some _ _ _ Ht). apply map_object_ext.
  eapply Forall_impl; [exact (Hwf _ _ Ht)|]. intros kp Hkp. symmetry.
  apply (deref_stable _ _ _ _ (S r)); [done|intros; apply Hag; lia|done|lia|lia].
Qed.

(** [[Set]] on the cell [c] that the property [l] of the cell [r]
    designates: the tree of [r] changes at [l] only, to the new tree of
    [c]. *)
Lemma heap_field_write h r t l p c f hv :
  wf_heap h -> heap_ok h -> h !! r = Some t -> get_own_property t l = Some p -> pr_value p = HRef c ->
  refs_in (S c) (length h) hv -> (forall m, href hv = Some m -> m ∉ heap_refs h) ->
  match deref (length h) h (HRef c) with
  | VObject e =>
      match ordinary_set e f (deref (length h) h hv) with
      | Ok (Some e') => exists h', heap_set h c f hv = Ok h' /\ wf_heap h' /\ heap_ok h' /\
          deref (length h') h' (HRef r) = VObject (set_value (map_object (deref (length h) h) t) l (VObject e'))
      | Ok None => heap_set h c f hv = Err TypeError
      | Err err => heap_set h c f hv = Err err
      end
  | _ => False
  end.
Proof.
  intros Hwf Hok Ht Hp Hv Hhv Hfresh.
  pose proof (wf_heap_prop _ _ _ _ Hwf Ht (assoc_elem _ _ _ Hp)) as Hc. simpl in Hc. rewrite Hv in Hc. simpl in Hc.
  destruct (lookup_lt_is_Some_2 h c ltac:(lia)) as [cc Hcc].
  rewrite (deref_cell_obs _ _ _ Hwf Hcc).
  pose proof (heap_set_sim h c cc f hv Hwf Hok Hcc Hhv Hfresh) as Hset.
  destruct (ordinary_set _ f _) as [[e'|]|err]; [|done|done].
  destruct Hset as (cc' & E & Hwf' & Hok' & Hd'). exists (<[c := cc']> h). split_and!; [done|done|done|].
  rewrite (deref_cell_obs _ r t); [|done|by rewrite list_lookup_insert_ne by lia].
  rewrite length_insert. f_equal. rewrite (deref_field_write _ h r t l p c cc') by done. by rewrite Hd'.
Qed.

(** The value at a key with no own property is not a reference. *)
Lemma hget_inherited t l : get_own_property t l = None -> href (hget t l) = None.
Proof.
  unfold hget. intros ->. destruct (ob_proto t); [done|]. unfold object_prototype_get. by repeat case_decide.
Qed.

(** ** The equivalence *)

(** Evaluating an expression of the file on a heap of
    objects that hold references, allocating each object when its
    literal starts, is equivalent to the tree evaluation of
    [ObjectLiteral.v]: from any well-formed heap whose references are
    distinct, it fails exactly when [eval_expr] fails, with the same
    error, and otherwise it only adds cells, keeps the heap well-formed
    with distinct references, and its value reads as the tree value. *)
Theorem heval_eval e h :
  wf_heap h -> heap_ok h ->
  match eval_expr e with
  | Ok v => exists h' hv, heval_expr h e = Ok (h', hv) /\ wf_heap h' /\ heap_ok h' /\
                          heap_extends h h' /\ deref (length h') h' hv = v
  | Err err => heval_expr h e = Err err
  end.
Proof.
  intros Hwf Hok. pose proof (proj1 heval_eval_mut e h Hwf) as H.
  destruct (eval_expr e) as [v|err]; [|exact H].
  destruct H as (h' & hv & E & Hwf' & Hext & _ & Hd). exists h', hv. split_and!; try done.
  exact (proj1 (proj1 heval_ok_mut e h h' hv Hwf Hok E)).
Qed.

End Heap.
