(* ===== verification/TsTypes.v ===== *)
(** * The TypeScript type of the literal, and its soundness

    [sample-code.ts] is TypeScript: [tsc] gives the initializer of
    [export const sampleCode = {...}] a static type and rejects some
    literals the JavaScript runtime accepts.  This file models that
    static semantics for the expression forms of the source (TypeScript
    checker, checkExpression / checkObjectLiteral):
    - a string literal or a no-substitution template has the string
      literal type of its value ("tsx"); the scanner's early errors are
      compile errors;
    - a property of an object literal is widened (a literal type becomes
      [string]), and so is every field of the object type a [const]
      declaration gets from an object initializer, while a [const] with
      a literal initializer keeps its literal type;
    - a computed property name must have a literal type, which names the
      property (otherwise TS2464);
    - a name defined twice in one literal is error TS1117 ("An object
      literal cannot have multiple properties with the same name").
    [has_type] says what a type promises of a run-time value: a string,
    that string, or an object whose [[Get]] of each listed property
    yields a value of the listed type.  The main theorem is type
    safety: a literal [tsc] accepts evaluates without error, to a value
    of its type.  A [__proto__: v] definition, which the evaluator does
    not model, is excluded by [proto_free]. *)

From Stdlib Require Import ZArith Lia String.
From stdpp Require Import base list decidable sets strings.
From S2P Require Import Prelude Unicode Lexical JsObject ObjectLiteral.
Import Lexer JsObject Literal.
Open Scope Z_scope.
Open Scope js_scope.

Module TsType.

#[local] Set Warnings "-register-all".
Inductive ty :=
  | TString                                  (* string *)
  | TStringLit (s : jsstr)                   (* a string literal type, "rust" *)
  | TObject (fields : list (jsstr * ty)).    (* an object type { k: T; ... } *)

Inductive ts_error :=
  | LiteralError (e : js_error)         (* the scanner's diagnostics (TS1125, TS1160, ...) *)
  | ComputedNameType                    (* TS2464 *)
  | DuplicateProperty (k : jsstr).      (* TS1117 *)

(** Induction on types, with a hypothesis for each field of an object type. *)
Fixpoint ty_nested_ind (P : ty -> Prop) (HS : P TString) (HL : forall s, P (TStringLit s))
    (HO : forall fs, Forall (fun kT => P kT.2) fs -> P (TObject fs)) (T : ty) : P T :=
  match T with
  | TString => HS
  | TStringLit s => HL s
  | TObject fs =>
      HO fs ((fix go (fs : list (jsstr * ty)) : Forall (fun kT => P kT.2) fs :=
                match fs with
                | [] => List.Forall_nil _
                | kT :: fs' => @List.Forall_cons _ _ kT fs' (ty_nested_ind P HS HL HO kT.2) (go fs')
                end) fs)
  end.

(** getWidenedType: literal types become [string], in every field. *)
Fixpoint widen (T : ty) : ty :=
  match T with
  | TString | TStringLit _ => TString
  | TObject fs => TObject (map (fun '(k, T') => (k, widen T')) fs)
  end.

(** ** Checking the expressions of the source *)

Definition literal_type (r : result jsstr) : ts_error + ty :=
  match r with
  | Ok s => inr (TStringLit s)
  | Err e => inl (LiteralError e)
  end.

(** [infer_propdefs defs fs] checks the definitions after those whose
    fields are [fs], in source order. *)
Fixpoint infer_expr (e : expr) : ts_error + ty :=
  match e with
  | EString body => literal_type (string_value body)
  | ETemplate body => literal_type (template_value body)
  | EObject defs =>
      match infer_propdefs defs [] with
      | inr fs => inr (TObject fs)
      | inl err => inl err
      end
  end
with infer_propdefs (defs : propdefs) (fs : list (jsstr * ty)) : ts_error + list (jsstr * ty) :=
  match defs with
  | PDNil => inr fs
  | PDCons n e rest =>
      match infer_propname n with
      | inl err => inl err
      | inr k =>
          match infer_expr e with
          | inl err => inl err
          | inr T =>
              if decide (k ∈ map fst fs) then inl (DuplicateProperty k)
              else infer_propdefs rest (fs ++ [(k, widen T)])
          end
      end
  end
with infer_propname (n : propname) : ts_error + jsstr :=
  match n with
  | PIdent id => inr id
  | PComputed e =>
      match infer_expr e with
      | inr (TStringLit s) => inr s
      | inr _ => inl ComputedNameType
      | inl err => inl err
      end
  end.

(** The declared type of [export const name = e]
    (getWidenedTypeForVariableLikeDeclaration): a [const] keeps the
    literal type of a literal initializer, [const x = "a"] has type
    ["a"]; the type of a fresh object literal is widened in every
    field. *)
Definition infer_export_const (e : expr) : ts_error + ty :=
  match infer_expr e with
  | inr (TStringLit s) => inr (TStringLit s)
  | inr T => inr (widen T)
  | inl err => inl err
  end.

(** ** What a type promises of a value *)

Fixpoint has_type (v : value) (T : ty) {struct T} : Prop :=
  match T with
  | TString => exists s, v = VString s
  | TStringLit s => v = VString s
  | TObject fs =>
      match v with
      | VObject o =>
          (fix fields_typed (fs : list (jsstr * ty)) : Prop :=
             match fs with
             | [] => True
             | (k, T') :: fs' => has_type (get o k) T' /\ fields_typed fs'
             end) fs
      | _ => False
      end
  end.

(** No definition [__proto__: v], which sets the prototype instead of
    defining a property and is not modelled by the evaluator. *)
Fixpoint proto_free (e : expr) : bool :=
  match e with
  | EObject defs => proto_free_defs defs
  | _ => true
  end
with proto_free_defs (defs : propdefs) : bool :=
  match defs with
  | PDNil => true
  | PDCons n e rest => proto_free_name n && proto_free e && proto_free_defs rest
  end
with proto_free_name (n : propname) : bool :=
  match n with
  | PIdent id => bool_decide (id <> str "__proto__")
  | PComputed e => proto_free e
  end.

(** ** Lemmas *)

Lemma has_type_object o fs :
  has_type (VObject o) (TObject fs) <-> Forall (fun kT => has_type (get o kT.1) kT.2) fs.
Proof.
  induction fs as [|[k T] fs IH]; simpl; [split; constructor|].
  rewrite Forall_cons, <- IH. done.
Qed.

(** A value of a literal type also has the widened type. *)
Lemma has_type_widen T : forall v, has_type v T -> has_type v (widen T).
Proof.
  induction T as [| |fs IH] using ty_nested_ind; intros v Hv; [done|simpl in *; eauto|].
  destruct v as [| | | |o]; try (simpl in Hv; done).
  change (widen (TObject fs)) with (TObject (map (fun '(k, T') => (k, widen T')) fs)).
  rewrite has_type_object in *. apply Forall_map.
  induction IH as [|[k T] fs HT _ IHfs]; [constructor|].
  apply Forall_cons in Hv as [Hk Hv]. constructor; [by apply HT|by apply IHfs].
Qed.

Lemma infer_propdefs_NoDup defs : forall fs fs',
  NoDup (map fst fs) -> infer_propdefs defs fs = inr fs' -> NoDup (map fst fs').
Proof.
  induction defs as [|n e rest IH]; simpl; intros fs fs' Hnd H; [by injection H as <-|].
  destruct (infer_propname n), (infer_expr e); try done.
  case_decide as Hk; [done|]. eapply IH; [|exact H].
  rewrite map_app. apply NoDup_app. simpl.
  split_and!; [done| |apply NoDup_singleton]. intros x Hx ->%list_elem_of_singleton. done.
Qed.

(** Each field checked for a definition list names a definition the
    evaluation produced, with a value of the field's type; with the
    names distinct, [[Get]] on the literal's object reads that value. *)
Lemma fields_last_value (fsn : list (jsstr * ty)) (kvs : list (jsstr * value)) :
  Forall2 (fun kT kv => kT.1 = kv.1 /\ has_type kv.2 kT.2) fsn kvs -> NoDup (map fst kvs) ->
  Forall (fun kT => exists v, last_value kT.1 kvs = Some v /\ has_type v kT.2) fsn.
Proof.
  induction 1 as [|[k T] [k' v] fsn kvs [Hk Hv] _ IH]; intros Hnd; constructor; simpl in *; subst;
    apply NoDup_cons in Hnd as [Hn Hnd].
  - exists v. rewrite last_value_None by done. by rewrite decide_True.
  - eapply Forall_impl; [by apply IH|]. intros [k1 T1] (v1 & Hl & Hv1). exists v1. simpl in *. by rewrite Hl.
Qed.

Lemma fields_get fsn kvs :
  Forall2 (fun kT kv => kT.1 = kv.1 /\ has_type kv.2 kT.2) fsn kvs -> NoDup (map fst kvs) ->
  Forall (fun kT => has_type (get (literal_object kvs) kT.1) kT.2) fsn.
Proof.
  intros H2 Hnd. eapply Forall_impl; [by apply fields_last_value|].
  intros [k T] (v & Hl & Hv). simpl in *. by rewrite literal_object_get, Hl.
Qed.

Lemma Forall2_fst (fsn : list (jsstr * ty)) (kvs : list (jsstr * value)) :
  Forall2 (fun kT kv => kT.1 = kv.1 /\ has_type kv.2 kT.2) fsn kvs -> map fst fsn = map fst kvs.
Proof. induction 1 as [|[k T] [k' v] fsn kvs [Hk _] _ IH]; simpl in *; [done|]. by rewrite Hk, IH. Qed.

(** Type safety of the checker, for the three syntactic categories at
    once: an accepted expression evaluates to a value of its type; an
    accepted definition list evaluates to definitions whose values have
    the types of the fields it adds; an accepted name evaluates to the
    name the checker gave it. *)
Lemma infer_sound_mut :
  (forall e T, infer_expr e = inr T -> proto_free e = true ->
     exists v, eval_expr e = Ok v /\ has_type v T) /\
  (forall defs fs fs', infer_propdefs defs fs = inr fs' -> proto_free_defs defs = true ->
     exists kvs fsn, eval_defs defs = Ok kvs /\ fs' = fs ++ fsn /\
       Forall2 (fun kT kv => kT.1 = kv.1 /\ has_type kv.2 kT.2) fsn kvs) /\
  (forall n k, infer_propname n = inr k -> proto_free_name n = true -> eval_propname n = Ok k).
Proof.
  apply expr_mutind.
  - intros body T H _. simpl in *. unfold literal_type in H.
    destruct (string_value body); simplify_eq. by eexists.
  - intros body T H _. simpl in *. unfold literal_type in H.
    destruct (template_value body); simplify_eq. by eexists.
  - intros defs IH T H Hp. simpl in H, Hp.
    destruct (infer_propdefs defs []) as [|fs] eqn:E; simplify_eq.
    destruct (IH _ _ E Hp) as (kvs & fsn & Hkvs & -> & H2).
    exists (VObject (literal_object kvs)). split.
    + simpl. rewrite eval_propdefs_define_all by apply literal_shape_create. by rewrite Hkvs.
    + apply has_type_object, fields_get; [done|].
      rewrite <- (Forall2_fst _ _ H2). by apply (infer_propdefs_NoDup defs [] _ (NoDup_nil_2)).
  - intros fs fs' H _. simpl in H. simplify_eq. exists [], []. by rewrite app_nil_r.
  - intros n IHn e IHe rest IHr fs fs' H Hp. simpl in H, Hp.
    apply andb_true_iff in Hp as [[Hn He]%andb_true_iff Hr].
    destruct (infer_propname n) as [|k] eqn:En; [done|].
    destruct (infer_expr e) as [|T] eqn:Ee; [done|]. case_decide; [done|].
    destruct (IHr _ _ H Hr) as (kvs & fsn & Hkvs & -> & H2).
    destruct (IHe _ eq_refl He) as (v & Hv & HvT).
    exists ((k, v) :: kvs), ((k, widen T) :: fsn). split_and!.
    + simpl. by rewrite (IHn _ eq_refl Hn), Hv, Hkvs.
    + by rewrite <- app_assoc.
    + constructor; [split; [done|by apply has_type_widen]|done].
  - intros id k H Hp. simpl in *. injection H as <-.
    apply bool_decide_eq_true in Hp. by rewrite decide_False.
  - intros e IH k H Hp. simpl in *.
    destruct (infer_expr e) as [|[| s |]] eqn:E; simplify_eq.
    destruct (IH _ eq_refl Hp) as (v & -> & ->). done.
Qed.

(** [defs1] followed by [defs2]. *)
Fixpoint propdefs_app (defs1 defs2 : propdefs) : propdefs :=
  match defs1 with
  | PDNil => defs2
  | PDCons n e rest => PDCons n e (propdefs_app rest defs2)
  end.

Lemma infer_propdefs_app defs1 defs2 fs :
  infer_propdefs (propdefs_app defs1 defs2) fs =
    match infer_propdefs defs1 fs with inr fs' => infer_propdefs defs2 fs' | inl err => inl err end.
Proof.
  induction defs1 as [|n e rest IH] in fs |- *; [done|]. simpl.
  destruct (infer_propname n), (infer_expr e); try done. by case_decide.
Qed.

(** ** Properties *)

(** The declared type of a [const] is implied by the type of its
    initializer. *)
Lemma infer_export_const_inv e T :
  infer_export_const e = inr T ->
  exists T0, infer_expr e = inr T0 /\ forall v, has_type v T0 -> has_type v T.
Proof.
  unfold infer_export_const. intros H.
  destruct (infer_expr e) as [|T0]; [done|]. exists T0. split; [done|].
  destruct T0; simplify_eq; [|done|]; intros v; apply has_type_widen.
Qed.

(** Type safety of the declaration: when [tsc] accepts
    [export const name = e] (and [e] has no [__proto__:] definition),
    evaluating the declaration does not fail and binds [name] to a value
    of the declared type. *)
Theorem infer_export_const_safe name e T :
  infer_export_const e = inr T -> proto_free e = true ->
  exists v, eval_export_const name e = Ok (name, v) /\ has_type v T.
Proof.
  intros (T0 & E & HT)%infer_export_const_inv Hp. unfold eval_export_const.
  destruct (proj1 infer_sound_mut _ _ E Hp) as (v & -> & Hv).
  exists v. split; [done|]. by apply HT.
Qed.

(** C14 (error): duplicate names (TS1117): an object literal that defines
    a name its earlier definitions already defined is rejected by the
    checker, whatever follows, while the runtime accepts such a literal
    (C8). *)
Theorem infer_duplicate_property defs1 n e defs2 fs k T :
  infer_propdefs defs1 [] = inr fs -> k ∈ map fst fs ->
  infer_propname n = inr k -> infer_expr e = inr T ->
  infer_expr (EObject (propdefs_app defs1 (PDCons n e defs2))) = inl (DuplicateProperty k).
Proof.
  intros H1 Hk Hn He. simpl. rewrite infer_propdefs_app, H1. simpl.
  rewrite Hn, He. by rewrite decide_True.
Qed.

(** ** Witnesses *)

(** The type [tsc] gives an entry { language: "...", code: `...` }. *)
Definition entry_type : ty := TObject [(str "language", TString); (str "code", TString)].

Definition example_entry : expr :=
  EObject (PDCons (PIdent (str "language")) (EString (str "rust"))
          (PDCons (PIdent (str "code")) (ETemplate (str "fn main() {}")) PDNil)).

Definition example_table : expr :=
  EObject (PDCons (PComputed (EString (str "Rust"))) example_entry PDNil).

Lemma infer_duplicate_property_witness :
  infer_propdefs (PDCons (PComputed (EString (str "Rust"))) example_entry PDNil) []
    = inr [(str "Rust", entry_type)] /\
  str "Rust" ∈ map fst [(str "Rust", entry_type)] /\
  infer_propname (PComputed (EString (str "Rust"))) = inr (str "Rust") /\
  infer_expr example_entry = inr entry_type /\
  infer_expr (EObject (propdefs_app (PDCons (PComputed (EString (str "Rust"))) example_entry PDNil)
                                    (PDCons (PComputed (EString (str "Rust"))) example_entry PDNil)))
    = inl (DuplicateProperty (str "Rust")).
Proof.
  assert (H1 : infer_propdefs (PDCons (PComputed (EString (str "Rust"))) example_entry PDNil) []
                 = inr [(str "Rust", entry_type)]) by (vm_compute; reflexivity).
  assert (H2 : str "Rust" ∈ map fst [(str "Rust", entry_type)]) by (simpl; left).
  assert (H3 : infer_propname (PComputed (EString (str "Rust"))) = inr (str "Rust"))
    by (vm_compute; reflexivity).
  assert (H4 : infer_expr example_entry = inr entry_type) by (vm_compute; reflexivity).
  split_and!; [exact H1|exact H2|exact H3|exact H4|].
  exact (infer_duplicate_property _ _ _ PDNil _ _ _ H1 H2 H3 H4).
Defined.

End TsType.
