(* ===== verification/Registry.v ===== *)
(** * The Sample Registry: its contract, and the JavaScript object that
      implements it

    spec.md (§3, §4.1, §7, §8) describes [sampleCode] as a registry: an
    ordered map from labels to entries { language; code } with [get] and
    [entries], unique labels, non-empty fields, and a construction that
    fails with DuplicateLabel.  This file states that contract
    abstractly and proves that the object a literal table evaluates to
    implements it:
    - [SampleRegistry] is the interface (a type class) and
      [registry_contract] its laws;
    - the abstract model is the declared table itself, a list of
      (label, entry) pairs, with [table_get] and [build_registry];
    - the implementation reads the JavaScript object the way a consumer
      does: [sampleCode[label]] with its [language] and [code] fields,
      and Object.entries in its order ([js_registry]);
    - [table_object_refines] is the refinement: for a table with
      distinct labels, none of them an array index, the object of the
      literal has the same entries in the same order and the same
      lookups as the table, and [contract_transfer] carries the
      contract from the table to the object. *)

From Stdlib Require Import ZArith Lia String.
From stdpp Require Import base list decidable sets sorting strings.
From S2P Require Import Prelude Unicode Lexical JsObject KeyOrder ObjectLiteral.
Import JsObject KeyOrder Literal.
Open Scope Z_scope.

Module Registry.

Record sample_entry := mk_entry { language : jsstr; code : jsstr }.

#[export] Instance sample_entry_eq_dec : EqDecision sample_entry.
Proof. solve_decision. Defined.

(** The interface a consumer of the table relies on. *)
Class SampleRegistry (R : Type) := {
  registry_get : R -> jsstr -> option sample_entry;
  registry_entries : R -> list (jsstr * sample_entry) }.

(** Its laws (spec.md §3 invariants and §4.1 contract). *)
Record registry_contract {R} `{SampleRegistry R} (r : R) : Prop := {
  rc_labels_unique : NoDup (map fst (registry_entries r));
  rc_get_entries : forall l e, registry_get r l = Some e <-> (l, e) ∈ registry_entries r;
  rc_nonempty : Forall (fun le => le.1 <> [] /\ language le.2 <> [] /\ code le.2 <> [])
                       (registry_entries r) }.

(** ** The abstract registry: the declared table *)

Definition table_get (t : list (jsstr * sample_entry)) (l : jsstr) : option sample_entry :=
  assoc l t.

#[export] Instance table_registry : SampleRegistry (list (jsstr * sample_entry)) := {
  registry_get := table_get;
  registry_entries := fun t => t }.

Inductive registry_error := DuplicateLabel (label : jsstr).

(** Construction as spec.md §4.1 and §7 ask: a label declared twice
    fails with DuplicateLabel naming it. *)
Fixpoint build_registry (t : list (jsstr * sample_entry))
  : registry_error + list (jsstr * sample_entry) :=
  match t with
  | [] => inr []
  | (l, e) :: t' =>
      if decide (l ∈ map fst t') then inl (DuplicateLabel l)
      else match build_registry t' with
           | inr t'' => inr ((l, e) :: t'')
           | inl err => inl err
           end
  end.

(** ** The implementation: the object of an object literal *)

(** [v.language] and [v.code] of a value [v] that is an object with two
    string fields. *)
Definition entry_of_value (v : value) : option sample_entry :=
  match v with
  | VObject e =>
      match get e (str "language"), get e (str "code") with
      | VString lang, VString c => Some (mk_entry lang c)
      | _, _ => None
      end
  | _ => None
  end.

#[export] Instance js_registry : SampleRegistry (object value) := {
  registry_get := fun o l => entry_of_value (get o l);
  registry_entries := fun o =>
    omap (fun lv => (fun e => (lv.1, e)) <$> entry_of_value lv.2) (enumerable_own_entries o) }.

(** [{ language: ..., code: ... }] and the table literal built from
    a list of entries. *)
Definition entry_value (e : sample_entry) : value :=
  VObject (literal_object [(str "language", VString (language e)); (str "code", VString (code e))]).

Definition table_object (t : list (jsstr * sample_entry)) : object value :=
  literal_object (map (fun le => (le.1, entry_value le.2)) t).

(** ** Lemmas *)

Lemma entry_of_entry_value e : entry_of_value (entry_value e) = Some e.
Proof. by destruct e. Qed.

(** No member of %Object.prototype% reads as an entry. *)
Lemma object_prototype_get_no_entry k p : entry_of_value (object_prototype_get k p) = None.
Proof. unfold object_prototype_get. repeat (case_decide || case_match); done. Qed.

Lemma first_occurrences_NoDup_aux ks acc :
  NoDup (acc ++ ks) -> fold_left add_key ks acc = acc ++ ks.
Proof.
  revert acc. induction ks as [|k ks IH]; intros acc Hnd; simpl; [by rewrite app_nil_r|].
  unfold add_key. rewrite decide_False.
  - rewrite IH; [by rewrite <-app_assoc|]. by rewrite <-app_assoc.
  - intros Hin. apply NoDup_app in Hnd as (_ & Hd & _). apply (Hd k Hin). by left.
Qed.

Lemma first_occurrences_NoDup ks : NoDup ks -> first_occurrences ks = ks.
Proof. intros. by apply (first_occurrences_NoDup_aux ks []). Qed.

Lemma omap_map_fst {A B} (f : A -> option (A * B)) (kvs : list (A * B)) :
  Forall (fun kv => f kv.1 = Some kv) kvs -> omap f (map fst kvs) = kvs.
Proof. induction 1 as [|kv kvs Hf _ IH]; [done|]. simpl in *. rewrite Hf. by f_equal. Qed.

(** Object.entries of a literal with distinct keys, none an array index,
    is the list of its definitions. *)
Lemma literal_entries kvs :
  NoDup (map fst kvs) -> Forall (fun k => is_array_index k = false) (map fst kvs) ->
  enumerable_own_entries (literal_object kvs) = kvs.
Proof.
  intros Hnd Hni. unfold enumerable_own_entries.
  rewrite own_property_keys_creation_order by (by rewrite literal_keys, first_occurrences_NoDup).
  rewrite literal_keys, first_occurrences_NoDup by done. apply omap_map_fst, Forall_forall.
  intros [k v] Hin. simpl. unfold literal_object.
  rewrite define_all_get_own, (last_value_NoDup _ _ v) by done. done.
Qed.

Lemma table_object_get t l :
  NoDup (map fst t) -> entry_of_value (get (table_object t) l) = table_get t l.
Proof.
  intros Hnd. unfold table_object. rewrite literal_object_get.
  assert (Hnd' : NoDup (map fst (map (fun le => (le.1, entry_value le.2)) t)))
    by (by rewrite map_map).
  destruct (table_get t l) as [e|] eqn:E.
  - apply assoc_Some in E; [|done].
    rewrite (last_value_NoDup _ _ (entry_value e)); [apply entry_of_entry_value|done|].
    apply list_elem_of_fmap. by exists (l, e).
  - apply assoc_None in E. rewrite last_value_None; [apply object_prototype_get_no_entry|].
    by rewrite map_map.
Qed.

Lemma omap_entries (t : list (jsstr * sample_entry)) :
  omap (fun lv => (fun e => (lv.1, e)) <$> entry_of_value lv.2)
       (map (fun le => (le.1, entry_value le.2)) t) = t.
Proof.
  induction t as [|[l [lang c]] t IH]; [done|]. simpl. f_equal. exact IH.
Qed.

Lemma last_value_snoc kvs k v : last_value k (kvs ++ [(k, v)]) = Some v.
Proof.
  induction kvs as [|[k' v'] kvs IH]; simpl; [by rewrite decide_True|]. by rewrite IH.
Qed.

Lemma first_occurrences_prefix ks acc : exists r, fold_left add_key ks acc = acc ++ r.
Proof.
  revert acc. induction ks as [|k ks IH]; intros acc; simpl; [exists []; by rewrite app_nil_r|].
  destruct (IH (add_key acc k)) as [r ->]. unfold add_key. case_decide.
  - by exists r.
  - exists (k :: r). by rewrite <-app_assoc.
Qed.

(** The declared table satisfies the contract when its labels are
    distinct and its fields non-empty. *)
Lemma table_contract t :
  NoDup (map fst t) ->
  Forall (fun le => le.1 <> [] /\ language le.2 <> [] /\ code le.2 <> []) t ->
  registry_contract t.
Proof. intros Hnd Hne. split; [done| |done]. intros l e. by apply assoc_Some. Qed.

(** A registry with the entries and lookups of a table inherits the
    contract the table satisfies. *)
Lemma contract_transfer {R} `{SampleRegistry R} (r : R) t :
  registry_entries r = t -> (forall l, registry_get r l = table_get t l) ->
  registry_contract t -> registry_contract r.
Proof.
  intros He Hg [Hu Hget Hne]. split; rewrite He; [done| |done].
  intros l e. rewrite Hg. apply Hget.
Qed.

(** The entry of a label in the declared table, paired with its label. *)
Definition label_entry (t : list (jsstr * sample_entry)) (l : jsstr) : option (jsstr * sample_entry) :=
  (fun e => (l, e)) <$> table_get t l.

Lemma table_object_keys t : NoDup (map fst t) -> keys (table_object t) = map fst t.
Proof.
  intros Hnd. unfold table_object. rewrite literal_keys, first_occurrences_NoDup; by rewrite map_map.
Qed.

Lemma table_object_own t l e :
  NoDup (map fst t) -> table_get t l = Some e ->
  get_own_property (table_object t) l = Some (mk_prop (entry_value e) true true true).
Proof.
  intros Hnd He%assoc_Some; [|done]. unfold table_object, literal_object.
  rewrite define_all_get_own, (last_value_NoDup _ _ (entry_value e)); [done|by rewrite map_map|].
  apply list_elem_of_fmap. by exists (l, e).
Qed.

(** Object.entries of a table object read as entries: the entry of each
    own key, in [[OwnPropertyKeys]] order. *)
Lemma table_object_entries t :
  NoDup (map fst t) ->
  registry_entries (table_object t) = omap (label_entry t) (ordinary_own_property_keys (table_object t)).
Proof.
  intros Hnd. cbn [registry_entries js_registry]. unfold enumerable_own_entries.
  assert (Hk : Forall (fun k => k ∈ map fst t) (ordinary_own_property_keys (table_object t))).
  { apply Forall_forall. intros k. by rewrite own_property_keys_elem, table_object_keys. }
  induction Hk as [|k ks Hin _ IH]; [done|]. simpl.
  destruct (table_get t k) as [e|] eqn:E; [|by apply assoc_None in E].
  assert (label_entry t k = Some (k, e)) as -> by (unfold label_entry; by rewrite E).
  rewrite (table_object_own _ _ _ Hnd E). simpl. destruct e. f_equal. exact IH.
Qed.

Lemma label_entry_map_fst t t' :
  NoDup (map fst t) -> Forall (fun le => le ∈ t) t' -> omap (label_entry t) (map fst t') = t'.
Proof.
  intros Hnd. induction 1 as [|[k e] t' Hin _ IH]; [done|]. simpl.
  unfold label_entry at 1, table_get. rewrite (proj2 (assoc_Some _ _ _ Hnd) Hin). simpl. by f_equal.
Qed.

Lemma label_entry_fst t ks :
  Forall (fun k => k ∈ map fst t) ks -> map fst (omap (label_entry t) ks) = ks.
Proof.
  induction 1 as [|k ks Hin _ IH]; [done|]. simpl. unfold label_entry at 1.
  destruct (table_get t k) eqn:E; [simpl; by f_equal|]. by apply assoc_None in E.
Qed.

(** Object.entries of a table object, read as entries, is the table
    when its labels are distinct and none is an array index. *)
Lemma table_object_entries_decl t :
  NoDup (map fst t) -> Forall (fun l => is_array_index l = false) (map fst t) ->
  registry_entries (table_object t) = t.
Proof.
  intros Hnd Hni. simpl. unfold table_object. rewrite literal_entries by (by rewrite map_map).
  apply omap_entries.
Qed.

(** ** Properties *)

(** C7: refinement: the object of a table literal whose labels are
    distinct and none an array index implements the declared table:
    Object.entries read as entries is the table, in declaration order,
    and [obj[label]] read as an entry agrees with the table for every
    label, declared or not. *)
Theorem table_object_refines t :
  NoDup (map fst t) -> Forall (fun l => is_array_index l = false) (map fst t) ->
  registry_entries (table_object t) = t /\
  forall l, registry_get (table_object t) l = table_get t l.
Proof. intros Hnd Hni. split; [by apply table_object_entries_decl|intros l; by apply table_object_get]. Qed.

Lemma table_object_refines_witness :
  NoDup (map fst [(str "Rust", mk_entry (str "rust") (str "fn main() {}"))]) /\
  Forall (fun l => is_array_index l = false) (map fst [(str "Rust", mk_entry (str "rust") (str "fn main() {}"))]) /\
  (registry_entries (table_object [(str "Rust", mk_entry (str "rust") (str "fn main() {}"))])
     = [(str "Rust", mk_entry (str "rust") (str "fn main() {}"))] /\
   forall l, registry_get (table_object [(str "Rust", mk_entry (str "rust") (str "fn main() {}"))]) l
             = table_get [(str "Rust", mk_entry (str "rust") (str "fn main() {}"))] l).
Proof.
  split; [repeat constructor; set_solver|]. split; [repeat constructor|].
  apply table_object_refines; [repeat constructor; set_solver|repeat constructor].
Defined.

(** C8: duplicate labels (spec.md §4.1, §7): the construction the spec
    asks for rejects a table that declares a label twice, while the
    object literal accepts it: the label keeps the position of its first
    declaration and [obj[label]] is the entry of its last one. *)
Theorem duplicate_label_accepted t l e1 e2 :
  build_registry ((l, e1) :: t ++ [(l, e2)]) = inl (DuplicateLabel l) /\
  registry_get (table_object ((l, e1) :: t ++ [(l, e2)])) l = Some e2 /\
  head (keys (table_object ((l, e1) :: t ++ [(l, e2)]))) = Some l.
Proof.
  split_and!.
  - simpl. rewrite decide_True; [done|]. rewrite map_app. set_solver.
  - cbn [registry_get js_registry]. unfold table_object. rewrite literal_object_get.
    rewrite app_comm_cons, map_app. simpl map at 2. rewrite last_value_snoc. apply entry_of_entry_value.
  - unfold table_object. rewrite literal_keys. unfold first_occurrences. simpl.
    destruct (first_occurrences_prefix (map fst (map (fun le => (le.1, entry_value le.2)) (t ++ [(l, e2)]))) [l]) as [r Hr].
    unfold add_key in *. simpl. rewrite Hr. done.
Qed.

(** [[Set]] of any key but [__proto__] succeeds on a table object:
    it is extensible and its properties are writable. *)
Lemma table_object_set_ok t l v :
  l <> str "__proto__" -> exists o', ordinary_set (table_object t) l v = Ok (Some o').
Proof.
  intros Hl. destruct (literal_object_shape (map (fun le => (le.1, entry_value le.2)) t))
    as (Hs & Hp & Hproto). fold (table_object t) in Hs, Hp, Hproto.
  unfold ordinary_set. destruct (get_own_property (table_object t) l) as [p|] eqn:E.
  - assert (Hw : pr_writable p = true).
    { apply assoc_elem in E. by apply (proj1 (Forall_forall _ _) Hp) in E as [? _]. }
    rewrite Hw. by eexists.
  - rewrite Hproto, decide_False by done. rewrite create_data_property_upsert by done. by eexists.
Qed.

(** C12: the registry is not immutable (spec.md §3): the object of a
    table literal is an ordinary extensible object with writable
    properties, so an assignment [obj[label] = entry] by any reader
    succeeds and replaces or adds the entry, for every label other than
    [__proto__]. *)
Theorem table_object_assignable t l e :
  l <> str "__proto__" ->
  exists o', ordinary_set (table_object t) l (entry_value e) = Ok (Some o') /\
             registry_get o' l = Some e.
Proof.
  intros Hl. destruct (table_object_set_ok t l (entry_value e) Hl) as [o' Ho'].
  exists o'. split; [done|]. cbn [registry_get js_registry]. unfold get.
  destruct (ordinary_set_get_own _ _ _ _ Ho') as (p & Hp & Hv). rewrite Hp, Hv. apply entry_of_entry_value.
Qed.

Lemma table_object_assignable_witness :
  str "Swift" <> str "__proto__" /\
  exists o', ordinary_set (table_object []) (str "Swift") (entry_value (mk_entry (str "swift") (str "let x = 1")))
             = Ok (Some o') /\
             registry_get o' (str "Swift") = Some (mk_entry (str "swift") (str "let x = 1")).
Proof.
  assert (H : str "Swift" <> str "__proto__") by discriminate.
  split; [exact H|]. exact (table_object_assignable [] _ _ H).
Defined.

(** C13: Object.entries of a table literal with distinct labels, read as
    entries: first the entries whose label is an array index, i.e. the
    canonical decimal string of an integer 0 .. 2^32 - 2, all of them,
    in strictly ascending numeric order of the label, then the other
    entries in declaration order.  Declaration order (spec.md §3) is
    therefore kept exactly when no label is such a decimal string. *)
Theorem table_entries_order t :
  NoDup (map fst t) ->
  exists idx, registry_entries (table_object t) = idx ++ filter (fun le => is_array_index le.1 = false) t
    /\ idx ≡ₚ filter (fun le => is_array_index le.1 = true) t
    /\ StronglySorted Z.lt (omap array_index_value (map fst idx))
    /\ (forall l e, (l, e) ∈ idx <-> (l, e) ∈ t /\ exists n, 0 <= n <= MAX_ARRAY_INDEX /\ l = index_string n).
Proof.
  intros Hnd. assert (Hwf : wf_object (table_object t)).
  { change (NoDup (keys (table_object t))). by rewrite table_object_keys. }
  destruct (own_property_keys_order _ Hwf) as (ks & Hk & Hperm & Hsort).
  rewrite table_object_keys in Hk, Hperm by done.
  assert (Hsub : Forall (fun k => k ∈ map fst t) ks)
    by (apply Forall_forall; intros k; rewrite Hperm, list_elem_of_filter; tauto).
  exists (omap (label_entry t) ks). split_and!.
  - rewrite table_object_entries, Hk, omap_app, filter_map_fst by done.
    rewrite label_entry_map_fst by (done || apply filter_elem_Forall). done.
  - etrans; [apply omap_Permutation, Hperm|]. rewrite filter_map_fst.
    by rewrite label_entry_map_fst by (done || apply filter_elem_Forall).
  - by rewrite label_entry_fst.
  - intros l e. rewrite (omap_Permutation _ _ _ Hperm), filter_map_fst, label_entry_map_fst
      by (done || apply filter_elem_Forall).
    rewrite list_elem_of_filter, is_array_index_canonical. simpl. tauto.
Qed.

Lemma table_entries_order_witness :
  NoDup (map fst [(str "Rust", mk_entry (str "rust") (str "a")); (str "42", mk_entry (str "text") (str "b"));
                  (str "7", mk_entry (str "text") (str "c"))]) /\
  exists idx,
    registry_entries (table_object [(str "Rust", mk_entry (str "rust") (str "a"));
                                    (str "42", mk_entry (str "text") (str "b"));
                                    (str "7", mk_entry (str "text") (str "c"))])
      = idx ++ filter (fun le => is_array_index le.1 = false)
                      [(str "Rust", mk_entry (str "rust") (str "a")); (str "42", mk_entry (str "text") (str "b"));
                       (str "7", mk_entry (str "text") (str "c"))]
    /\ idx ≡ₚ filter (fun le => is_array_index le.1 = true)
                     [(str "Rust", mk_entry (str "rust") (str "a")); (str "42", mk_entry (str "text") (str "b"));
                      (str "7", mk_entry (str "text") (str "c"))]
    /\ StronglySorted Z.lt (omap array_index_value (map fst idx))
    /\ (forall l e, (l, e) ∈ idx <->
          (l, e) ∈ [(str "Rust", mk_entry (str "rust") (str "a")); (str "42", mk_entry (str "text") (str "b"));
                    (str "7", mk_entry (str "text") (str "c"))]
          /\ exists n, 0 <= n <= MAX_ARRAY_INDEX /\ l = index_string n).
Proof.
  assert (H : NoDup (map fst [(str "Rust", mk_entry (str "rust") (str "a"));
                              (str "42", mk_entry (str "text") (str "b"));
                              (str "7", mk_entry (str "text") (str "c"))]))
    by (apply (bool_decide_unpack _); vm_compute; reflexivity).
  split; [exact H|]. exact (table_entries_order _ H).
Defined.

(** The boundary of the array indices in the order of Object.entries:
    "4294967294" (2^32 - 2) is the largest label listed among the
    indices, before the others; "4294967295" (2^32 - 1) and "01" (a
    leading zero) are ordinary labels and keep their declaration order;
    "0" is an index. *)
Example index_label_boundary :
  registry_entries (table_object [(str "Rust", mk_entry (str "rust") (str "a"));
                                  (str "4294967295", mk_entry (str "text") (str "b"));
                                  (str "01", mk_entry (str "text") (str "c"));
                                  (str "4294967294", mk_entry (str "text") (str "d"));
                                  (str "0", mk_entry (str "text") (str "e"))])
  = [(str "0", mk_entry (str "text") (str "e"));
     (str "4294967294", mk_entry (str "text") (str "d"));
     (str "Rust", mk_entry (str "rust") (str "a"));
     (str "4294967295", mk_entry (str "text") (str "b"));
     (str "01", mk_entry (str "text") (str "c"))].
Proof. vm_compute. reflexivity. Qed.

End Registry.
