(* ===== verification/SampleCode.v ===== *)
(** * The table [sampleCode] of [src/packages/demo/src/sample-code.ts]

    The source is one exported constant: an object literal with four
    computed keys, each mapped to an object literal with a [language]
    string and a [code] template literal.  [sampleCode_expr] is that
    literal as an expression of [ObjectLiteral.v], with each template
    body written out line by line exactly as in the source (leading
    newline, trailing spaces and final indentation included; the double
    quotes of the Rust sample are [dq]).  Its value is computed by
    [eval_export_const], i.e. by the lexer and the object-literal
    semantics, not written by hand. *)

From Stdlib Require Import ZArith Lia String.
From stdpp Require Import base list decidable sets.
From S2P Require Import Prelude Unicode Lexical JsObject ObjectLiteral TsTypes Registry.
Import Utf16 Lexer JsObject Literal TsType Registry.
Open Scope Z_scope.

Module SampleCode.

(** A double quote, which a Rocq string literal here does not hold. *)
Definition dq : jsstr := [DQUOTE].

(** The body of a template written over several source lines: the lines
    joined by <LF>. *)
Fixpoint join_lines (ls : list jsstr) : jsstr :=
  match ls with
  | [] => []
  | [l] => l
  | l :: ls' => l ++ LF :: join_lines ls'
  end.

(** TypeScript with React: the template body of lines 4-26, one element per line. *)
Definition tsx_code_lines : list jsstr := [
  str "";
  str "import React from 'react';";
  str "";
  str "interface GroceryItemProps {";
  str "  item: {";
  str "    name: string;";
  str "    price: number;";
  str "    quantity: number;";
  str "  }";
  str "}";
  str "";
  str "const GroceryItem: React.FC<GroceryItemProps> = ({ item }) => {";
  str "  return (";
  str "    <div>";
  str "      <h2>{item.name}</h2>";
  str "      <p>Price: {item.price}</p>";
  str "      <p>Quantity: {item.quantity}</p>";
  str "    </div>";
  str "  );";
  str "}";
  str "";
  str "export default GroceryItem;";
  str "    "
].

(** JavaScript: the template body of lines 31-47, one element per line. *)
Definition javascript_code_lines : list jsstr := [
  str "";
  str "const GroceryItem = new Proxy({}, {";
  str "  set(target, prop, value) {";
  str "    if (prop === 'name' && typeof value !== 'string') {";
  str "      throw new TypeError('Name must be a string');";
  str "    }";
  str "    if (prop === 'price' && typeof value !== 'number') {";
  str "      throw new TypeError('Price must be a number');";
  str "    }";
  str "    if (prop === 'quantity' && typeof value !== 'number') {";
  str "      throw new TypeError('Quantity must be a number');";
  str "    }";
  str "    target[prop] = value;";
  str "    return true;";
  str "  }";
  str "});";
  str "    "
].

(** Objective-C: the template body of lines 52-80, one element per line. *)
Definition objectivec_code_lines : list jsstr := [
  str "";
  str "@interface GroceryItem : NSObject";
  str "";
  str "@property (nonatomic, strong) NSString *name;";
  str "@property (nonatomic, assign) float price;";
  str "@property (nonatomic, assign) NSInteger quantity;";
  str "";
  str "- (instancetype) initWithName: (NSString *)name ";
  str "                        price: (float)price ";
  str "                     quantity: (NSInteger)quantity;";
  str "";
  str "@end";
  str "";
  str "@implementation GroceryItem";
  str "";
  str "- (instancetype) initWithName: (NSString *)name ";
  str "                        price: (float)price ";
  str "                     quantity: (NSInteger)quantity {";
  str "    self = [super init];";
  str "    if (self) {";
  str "        _name = name;";
  str "        _price = price;";
  str "        _quantity = quantity;";
  str "    }";
  str "    return self;";
  str "}";
  str "";
  str "@end";
  str "    "
].

(** Rust: the template body of lines 85-148, one element per line. *)
Definition rust_code_lines : list jsstr := [
  str "";
  str "use serde::{Deserialize, Serialize};";
  str "use reqwest::Error as ReqwestError;";
  str "";
  str "#[derive(Debug, Serialize, Deserialize)]";
  str "struct GroceryItem {";
  str "    name: String,";
  str "    price: f32,";
  str "    quantity: i32,";
  str "}";
  str "";
  str "impl GroceryItem {";
  str "    async fn fetch_all() -> Result<Vec<GroceryItem>, ReqwestError> {";
  str "        let response = reqwest::get(" ++ dq ++ str "https://example.com/grocery_items" ++ dq ++ str ")";
  str "            .await?";
  str "            .json::<Vec<GroceryItem>>()";
  str "            .await?;";
  str "        Ok(response)";
  str "    }";
  str "";
  str "    async fn fetch_by_name(name: &str) -> Result<GroceryItem, ReqwestError> {";
  str "        let response = reqwest::get(&format!(" ++ dq ++ str "https://example.com/grocery_items/{}" ++ dq ++ str ", name))";
  str "            .await?";
  str "            .json::<GroceryItem>()";
  str "            .await?;";
  str "        Ok(response)";
  str "    }";
  str "";
  str "    async fn create(&self) -> Result<(), ReqwestError> {";
  str "        let client = reqwest::Client::new();";
  str "        let response = client.post(" ++ dq ++ str "https://example.com/grocery_items" ++ dq ++ str ")";
  str "            .json(self)";
  str "            .send()";
  str "            .await?;";
  str "        if !response.status().is_success() {";
  str "            return Err(ReqwestError::from(response.status()));";
  str "        }";
  str "        Ok(())";
  str "    }";
  str "";
  str "    async fn update(&self, name: &str) -> Result<(), ReqwestError> {";
  str "        let client = reqwest::Client::new();";
  str "        let response = client.put(&format!(" ++ dq ++ str "https://example.com/grocery_items/{}" ++ dq ++ str ", name))";
  str "            .json(self)";
  str "            .send()";
  str "            .await?;";
  str "        if !response.status().is_success() {";
  str "            return Err(ReqwestError::from(response.status()));";
  str "        }";
  str "        Ok(())";
  str "    }";
  str "";
  str "    async fn delete(name: &str) -> Result<(), ReqwestError> {";
  str "        let client = reqwest::Client::new();";
  str "        let response = client.delete(&format!(" ++ dq ++ str "https://example.com/grocery_items/{}" ++ dq ++ str ", name))";
  str "            .send()";
  str "            .await?;";
  str "        if !response.status().is_success() {";
  str "            return Err(ReqwestError::from(response.status()));";
  str "        }";
  str "        Ok(())";
  str "    }";
  str "}";
  str "    "
].

(** [{ language: "...", code: `...` }] (lines 2-27, 29-48, 50-81, 83-149) *)
Definition entry_literal (language : string) (code_lines : list jsstr) : expr :=
  EObject (PDCons (PIdent (str "language")) (EString (str language))
          (PDCons (PIdent (str "code")) (ETemplate (join_lines code_lines))
           PDNil)).

(** [export const sampleCode = { ["TypeScript with React"]: ..., ... }] *)
Definition sampleCode_expr : expr :=
  EObject
    (PDCons (PComputed (EString (str "TypeScript with React"))) (entry_literal "tsx" tsx_code_lines)
    (PDCons (PComputed (EString (str "JavaScript"))) (entry_literal "javascript" javascript_code_lines)
    (PDCons (PComputed (EString (str "Objective-C"))) (entry_literal "objectivec" objectivec_code_lines)
    (PDCons (PComputed (EString (str "Rust"))) (entry_literal "rust" rust_code_lines)
     PDNil)))).

(** The module's export. *)
Definition sampleCode_module : result (jsstr * value) :=
  eval_export_const (str "sampleCode") sampleCode_expr.

(** ** The table the source declares

    The four (label, entry) pairs in declaration order, each code being
    the source text of its template.  The theorems below show that the
    module evaluates to an object that implements exactly this table. *)

Definition sampleCode_labels : list jsstr :=
  map str ["TypeScript with React"; "JavaScript"; "Objective-C"; "Rust"]%string.

Definition sample_table : list (jsstr * sample_entry) :=
  [(str "TypeScript with React", mk_entry (str "tsx") (join_lines tsx_code_lines));
   (str "JavaScript", mk_entry (str "javascript") (join_lines javascript_code_lines));
   (str "Objective-C", mk_entry (str "objectivec") (join_lines objectivec_code_lines));
   (str "Rust", mk_entry (str "rust") (join_lines rust_code_lines))].

Lemma sample_table_labels : map fst sample_table = sampleCode_labels.
Proof. reflexivity. Qed.

Lemma sample_table_distinct : NoDup (map fst sample_table).
Proof. apply (bool_decide_unpack _). vm_compute. reflexivity. Qed.

Lemma sample_table_no_index : Forall (fun l => is_array_index l = false) (map fst sample_table).
Proof. rewrite sample_table_labels. repeat constructor. Qed.

(** The module evaluates to the object of the declared table. *)
Lemma sampleCode_module_value :
  sampleCode_module = Ok (str "sampleCode", VObject (table_object sample_table)).
Proof. vm_compute. reflexivity. Qed.

Lemma sampleCode_export_value :
  eval_export_const (str "sampleCode") sampleCode_expr
  = Ok (str "sampleCode", VObject (table_object sample_table)).
Proof. exact sampleCode_module_value. Qed.

Lemma sample_table_nonempty :
  Forall (fun le => le.1 <> [] /\ language le.2 <> [] /\ code le.2 <> []) sample_table.
Proof. repeat constructor; vm_compute; discriminate. Qed.

Lemma sampleCode_object_implements :
  registry_entries (table_object sample_table) = sample_table /\
  forall l, registry_get (table_object sample_table) l = table_get sample_table l.
Proof.
  split.
  - cbn [registry_entries js_registry]. unfold table_object.
    rewrite literal_entries
      by (rewrite map_map; first [apply sample_table_distinct|apply sample_table_no_index]).
    apply omap_entries.
  - intros l. apply table_object_get, sample_table_distinct.
Qed.

(** ** Properties of the table *)

(** C1: the module evaluates without error, and the object it exports
    as [sampleCode] implements the declared table: Object.entries read
    as entries is the four (label, { language, code }) pairs in source
    order, each code the text of its template, and [sampleCode[label]]
    agrees with the table for every label. *)
Theorem sampleCode_refines_table :
  exists o, sampleCode_module = Ok (str "sampleCode", VObject o) /\
    registry_entries o = sample_table /\
    forall l, registry_get o l = table_get sample_table l.
Proof. exists (table_object sample_table). split; [apply sampleCode_module_value|apply sampleCode_object_implements]. Qed.

(** C2: the exported object satisfies the registry contract of the
    spec: unique labels, lookup agreeing with the entries, and a
    non-empty label, language and code in every entry. *)
Theorem sampleCode_contract :
  exists o, sampleCode_module = Ok (str "sampleCode", VObject o) /\ registry_contract o.
Proof.
  exists (table_object sample_table). split; [apply sampleCode_module_value|].
  destruct sampleCode_object_implements as [He Hg].
  apply (contract_transfer _ sample_table He Hg), table_contract;
    [apply sample_table_distinct|apply sample_table_nonempty].
Qed.

(** C3: spec scenario 4: Object.keys(sampleCode) is
    ["TypeScript with React", "JavaScript", "Objective-C", "Rust"]. *)
Theorem sampleCode_keys :
  exists o, sampleCode_module = Ok (str "sampleCode", VObject o) /\
    object_keys o = sampleCode_labels.
Proof. exists (table_object sample_table). split; [apply sampleCode_module_value|]. vm_compute. reflexivity. Qed.

(** C4: spec scenario 1: [sampleCode["Rust"]] is { language: "rust",
    code: the async CRUD client of lines 85-148 }. *)
Theorem sampleCode_get_rust :
  exists o, sampleCode_module = Ok (str "sampleCode", VObject o) /\
    registry_get o (str "Rust") = Some (mk_entry (str "rust") (join_lines rust_code_lines)).
Proof.
  exists (table_object sample_table). split; [apply sampleCode_module_value|].
  rewrite (proj2 sampleCode_object_implements). reflexivity.
Qed.

(** C5: spec scenario 2: [sampleCode["JavaScript"]] is { language:
    "javascript", code: the Proxy validator of lines 32-46 }. *)
Theorem sampleCode_get_javascript :
  exists o, sampleCode_module = Ok (str "sampleCode", VObject o) /\
    registry_get o (str "JavaScript")
    = Some (mk_entry (str "javascript") (join_lines javascript_code_lines)).
Proof.
  exists (table_object sample_table). split; [apply sampleCode_module_value|].
  rewrite (proj2 sampleCode_object_implements). reflexivity.
Qed.

(** C6: spec scenario 3: [sampleCode["Swift"]] is undefined, so the
    lookup reports no entry. *)
Theorem sampleCode_get_swift :
  exists o, sampleCode_module = Ok (str "sampleCode", VObject o) /\
    get o (str "Swift") = VUndefined /\ registry_get o (str "Swift") = None.
Proof. exists (table_object sample_table). split; [apply sampleCode_module_value|]. vm_compute. split; reflexivity. Qed.

(** C9: labels that are not declared but name a member of
    %Object.prototype% are not absent: [sampleCode["toString"]],
    [sampleCode["constructor"]] and [sampleCode["__proto__"]] are the
    inherited function, %Object% and %Object.prototype%, although none
    of them is a key of the table. *)
Theorem sampleCode_inherited_members :
  exists o, sampleCode_module = Ok (str "sampleCode", VObject o) /\
    (str "toString" ∉ object_keys o) /\
    get o (str "toString") = VIntrinsic (BuiltinFunction (str "toString")) /\
    get o (str "constructor") = VIntrinsic (BuiltinFunction (str "Object")) /\
    get o (str "__proto__") = VIntrinsic ObjectPrototype.
Proof.
  exists (table_object sample_table). split; [apply sampleCode_module_value|].
  split; [vm_compute; set_solver|]. vm_compute. split_and!; reflexivity.
Qed.

(** C11: the layout spec.md §3 describes: every code starts with a
    newline and ends with a newline and the four spaces of indentation
    before the closing backtick. *)
Theorem sampleCode_code_layout :
  exists o, sampleCode_module = Ok (str "sampleCode", VObject o) /\
    Forall (fun le => take 1 (code le.2) = [LF] /\
                      drop (length (code le.2) - 5) (code le.2) = [LF; 32; 32; 32; 32])
           (registry_entries o).
Proof.
  exists (table_object sample_table). split; [apply sampleCode_module_value|].
  rewrite (proj1 sampleCode_object_implements). repeat constructor; vm_compute; reflexivity.
Qed.

(** C10: the four template literals are read verbatim: each has no
    escape sequence, <CR> or substitution, and its value is its source
    text, code unit for code unit. *)
Theorem sample_templates_verbatim :
  Forall (fun ls => template_value (join_lines ls) = Ok (join_lines ls))
    [tsx_code_lines; javascript_code_lines; objectivec_code_lines; rust_code_lines].
Proof.
  repeat apply List.Forall_cons; try apply List.Forall_nil.
  all: rewrite template_value_plain by (vm_compute; reflexivity); f_equal.
  all: apply code_points_to_string_bmp, (bool_decide_unpack _); vm_compute; reflexivity.
Qed.

(** The type [tsc] declares for [sampleCode]:
    { "TypeScript with React": { language: string; code: string }; ... }. *)
Definition sampleCode_type : ty := TObject (map (fun l => (l, entry_type)) sampleCode_labels).

(** C15 (type): the TypeScript checker accepts the module and declares
    [sampleCode] with one property per label, in source order, each of
    type { language: string; code: string }; the exported value has that
    type, so [sampleCode[label].language] and [.code] are strings for
    each of the four labels. *)
Theorem sampleCode_type_checks :
  infer_export_const sampleCode_expr = inr sampleCode_type /\
  exists v, sampleCode_module = Ok (str "sampleCode", v) /\ has_type v sampleCode_type.
Proof.
  assert (H : infer_export_const sampleCode_expr = inr sampleCode_type) by (vm_compute; reflexivity).
  split; [exact H|]. destruct (infer_export_const_inv _ _ H) as (T & E & Hw).
  destruct (proj1 infer_sound_mut _ _ E ltac:(vm_compute; reflexivity)) as (v & Hv & HT).
  exists v. split; [unfold sampleCode_module, eval_export_const; by rewrite Hv|]. by apply Hw.
Qed.

End SampleCode.
