(* ===== verification/Lifecycle.v ===== *)
(** * The module instance of [sample-code.ts] and its importers

    [sample-code.ts] is an ECMAScript module whose only statement is
    [export const sampleCode = {...}].  Its lifetime is that of a
    Source Text Module Record (ECMA-262 §16.2.1.5-6), driven by the host
    and shared by every module that imports it:
    - Link() creates the module environment, with the immutable binding
      [sampleCode] left uninitialized (InitializeEnvironment);
    - Evaluate() runs the module body once: the initializer is
      evaluated, the object it builds is allocated, the binding is
      initialized to it and the status becomes evaluated; a later
      Evaluate() returns at once, or rethrows the error the first one
      raised;
    - an importer reads [sampleCode[label]] through the import binding,
      which is a ReferenceError while the binding is uninitialized (the
      temporal dead zone); [sampleCode[label] = v] and
      [sampleCode[label][field] = v] write the one shared object; [sampleCode = v] is a TypeError, import bindings being
      immutable.
    The state is a record: status, binding, heap of allocated objects and
    the number of times the body ran; [step] is one host or importer
    action and [reachable] the states a sequence of actions reaches.
    Linking and evaluating are single steps here: with no imports of its
    own and no top-level await, the module passes through the transient
    statuses linking and evaluating inside one call. *)

From Stdlib Require Import ZArith Lia String.
From stdpp Require Import base list decidable sets strings.
From S2P Require Import Prelude Unicode Lexical JsObject ObjectLiteral Registry SampleCode.
Import JsObject Literal Registry SampleCode.
Open Scope js_scope.
Open Scope nat_scope.

Module Lifecycle.

Inductive module_status :=
  | Unlinked
  | Linked
  | Evaluated
  | EvaluatedError (e : js_error).   (* [[EvaluationError]] is set *)

(** What the binding holds: an object of the heap, or a primitive. *)
Inductive slot := SRef (loc : nat) | SVal (v : value).

Inductive binding :=
  | Absent                        (* no module environment yet *)
  | Uninitialized                 (* created by Link(), not yet initialized *)
  | Initialized (s : slot).

Record mstate := mk_mstate {
  m_status : module_status;
  m_binding : binding;
  m_heap : list (object value);
  m_runs : nat }.                  (* how many times the module body ran *)

Definition init_state : mstate := mk_mstate Unlinked Absent [] 0.

Inductive action :=
  | HostLink
  | HostEvaluate
  | ReadEntry (importer : nat) (label : jsstr)                (* sampleCode[label] *)
  | AssignEntry (importer : nat) (label : jsstr) (v : value)  (* sampleCode[label] = v *)
  | AssignField (importer : nat) (label field : jsstr) (v : value)  (* sampleCode[label][field] = v *)
  | AssignBinding (importer : nat) (v : value).               (* sampleCode = v *)

Section Host.
(** The module [export const name = body]. *)
Variable name : jsstr.
Variable body : expr.

(** Link(): InitializeEnvironment creates the uninitialized binding; a
    module already linked is left as it is. *)
Definition link (st : mstate) : mstate :=
  match m_status st with
  | Unlinked => mk_mstate Linked Uninitialized (m_heap st) (m_runs st)
  | _ => st
  end.

(** ExecuteModule: evaluate the initializer, allocate the object it
    builds, initialize the binding. *)
Definition execute_module (st : mstate) : mstate * result (option value) :=
  match eval_export_const name body with
  | Ok (_, VObject o) =>
      (mk_mstate Evaluated (Initialized (SRef (length (m_heap st)))) (m_heap st ++ [o]) (S (m_runs st)),
       Ok None)
  | Ok (_, v) => (mk_mstate Evaluated (Initialized (SVal v)) (m_heap st) (S (m_runs st)), Ok None)
  | Err e => (mk_mstate (EvaluatedError e) (m_binding st) (m_heap st) (S (m_runs st)), Err e)
  end.

(** Evaluate() *)
Definition evaluate (st : mstate) : mstate * result (option value) :=
  match m_status st with
  | Unlinked => (st, Err (Unsupported "Evaluate() before Link()"%string))
  | Linked => execute_module st
  | Evaluated => (st, Ok None)
  | EvaluatedError e => (st, Err e)
  end.

(** GetBindingValue through an import binding. *)
Definition read_binding (st : mstate) : result slot :=
  match m_binding st with
  | Initialized s => Ok s
  | _ => Err ReferenceError
  end.

Definition read_entry (st : mstate) (l : jsstr) : result value :=
  s <- read_binding st ;;
  match s with
  | SRef loc =>
      match m_heap st !! loc with
      | Some o => Ok (get o l)
      | None => Err (Unsupported "dangling reference"%string)
      end
  | SVal _ => Err (Unsupported "property of a primitive"%string)
  end.

(** A write through the binding: [f] computes the new state of the
    object the binding designates, [None] being a [[Set]] that returned
    false, which strict code turns into a TypeError. *)
Definition update_table (st : mstate) (f : object value -> result (option (object value))) : result mstate :=
  s <- read_binding st ;;
  match s with
  | SRef loc =>
      match m_heap st !! loc with
      | Some o =>
          r <- f o ;;
          match r with
          | Some o' => Ok (mk_mstate (m_status st) (m_binding st) (<[loc := o']> (m_heap st)) (m_runs st))
          | None => Err TypeError
          end
      | None => Err (Unsupported "dangling reference"%string)
      end
  | SVal _ => Err (Unsupported "property of a primitive"%string)
  end.

(** PutValue on [sampleCode[l]]: [[Set]] on the table. *)
Definition assign_entry (st : mstate) (l : jsstr) (v : value) : result mstate :=
  update_table st (fun o => ordinary_set o l v).

(** PutValue on [sampleCode[l][f]]: [[Set]] on the entry object the
    property [l] holds.  The entry is updated where it is, so the table's
    property keeps its attributes and keeps designating it.  A base that
    is undefined, or a string (whose [[Set]] has a primitive receiver and
    returns false), makes a TypeError; the built-in objects reached
    through %Object.prototype% are not modelled. *)
Definition set_entry_field (o : object value) (l f : jsstr) (v : value) : result (option (object value)) :=
  match get_own_property o l with
  | Some p =>
      match pr_value p with
      | VObject e => r <- ordinary_set e f v ;; Ok ((fun e' => set_value o l (VObject e')) <$> r)
      | VIntrinsic _ => Err (Unsupported "write to a built-in object"%string)
      | _ => Err TypeError
      end
  | None =>
      match get o l with
      | VIntrinsic _ => Err (Unsupported "write to a built-in object"%string)
      | _ => Err TypeError
      end
  end.

Definition assign_field (st : mstate) (l f : jsstr) (v : value) : result mstate :=
  update_table st (fun o => set_entry_field o l f v).

(** One action of the host or of an importer; an action that throws
    leaves the state as it was. *)
Definition step (st : mstate) (a : action) : mstate * result (option value) :=
  match a with
  | HostLink => (link st, Ok None)
  | HostEvaluate => evaluate st
  | ReadEntry _ l => (st, v <- read_entry st l ;; Ok (Some v))
  | AssignEntry _ l v =>
      match assign_entry st l v with
      | Ok st' => (st', Ok None)
      | Err e => (st, Err e)
      end
  | AssignField _ l f v =>
      match assign_field st l f v with
      | Ok st' => (st', Ok None)
      | Err e => (st, Err e)
      end
  | AssignBinding _ _ =>
      (* the import binding is immutable and created initialized
         (CreateImportBinding): SetMutableBinding throws a TypeError in
         strict code whatever the state of the binding it targets *)
      (st, Err TypeError)
  end.

Fixpoint run (st : mstate) (tr : list action) : mstate :=
  match tr with
  | [] => st
  | a :: tr' => run (step st a).1 tr'
  end.

Inductive reachable : mstate -> Prop :=
  | reach_init : reachable init_state
  | reach_step st a : reachable st -> reachable (step st a).1.

End Host.

(** ** The invariant of the module record *)

Section Invariant.
Variable name : jsstr.
Variable body : expr.

(** Before Evaluate() the body has not run and nothing is allocated;
    after it the body ran once, and either the binding is initialized
    (an object is the one cell of the heap) or the evaluation error is
    recorded and the binding stays uninitialized. *)
Definition lifecycle_inv (st : mstate) : Prop :=
  match m_status st with
  | Unlinked => m_runs st = 0 /\ m_binding st = Absent /\ m_heap st = []
  | Linked => m_runs st = 0 /\ m_binding st = Uninitialized /\ m_heap st = []
  | Evaluated =>
      m_runs st = 1 /\ (exists v, eval_export_const name body = Ok (name, v)) /\
      ((m_binding st = Initialized (SRef 0) /\ length (m_heap st) = 1) \/
       (exists v, m_binding st = Initialized (SVal v) /\ m_heap st = []))
  | EvaluatedError e =>
      m_runs st = 1 /\ m_binding st = Uninitialized /\ m_heap st = [] /\
      eval_export_const name body = Err e
  end.

Lemma eval_export_const_name n e v : eval_export_const name e = Ok (n, v) -> n = name.
Proof. unfold eval_export_const. destruct (eval_expr e); simpl; congruence. Qed.

Lemma update_table_inv st f st' :
  update_table st f = Ok st' ->
  m_status st' = m_status st /\ m_binding st' = m_binding st /\ m_runs st' = m_runs st /\
  length (m_heap st') = length (m_heap st).
Proof.
  unfold update_table, read_binding. destruct (m_binding st) as [| |[loc|]]; try done. simpl.
  destruct (m_heap st !! loc); [|done]. destruct (f _) as [[o'|]|]; try done.
  intros [= <-]. simpl. by rewrite length_insert.
Qed.

(** A write through the binding needs it initialized, to an object. *)
Lemma update_table_initialized st f st' :
  update_table st f = Ok st' -> exists loc, m_binding st = Initialized (SRef loc).
Proof. unfold update_table, read_binding. destruct (m_binding st) as [| |[]]; try done. eauto. Qed.

(** The invariant is kept by a write through the binding. *)
Lemma update_table_keeps_inv st f st' :
  lifecycle_inv st -> update_table st f = Ok st' -> lifecycle_inv st'.
Proof.
  intros Hinv E. destruct (update_table_initialized _ _ _ E) as [loc Hsl].
  destruct (update_table_inv _ _ _ E) as (Hs & Hb & Hr & Hl).
  unfold lifecycle_inv in *. rewrite Hs, Hb, Hr, Hl. rewrite Hsl in *.
  destruct (m_status st); naive_solver.
Qed.

Lemma step_inv st a : lifecycle_inv st -> lifecycle_inv (step name body st a).1.
Proof.
  intros Hinv. destruct a as [| |i l|i l v|i l f v|i v]; simpl; try exact Hinv.
  - unfold link. destruct (m_status st) eqn:Es; try exact Hinv.
    unfold lifecycle_inv in *. rewrite Es in Hinv. simpl. naive_solver.
  - unfold evaluate. destruct (m_status st) eqn:Es; try exact Hinv.
    unfold lifecycle_inv in Hinv. rewrite Es in Hinv. destruct Hinv as (Hr & Hb & Hh).
    unfold execute_module. destruct (eval_export_const name body) as [[n v]|e] eqn:Ev.
    + apply eval_export_const_name in Ev as Hn. subst n.
      unfold lifecycle_inv. destruct v; simpl; rewrite ?Hr, ?Hh; (split; [done|split; [by eexists|]]); eauto.
    + unfold lifecycle_inv. simpl. by rewrite Hr, Hb, Hh.
  - destruct (assign_entry st l v) as [st'|] eqn:E; [|exact Hinv]. by eapply update_table_keeps_inv.
  - destruct (assign_field st l f v) as [st'|] eqn:E; [|exact Hinv]. by eapply update_table_keeps_inv.
Qed.

Lemma reachable_inv st : reachable name body st -> lifecycle_inv st.
Proof. induction 1; [done|by apply step_inv]. Qed.

End Invariant.

(** ** Lemmas *)

Section Lemmas.
Variable name : jsstr.
Variable body : expr.

Lemma reachable_run st tr : reachable name body st -> reachable name body (run name body st tr).
Proof. induction tr as [|a tr IH] in st |- *; simpl; [done|]. intros H. apply IH. by constructor. Qed.

Lemma inv_initialized st s :
  lifecycle_inv name body st -> m_binding st = Initialized s -> m_status st = Evaluated.
Proof.
  unfold lifecycle_inv. intros H Hb. destruct (m_status st); try done; destruct H as (_ & Hb' & _); congruence.
Qed.

Lemma execute_module_ok st v :
  eval_export_const name body = Ok (name, v) ->
  m_status (execute_module name body st).1 = Evaluated /\
  exists s, m_binding (execute_module name body st).1 = Initialized s.
Proof. unfold execute_module. intros ->. destruct v; simpl; eauto. Qed.

(** The first Evaluate() after Link() allocates the object the body builds. *)
Lemma link_evaluate_object o :
  eval_export_const name body = Ok (name, VObject o) ->
  run name body init_state [HostLink; HostEvaluate] = mk_mstate Evaluated (Initialized (SRef 0)) [o] 1.
Proof. intros H. simpl. unfold evaluate, execute_module. simpl. by rewrite H. Qed.

(** A step keeps an initialized binding. *)
Lemma step_binding st a s :
  lifecycle_inv name body st -> m_binding st = Initialized s ->
  m_binding (step name body st a).1 = Initialized s.
Proof.
  intros Hinv Hb. pose proof (inv_initialized _ _ Hinv Hb) as Hs.
  destruct a as [| |i l|i l v|i l f v|i v]; simpl; try done.
  - unfold link. by rewrite Hs.
  - unfold evaluate. by rewrite Hs.
  - destruct (assign_entry st l v) as [st'|] eqn:E; [|done].
    simpl. destruct (update_table_inv _ _ _ E) as (_ & -> & _). done.
  - destruct (assign_field st l f v) as [st'|] eqn:E; [|done].
    simpl. destruct (update_table_inv _ _ _ E) as (_ & -> & _). done.
Qed.

Lemma get_own_get o k p : get_own_property o k = Some p -> get o k = pr_value p.
Proof. unfold get. by intros ->. Qed.

(** What an assignment through the binding wrote is what the binding
    reads next: the heap cell is shared. *)
Lemma assign_then_read st st' l v :
  assign_entry st l v = Ok st' -> read_entry st' l = Ok v.
Proof.
  unfold assign_entry, update_table, read_entry, read_binding.
  destruct (m_binding st) as [| |[loc|]] eqn:Eb; try done. simpl.
  destruct (m_heap st !! loc) as [o|] eqn:Eh; [|done].
  destruct (ordinary_set o l v) as [[o'|]|] eqn:Es; try done. intros [= <-]. simpl.
  rewrite list_lookup_insert_eq by (by eapply lookup_lt_Some).
  destruct (ordinary_set_get_own _ _ _ _ Es) as (p & Hp & <-). f_equal. by apply get_own_get.
Qed.

Lemma run_app st tr1 tr2 : run name body st (tr1 ++ tr2) = run name body (run name body st tr1) tr2.
Proof. induction tr1 as [|a tr1 IH] in st |- *; [done|]. apply IH. Qed.

(** Writes and reads on the state after the first evaluation. *)
Lemma update_single o o' f :
  f o = Ok (Some o') ->
  update_table (mk_mstate Evaluated (Initialized (SRef 0)) [o] 1) f
  = Ok (mk_mstate Evaluated (Initialized (SRef 0)) [o'] 1).
Proof. intros H. unfold update_table. simpl. by rewrite H. Qed.

Lemma assign_single o o' l v :
  ordinary_set o l v = Ok (Some o') ->
  assign_entry (mk_mstate Evaluated (Initialized (SRef 0)) [o] 1) l v
  = Ok (mk_mstate Evaluated (Initialized (SRef 0)) [o'] 1).
Proof. apply (update_single _ _ (fun o => ordinary_set o l v)). Qed.

Lemma read_single o l : read_entry (mk_mstate Evaluated (Initialized (SRef 0)) [o] 1) l = Ok (get o l).
Proof. reflexivity. Qed.

End Lemmas.

(** ** Properties of the module instance *)

Section Properties.
Variable name : jsstr.
Variable body : expr.

(** C16 (invariant): whatever the host and the importers do, the module
    body runs at most once; it has not run exactly while the module is
    unlinked or linked, and the binding [sampleCode] is initialized
    exactly when the evaluation completed normally. *)
Theorem module_body_runs_once st :
  reachable name body st ->
  m_runs st <= 1 /\ (m_runs st = 0 <-> m_status st = Unlinked \/ m_status st = Linked) /\
  ((exists s, m_binding st = Initialized s) <-> m_status st = Evaluated).
Proof.
  intros H%reachable_inv. unfold lifecycle_inv in H. destruct (m_status st).
  1,2: destruct H as (-> & -> & _); split_and!; [lia|tauto|split; [intros [? [=]]|done]].
  - destruct H as (-> & _ & Hb). split_and!; [lia|split; [done|intros [[=]|[=]]]|].
    split; [done|]. intros _. destruct Hb as [[-> _]|(w & -> & _)]; eauto.
  - destruct H as (-> & -> & _). split_and!; [lia|split; [done|intros [[=]|[=]]]|].
    split; [intros [? [=]]|done].
Qed.

(** C17 (liveness): from every reachable state, the host's Link() and
    Evaluate() leave the module evaluated with its binding initialized,
    when the body evaluates without error: no earlier sequence of
    actions can prevent the module from settling. *)
Theorem link_evaluate_initializes st v :
  reachable name body st -> eval_export_const name body = Ok (name, v) ->
  m_status (run name body st [HostLink; HostEvaluate]) = Evaluated /\
  exists s, m_binding (run name body st [HostLink; HostEvaluate]) = Initialized s.
Proof.
  intros H%reachable_inv Hv. cbn [run step]. unfold lifecycle_inv in H. unfold link, evaluate.
  destruct (m_status st) eqn:Es; simpl.
  - by apply execute_module_ok with v.
  - rewrite Es. by apply execute_module_ok with v.
  - rewrite Es. split; [done|]. naive_solver.
  - rewrite Es. simpl. destruct H as (_ & _ & _ & He). congruence.
Qed.

(** C18 (error): the temporal dead zone: until the module is evaluated,
    every access of an importer that reads the binding (reading an
    entry, assigning an entry or a field of one) throws a
    ReferenceError, while assigning the binding itself throws a
    TypeError, the import binding being immutable and initialized. *)
Theorem tdz_reference_error st i l f v w :
  reachable name body st -> m_status st <> Evaluated ->
  (step name body st (ReadEntry i l)).2 = Err ReferenceError /\
  (step name body st (AssignEntry i l v)).2 = Err ReferenceError /\
  (step name body st (AssignField i l f v)).2 = Err ReferenceError /\
  (step name body st (AssignBinding i w)).2 = Err TypeError.
Proof.
  intros H%reachable_inv Hs.
  assert (Hb : read_binding st = Err ReferenceError).
  { unfold read_binding. unfold lifecycle_inv in H.
    destruct (m_status st); [| |done|]; destruct H as (_ & -> & _); done. }
  simpl. unfold read_entry, assign_entry, assign_field, update_table. by rewrite Hb.
Qed.

(** C19 (invariant): once initialized, the binding keeps designating the
    same object or value for the rest of the program, whatever the host
    and the importers do: [sampleCode] itself is never rebound. *)
Theorem binding_never_rebound st s tr :
  reachable name body st -> m_binding st = Initialized s ->
  m_binding (run name body st tr) = Initialized s.
Proof.
  induction tr as [|a tr IH] in st |- *; simpl; [done|]. intros Hr Hb.
  apply IH; [by constructor|]. by apply step_binding; [apply reachable_inv|].
Qed.

End Properties.

(** C20 (safety): the table is one object shared by all importers, and
    it is not immutable (spec.md §3): after the host links and evaluates
    [sample-code.ts], any importer [i] can replace the entry of any label
    other than [__proto__], and every importer [j] then reads the new
    entry, while the module body has still run once. *)
Theorem sampleCode_shared_by_importers i j l e :
  l <> str "__proto__" ->
  (step (str "sampleCode") sampleCode_expr
     (run (str "sampleCode") sampleCode_expr init_state
          [HostLink; HostEvaluate; AssignEntry i l (entry_value e)])
     (ReadEntry j l)).2 = Ok (Some (entry_value e)) /\
  m_runs (run (str "sampleCode") sampleCode_expr init_state
              [HostLink; HostEvaluate; AssignEntry i l (entry_value e)]) = 1.
Proof.
  intros Hl. destruct (table_object_set_ok sample_table l (entry_value e) Hl) as [o' Ho'].
  pose proof (assign_single _ _ _ _ Ho') as Ha.
  assert (Hst : run (str "sampleCode") sampleCode_expr init_state
                    [HostLink; HostEvaluate; AssignEntry i l (entry_value e)]
                = mk_mstate Evaluated (Initialized (SRef 0)) [o'] 1).
  { change [HostLink; HostEvaluate; AssignEntry i l (entry_value e)]
      with ([HostLink; HostEvaluate] ++ [AssignEntry i l (entry_value e)]).
    rewrite run_app, (link_evaluate_object _ _ _ sampleCode_export_value).
    cbn [run step]. by rewrite Ha. }
  rewrite Hst. split; [|done]. cbn [step]. by rewrite (assign_then_read _ _ _ _ Ha).
Qed.

(** [[Set]] of [code] on an entry object replaces its code, in place. *)
Lemma entry_set_code e s :
  exists eo eo', entry_value e = VObject eo /\ entry_value (mk_entry (language e) s) = VObject eo' /\
                 ordinary_set eo (str "code") (VString s) = Ok (Some eo').
Proof. destruct e as [lang c]. by eexists _, _. Qed.

Lemma set_entry_field_table t l e s :
  NoDup (map fst t) -> table_get t l = Some e ->
  set_entry_field (table_object t) l (str "code") (VString s)
  = Ok (Some (set_value (table_object t) l (entry_value (mk_entry (language e) s)))).
Proof.
  intros Hnd He. unfold set_entry_field. rewrite (table_object_own _ _ _ Hnd He). cbn [pr_value].
  destruct (entry_set_code e s) as (eo & eo' & -> & -> & Hs). by rewrite Hs.
Qed.

Lemma get_set_value_own o l v p :
  get_own_property o l = Some p -> get (set_value o l v) l = v.
Proof. intros Hp. apply (get_own_get _ _ (mk_prop v (pr_writable p) (pr_enumerable p) (pr_configurable p))).
  by rewrite set_value_get_own, decide_True, Hp. Qed.

(** C21 (safety): the entries are not immutable either (spec.md §3):
    after the host links and evaluates [sample-code.ts], an importer's
    [sampleCode[label].code = s] on a declared label changes the entry
    object in place, and every importer then reads the entry with the
    same language and the new code. *)
Theorem sampleCode_entry_code_writable i j l e s :
  table_get sample_table l = Some e ->
  (step (str "sampleCode") sampleCode_expr
     (run (str "sampleCode") sampleCode_expr init_state
          [HostLink; HostEvaluate; AssignField i l (str "code") (VString s)])
     (ReadEntry j l)).2 = Ok (Some (entry_value (mk_entry (language e) s))).
Proof.
  intros He. pose proof (set_entry_field_table _ _ _ s sample_table_distinct He) as Hf.
  change [HostLink; HostEvaluate; AssignField i l (str "code") (VString s)]
    with ([HostLink; HostEvaluate] ++ [AssignField i l (str "code") (VString s)]).
  rewrite run_app, (link_evaluate_object _ _ _ sampleCode_export_value).
  cbn [run step]. unfold assign_field. rewrite (update_single _ _ _ Hf).
  cbn [step fst snd]. rewrite read_single. cbn [bind]. do 2 f_equal.
  apply (get_set_value_own _ _ _ (mk_prop (entry_value e) true true true)).
  exact (table_object_own _ _ _ sample_table_distinct He).
Qed.

(** ** Witnesses, on the module [sample-code.ts] *)

(** The module record after the host's Link() and Evaluate(). *)
Definition sample_evaluated : mstate :=
  run (str "sampleCode") sampleCode_expr init_state [HostLink; HostEvaluate].

Lemma sample_evaluated_reachable : reachable (str "sampleCode") sampleCode_expr sample_evaluated.
Proof. apply reachable_run, reach_init. Qed.

Lemma sample_evaluated_state :
  sample_evaluated = mk_mstate Evaluated (Initialized (SRef 0)) [table_object sample_table] 1.
Proof. exact (link_evaluate_object _ _ _ sampleCode_export_value). Qed.

Lemma module_body_runs_once_witness :
  reachable (str "sampleCode") sampleCode_expr sample_evaluated /\
  (m_runs sample_evaluated <= 1 /\
   (m_runs sample_evaluated = 0 <-> m_status sample_evaluated = Unlinked \/ m_status sample_evaluated = Linked) /\
   ((exists s, m_binding sample_evaluated = Initialized s) <-> m_status sample_evaluated = Evaluated)).
Proof.
  split; [exact sample_evaluated_reachable|].
  exact (module_body_runs_once _ _ _ sample_evaluated_reachable).
Defined.

Lemma link_evaluate_initializes_witness :
  reachable (str "sampleCode") sampleCode_expr init_state /\
  eval_export_const (str "sampleCode") sampleCode_expr = Ok (str "sampleCode", VObject (table_object sample_table)) /\
  (m_status (run (str "sampleCode") sampleCode_expr init_state [HostLink; HostEvaluate]) = Evaluated /\
   exists s, m_binding (run (str "sampleCode") sampleCode_expr init_state [HostLink; HostEvaluate]) = Initialized s).
Proof.
  assert (H1 : reachable (str "sampleCode") sampleCode_expr init_state) by constructor.
  assert (H2 : eval_export_const (str "sampleCode") sampleCode_expr
               = Ok (str "sampleCode", VObject (table_object sample_table))) by exact sampleCode_export_value.
  split; [exact H1|]. split; [exact H2|]. exact (link_evaluate_initializes _ _ _ _ H1 H2).
Defined.

Lemma tdz_reference_error_witness :
  reachable (str "sampleCode") sampleCode_expr init_state /\ m_status init_state <> Evaluated /\
  ((step (str "sampleCode") sampleCode_expr init_state (ReadEntry 0 (str "Rust"))).2 = Err ReferenceError /\
   (step (str "sampleCode") sampleCode_expr init_state (AssignEntry 0 (str "Rust") VNull)).2 = Err ReferenceError /\
   (step (str "sampleCode") sampleCode_expr init_state (AssignField 0 (str "Rust") (str "code") VNull)).2
     = Err ReferenceError /\
   (step (str "sampleCode") sampleCode_expr init_state (AssignBinding 0 VNull)).2 = Err TypeError).
Proof.
  assert (H1 : reachable (str "sampleCode") sampleCode_expr init_state) by constructor.
  assert (H2 : m_status init_state <> Evaluated) by discriminate.
  split; [exact H1|]. split; [exact H2|]. exact (tdz_reference_error _ _ _ 0 _ (str "code") VNull VNull H1 H2).
Defined.

Lemma binding_never_rebound_witness :
  reachable (str "sampleCode") sampleCode_expr sample_evaluated /\
  m_binding sample_evaluated = Initialized (SRef 0) /\
  m_binding (run (str "sampleCode") sampleCode_expr sample_evaluated
                 [AssignEntry 0 (str "Rust") VNull; HostEvaluate; AssignBinding 1 VNull])
  = Initialized (SRef 0).
Proof.
  assert (H2 : m_binding sample_evaluated = Initialized (SRef 0)) by (rewrite sample_evaluated_state; reflexivity).
  split; [exact sample_evaluated_reachable|]. split; [exact H2|].
  exact (binding_never_rebound _ _ _ _ _ sample_evaluated_reachable H2).
Defined.

Lemma sampleCode_shared_by_importers_witness :
  str "Swift" <> str "__proto__" /\
  (step (str "sampleCode") sampleCode_expr
     (run (str "sampleCode") sampleCode_expr init_state
          [HostLink; HostEvaluate; AssignEntry 0 (str "Swift") (entry_value (mk_entry (str "swift") (str "let x = 1")))])
     (ReadEntry 1 (str "Swift"))).2 = Ok (Some (entry_value (mk_entry (str "swift") (str "let x = 1")))) /\
  m_runs (run (str "sampleCode") sampleCode_expr init_state
              [HostLink; HostEvaluate; AssignEntry 0 (str "Swift") (entry_value (mk_entry (str "swift") (str "let x = 1")))]) = 1.
Proof.
  assert (H : str "Swift" <> str "__proto__") by discriminate.
  split; [exact H|]. exact (sampleCode_shared_by_importers 0 1 _ _ H).
Defined.

Lemma sampleCode_entry_code_writable_witness :
  table_get sample_table (str "Rust") = Some (mk_entry (str "rust") (join_lines rust_code_lines)) /\
  (step (str "sampleCode") sampleCode_expr
     (run (str "sampleCode") sampleCode_expr init_state
          [HostLink; HostEvaluate; AssignField 0 (str "Rust") (str "code") (VString (str "fn main() {}"))])
     (ReadEntry 1 (str "Rust"))).2
  = Ok (Some (entry_value (mk_entry (language (mk_entry (str "rust") (join_lines rust_code_lines)))
                                    (str "fn main() {}")))).
Proof.
  assert (H : table_get sample_table (str "Rust") = Some (mk_entry (str "rust") (join_lines rust_code_lines)))
    by reflexivity.
  split; [exact H|]. exact (sampleCode_entry_code_writable 0 1 _ _ _ H).
Defined.

End Lifecycle.
