(* ===== verification/RegistrySim.v ===== *)
(** * The module instance refines the registry of the spec

    spec.md §3 and §4.1 describe the registry as a state machine with a
    single transition: it is absent until it is constructed, once, from
    the declared table, and it never changes afterwards; [get] and
    [entries] read it.  [reg_step] is that machine.  [registry_sim]
    relates a state of the module record of [Lifecycle.v] to a state of
    it, in the style of a simulation
    relation: the registry is absent while the module is not evaluated,
    and it is the table [t] once the binding designates an object whose
    Object.entries and [[Get]] read as [t].

    The main theorem is a forward simulation: every step of the host or
    of an importer that does not write through the binding is matched by
    a step of the registry; reads then agree with the table (C23).  The
    writes are exactly where the code departs from the spec (C20, C21). *)

From Stdlib Require Import ZArith Lia String.
From stdpp Require Import base list decidable sets strings.
From S2P Require Import Prelude Unicode Lexical JsObject ObjectLiteral Registry SampleCode Lifecycle.
Import JsObject Literal Registry SampleCode Lifecycle.
Open Scope js_scope.

Module RegistrySim.

(** The registry of spec.md §3: absent, or ready with its table. *)
Inductive reg_state :=
  | RegAbsent
  | RegReady (t : list (jsstr * sample_entry)).

(** Its transitions: nothing happens, or it is constructed from the
    declared table [t0] (once: a ready registry has no transition). *)
Inductive reg_step (t0 : list (jsstr * sample_entry)) : reg_state -> reg_state -> Prop :=
  | reg_stutter r : reg_step t0 r r
  | reg_construct : reg_step t0 RegAbsent (RegReady t0).

(** The actions that write through the binding. *)
Definition is_write (a : action) : bool :=
  match a with
  | AssignEntry _ _ _ | AssignField _ _ _ _ => true
  | _ => false
  end.

Section Simulation.
Variable name : jsstr.
Variable body : expr.

(** The simulation relation. *)
Definition registry_sim (st : mstate) (r : reg_state) : Prop :=
  lifecycle_inv name body st /\
  match r with
  | RegAbsent => m_status st <> Evaluated
  | RegReady t =>
      m_status st = Evaluated /\
      exists o, m_binding st = Initialized (SRef 0) /\ m_heap st = [o] /\
                registry_entries o = t /\ forall l, registry_get o l = table_get t l
  end.

Lemma step_nowrite_evaluated st a :
  m_status st = Evaluated -> is_write a = false -> (step name body st a).1 = st.
Proof.
  intros Hs. destruct a; simpl; try done.
  - unfold link. by rewrite Hs.
  - unfold evaluate. by rewrite Hs.
Qed.

Lemma registry_sim_init : registry_sim init_state RegAbsent.
Proof. by split. Qed.

Context (t : list (jsstr * sample_entry)).
Hypothesis Hbody : eval_export_const name body = Ok (name, VObject (table_object t)).
Hypothesis Hnd : NoDup (map fst t).
Hypothesis Hni : Forall (fun l => is_array_index l = false) (map fst t).

Lemma registry_sim_absent_step st a :
  registry_sim st RegAbsent -> is_write a = false ->
  exists r', reg_step t RegAbsent r' /\ registry_sim (step name body st a).1 r'.
Proof.
  intros [Hinv Hs] Hw. pose proof (step_inv name body st a Hinv) as Hinv'.
  destruct a as [| |i l|i l v|i l f v|i v]; try done; simpl in *.
  - exists RegAbsent. split; [constructor|split; [done|]].
    unfold link. destruct (m_status st) eqn:E; simpl; congruence.
  - unfold evaluate in *. destruct (m_status st) eqn:Es; try done.
    1,3: exists RegAbsent; split; [constructor|]; split; [exact Hinv'|simpl; congruence].
    unfold lifecycle_inv in Hinv. rewrite Es in Hinv. destruct Hinv as (Hr & Hb & Hh).
    exists (RegReady t). split; [constructor|]. split; [exact Hinv'|].
    unfold execute_module. rewrite Hbody. simpl. split; [done|].
    exists (table_object t). rewrite Hh. split_and!; [done|done|by apply table_object_entries_decl|].
    intros l. by apply table_object_get.
  - exists RegAbsent. split; [constructor|]. by split.
  - exists RegAbsent. split; [constructor|]. by split.
Qed.

Lemma registry_sim_step st r a :
  registry_sim st r -> is_write a = false ->
  exists r', reg_step t r r' /\ registry_sim (step name body st a).1 r'.
Proof.
  destruct r as [|t']; intros Hsim Hw; [by apply registry_sim_absent_step|].
  exists (RegReady t'). split; [constructor|].
  destruct Hsim as [Hinv [Hs Ho]]. rewrite step_nowrite_evaluated by done. by split.
Qed.

(** C22 (refinement): the module record of [export const name = body],
    whose initializer builds the object of a table [t] with distinct
    labels, none an array index, simulates the registry of the spec:
    the initial states are related, and every step that does not write
    through the binding is matched by a step of the registry (nothing,
    or the one construction from [t]) with the states still related. *)
Theorem module_refines_registry :
  registry_sim init_state RegAbsent /\
  forall st r a, registry_sim st r -> is_write a = false ->
    exists r', reg_step t r r' /\ registry_sim (step name body st a).1 r'.
Proof. split; [exact registry_sim_init|exact registry_sim_step]. Qed.

(** Along a sequence of steps without writes, the registry related to
    the module is absent or the table [t]. *)
Lemma registry_sim_run st r tr :
  registry_sim st r -> (r = RegAbsent \/ r = RegReady t) ->
  Forall (fun a => is_write a = false) tr ->
  exists r', registry_sim (run name body st tr) r' /\ (r' = RegAbsent \/ r' = RegReady t).
Proof.
  intros Hsim Hr Hw. induction Hw as [|a tr Ha _ IH] in st, r, Hsim, Hr |- *; [eauto|]. simpl.
  destruct (registry_sim_step _ _ _ Hsim Ha) as (r' & Hstep & Hsim').
  apply (IH _ r'); [done|]. destruct Hstep; auto.
Qed.

End Simulation.

(** C23 (refinement): for [sample-code.ts], after any sequence of host
    and importer actions that does not write through the binding, an
    importer's [sampleCode[label]] either throws a ReferenceError (the
    module is not evaluated yet) or reads as the declared table's entry
    for [label], absent when the label is undeclared: get(label) of
    spec.md §4.1 holds, with the same answer, at every point of the
    module's lifetime. *)
Theorem sampleCode_reads_match_table tr i l :
  Forall (fun a => is_write a = false) tr ->
  (step (str "sampleCode") sampleCode_expr (run (str "sampleCode") sampleCode_expr init_state tr)
        (ReadEntry i l)).2 = Err ReferenceError \/
  exists v, (step (str "sampleCode") sampleCode_expr (run (str "sampleCode") sampleCode_expr init_state tr)
                  (ReadEntry i l)).2 = Ok (Some v) /\ entry_of_value v = table_get sample_table l.
Proof.
  intros Hw.
  destruct (registry_sim_run _ _ _ sampleCode_export_value sample_table_distinct sample_table_no_index
              _ _ tr (registry_sim_init _ _) (or_introl eq_refl) Hw) as (r & Hsim & [-> | ->]).
  all: remember (run (str "sampleCode") sampleCode_expr init_state tr) as st eqn:Est; clear Est.
  - left. destruct Hsim as [Hinv Hs]. unfold lifecycle_inv in Hinv. cbn [step snd].
    unfold read_entry, read_binding. destruct (m_status st); [| |done|]; by destruct Hinv as (_ & -> & _).
  - right. destruct Hsim as [_ (_ & o & Hb & Hh & _ & Hg)]. exists (get o l).
    cbn [step snd]. unfold read_entry, read_binding. rewrite Hb, Hh. split; [done|]. apply Hg.
Qed.

(** ** Witnesses *)

Lemma module_refines_registry_witness :
  eval_export_const (str "sampleCode") sampleCode_expr
    = Ok (str "sampleCode", VObject (table_object sample_table)) /\
  NoDup (map fst sample_table) /\ Forall (fun l => is_array_index l = false) (map fst sample_table) /\
  (registry_sim (str "sampleCode") sampleCode_expr init_state RegAbsent /\
   forall st r a, registry_sim (str "sampleCode") sampleCode_expr st r -> is_write a = false ->
     exists r', reg_step sample_table r r' /\
                registry_sim (str "sampleCode") sampleCode_expr (step (str "sampleCode") sampleCode_expr st a).1 r').
Proof.
  split; [exact sampleCode_export_value|]. split; [exact sample_table_distinct|].
  split; [exact sample_table_no_index|].
  exact (module_refines_registry _ _ _ sampleCode_export_value sample_table_distinct sample_table_no_index).
Defined.

Lemma sampleCode_reads_match_table_witness :
  Forall (fun a => is_write a = false) [HostLink; ReadEntry 0 (str "Rust"); HostEvaluate; AssignBinding 1 VNull] /\
  ((step (str "sampleCode") sampleCode_expr
         (run (str "sampleCode") sampleCode_expr init_state
              [HostLink; ReadEntry 0 (str "Rust"); HostEvaluate; AssignBinding 1 VNull])
         (ReadEntry 2 (str "Swift"))).2 = Err ReferenceError \/
   exists v, (step (str "sampleCode") sampleCode_expr
                   (run (str "sampleCode") sampleCode_expr init_state
                        [HostLink; ReadEntry 0 (str "Rust"); HostEvaluate; AssignBinding 1 VNull])
                   (ReadEntry 2 (str "Swift"))).2 = Ok (Some v) /\
             entry_of_value v = table_get sample_table (str "Swift")).
Proof.
  assert (H : Forall (fun a => is_write a = false)
                [HostLink; ReadEntry 0 (str "Rust"); HostEvaluate; AssignBinding 1 VNull])
    by repeat constructor.
  split; [exact H|]. exact (sampleCode_reads_match_table _ 2 _ H).
Defined.

End RegistrySim.
