(* ===== verification/HeapModule.v ===== *)
(** * The module instance on a heap of objects

    [Lifecycle.v] keeps the object [sampleCode] designates as one value
    whose entries are objects inside it.  Here the module record runs on
    the heap of [Heap.v]: the body allocates the table and its four
    entries as cells of their own ([heval_export_const]), the binding
    holds a reference, and an importer may also keep what it read in a
    constant of its own ([const x = sampleCode[label]], [HCopyEntry]) and
    read it later ([x[field]], [HReadLocal]).  The right-hand sides of the
    importers' assignments are expressions, evaluated on the heap.

    Two groups of theorems:
    - the simulation ([hsim], [heap_refines_lifecycle]): every action of the heap model is an
      action of [Lifecycle.v] on the value its expression evaluates to
      (or leaves the state of [Lifecycle.v] as it is), with the same
      results, the values read on the heap reading as those of
      [Lifecycle.v]; so the theorems of [Lifecycle.v] and [RegistrySim.v]
      hold of the module with reference semantics;
    - aliasing (C24): an entry an importer keeps is the table's entry
      itself, so it shows another importer's writes to its fields, and
      keeps the old entry when another importer replaces it. *)

From Stdlib Require Import ZArith Lia String.
From stdpp Require Import base list decidable sets strings.
From S2P Require Import Prelude Lexical JsObject ObjectLiteral Heap Registry SampleCode Lifecycle.
Import JsObject Literal Heap Registry SampleCode Lifecycle.
Open Scope js_scope.
Open Scope nat_scope.

Module HeapModule.

Inductive hbinding :=
  | HBAbsent
  | HBUninitialized
  | HBInitialized (v : hvalue).

Record hstate := mk_hstate {
  h_status : module_status;
  h_binding : hbinding;
  h_heap : heap;
  h_runs : nat;
  h_locals : list ((nat * jsstr) * hvalue) }.   (* the constants importers declared, innermost first *)

Definition hinit : hstate := mk_hstate Unlinked HBAbsent [] 0 [].

Inductive haction :=
  | HHostLink
  | HHostEvaluate
  | HReadEntry (importer : nat) (label : jsstr)                     (* sampleCode[label] *)
  | HAssignEntry (importer : nat) (label : jsstr) (e : expr)        (* sampleCode[label] = e *)
  | HAssignField (importer : nat) (label field : jsstr) (e : expr)  (* sampleCode[label][field] = e *)
  | HAssignBinding (importer : nat) (e : expr)                      (* sampleCode = e *)
  | HCopyEntry (importer : nat) (x label : jsstr)                   (* const x = sampleCode[label] *)
  | HReadLocal (importer : nat) (x field : jsstr).                  (* x[field] *)

Definition with_heap (st : hstate) (h : heap) : hstate :=
  mk_hstate (h_status st) (h_binding st) h (h_runs st) (h_locals st).

Section Host.
Variable name : jsstr.
Variable body : expr.

Definition hlink (st : hstate) : hstate :=
  match h_status st with
  | Unlinked => mk_hstate Linked HBUninitialized (h_heap st) (h_runs st) (h_locals st)
  | _ => st
  end.

(** ExecuteModule: the initializer allocates its objects as it runs. *)
Definition hexecute_module (st : hstate) : hstate * result (option hvalue) :=
  match heval_export_const (h_heap st) name body with
  | Ok (h', (_, v)) => (mk_hstate Evaluated (HBInitialized v) h' (S (h_runs st)) (h_locals st), Ok None)
  | Err e => (mk_hstate (EvaluatedError e) (h_binding st) (h_heap st) (S (h_runs st)) (h_locals st), Err e)
  end.

Definition hevaluate (st : hstate) : hstate * result (option hvalue) :=
  match h_status st with
  | Unlinked => (st, Err (Unsupported "Evaluate() before Link()"%string))
  | Linked => hexecute_module st
  | Evaluated => (st, Ok None)
  | EvaluatedError e => (st, Err e)
  end.

Definition hread_binding (st : hstate) : result hvalue :=
  match h_binding st with
  | HBInitialized v => Ok v
  | _ => Err ReferenceError
  end.

(** [v[l]]: [[Get]] on the object [v] designates; undefined and null
    have no properties. *)
Definition hget_value (h : heap) (v : hvalue) (l : jsstr) : result hvalue :=
  match v with
  | HRef loc =>
      match h !! loc with
      | Some o => Ok (hget o l)
      | None => Err (Unsupported "dangling reference"%string)
      end
  | HUndefined | HNull => Err TypeError
  | _ => Err (Unsupported "property of a primitive"%string)
  end.

Definition hread_entry (st : hstate) (l : jsstr) : result hvalue :=
  b <- hread_binding st ;; hget_value (h_heap st) b l.

(** [sampleCode[l] = e]: the binding is read, the right-hand side
    evaluated, then [[Set]] on the table. *)
Definition hassign_entry (st : hstate) (l : jsstr) (e : expr) : result hstate :=
  b <- hread_binding st ;;
  r <- heval_expr (h_heap st) e ;;
  match b with
  | HRef loc => h' <- heap_set r.1 loc l r.2 ;; Ok (with_heap st h')
  | _ => Err (Unsupported "property of a primitive"%string)
  end.

(** [sampleCode[l][f] = e]: [sampleCode[l]] is read, the right-hand side
    evaluated, then [[Set]] on the entry, a string base refusing it. *)
Definition hassign_field (st : hstate) (l f : jsstr) (e : expr) : result hstate :=
  base <- hread_entry st l ;;
  r <- heval_expr (h_heap st) e ;;
  match base with
  | HRef loc => h' <- heap_set r.1 loc f r.2 ;; Ok (with_heap st h')
  | HIntrinsic _ => Err (Unsupported "write to a built-in object"%string)
  | _ => Err TypeError
  end.

(** [const x = sampleCode[l]] in a block of importer [i]. *)
Definition hcopy_entry (st : hstate) (i : nat) (x l : jsstr) : result hstate :=
  v <- hread_entry st l ;;
  Ok (mk_hstate (h_status st) (h_binding st) (h_heap st) (h_runs st) (((i, x), v) :: h_locals st)).

(** [x[f]] in importer [i]. *)
Definition hread_local (st : hstate) (i : nat) (x f : jsstr) : result hvalue :=
  match assoc (i, x) (h_locals st) with
  | Some v => hget_value (h_heap st) v f
  | None => Err ReferenceError
  end.

Definition commit (st : hstate) (r : result hstate) : hstate * result (option hvalue) :=
  match r with
  | Ok st' => (st', Ok None)
  | Err e => (st, Err e)
  end.

Definition hstep (st : hstate) (a : haction) : hstate * result (option hvalue) :=
  match a with
  | HHostLink => (hlink st, Ok None)
  | HHostEvaluate => hevaluate st
  | HReadEntry _ l => (st, v <- hread_entry st l ;; Ok (Some v))
  | HAssignEntry _ l e => commit st (hassign_entry st l e)
  | HAssignField _ l f e => commit st (hassign_field st l f e)
  | HAssignBinding _ e =>
      (* the right-hand side is evaluated, then PutValue on the immutable
         import binding throws a TypeError *)
      (st, r <- heval_expr (h_heap st) e ;; Err TypeError)
  | HCopyEntry i x l => commit st (hcopy_entry st i x l)
  | HReadLocal i x f => (st, v <- hread_local st i x f ;; Ok (Some v))
  end.

Fixpoint hrun (st : hstate) (tr : list haction) : hstate :=
  match tr with
  | [] => st
  | a :: tr' => hrun (hstep st a).1 tr'
  end.

End Host.

(** ** The simulation of [Lifecycle.v] *)

(** The binding of [Lifecycle.v] holds an object of its heap exactly
    when the binding here holds a reference that reads as it, and a
    string when it holds the same string (the initializers of the file
    evaluate to objects or strings). *)
Definition slot_rel (h : heap) (mh : list (object value)) (v : hvalue) (s : slot) : Prop :=
  match s with
  | SRef loc => exists r o, v = HRef r /\ mh !! loc = Some o /\ deref (length h) h (HRef r) = VObject o
  | SVal v' => exists str, v = HString str /\ v' = VString str
  end.

Definition binding_rel (h : heap) (mh : list (object value)) (b : hbinding) (b' : binding) : Prop :=
  match b, b' with
  | HBAbsent, Absent | HBUninitialized, Uninitialized => True
  | HBInitialized v, Initialized s => slot_rel h mh v s
  | _, _ => False
  end.

Definition hsim (hs : hstate) (ms : mstate) : Prop :=
  h_status hs = m_status ms /\ h_runs hs = m_runs ms /\ wf_heap (h_heap hs) /\ heap_ok (h_heap hs) /\
  binding_rel (h_heap hs) (m_heap ms) (h_binding hs) (m_binding ms).

Definition ok_value {A} (r : result A) : option A := match r with Ok a => Some a | Err _ => None end.

(** The action of [Lifecycle.v] an action of the heap model performs on
    the shared instance: an assignment writes the value its right-hand
    side evaluates to; the importers' own constants are not shared. *)
Definition lifecycle_action (a : haction) : option action :=
  match a with
  | HHostLink => Some HostLink
  | HHostEvaluate => Some HostEvaluate
  | HReadEntry i l => Some (ReadEntry i l)
  | HAssignEntry i l e => AssignEntry i l <$> ok_value (eval_expr e)
  | HAssignField i l f e => AssignField i l f <$> ok_value (eval_expr e)
  | HAssignBinding i e => AssignBinding i <$> ok_value (eval_expr e)
  | HCopyEntry _ _ _ | HReadLocal _ _ _ => None
  end.

(** Results agree: the same errors, and a value read on the heap reads
    as the value of [Lifecycle.v]. *)
Definition result_rel (h : heap) (r : result (option hvalue)) (r' : result (option value)) : Prop :=
  match r, r' with
  | Ok None, Ok None => True
  | Ok (Some hv), Ok (Some v) => deref (length h) h hv = v
  | Err e, Err e' => e = e'
  | _, _ => False
  end.

Lemma hsim_init : hsim hinit init_state.
Proof. split_and!; [done|done|exact wf_heap_nil|exact heap_ok_nil|done]. Qed.

Lemma hsim_read_binding hs ms :
  hsim hs ms ->
  (hread_binding hs = Err ReferenceError /\ read_binding ms = Err ReferenceError) \/
  exists v s, hread_binding hs = Ok v /\ read_binding ms = Ok s /\
    h_binding hs = HBInitialized v /\ m_binding ms = Initialized s /\ slot_rel (h_heap hs) (m_heap ms) v s.
Proof.
  intros (_ & _ & _ & _ & Hb). unfold hread_binding, read_binding.
  destruct (h_binding hs) as [| |v], (m_binding ms) as [| |s]; simpl in Hb; try contradiction;
    [by left|by left|right; by exists v, s].
Qed.

(** The state of [Lifecycle.v] is a function of what [hsim] relates. *)
Lemma hsim_ext hs hs' ms :
  hsim hs ms -> h_status hs' = h_status hs -> h_runs hs' = h_runs hs -> h_heap hs' = h_heap hs ->
  h_binding hs' = h_binding hs -> hsim hs' ms.
Proof. intros Hsim E1 E2 E3 E4. unfold hsim in *. by rewrite E1, E2, E3, E4. Qed.

Lemma hsim_read_entry hs ms l :
  hsim hs ms ->
  match hread_entry hs l, read_entry ms l with
  | Ok hv, Ok v => deref (length (h_heap hs)) (h_heap hs) hv = v
  | Err e, Err e' => e = e'
  | _, _ => False
  end.
Proof.
  intros Hsim. pose proof Hsim as (_ & _ & Hwf & _ & _). unfold hread_entry, read_entry.
  destruct (hsim_read_binding _ _ Hsim) as [[-> ->]|(v & s & -> & -> & _ & _ & Hs)]; [done|]. simpl.
  destruct s as [loc|v']; simpl in Hs; [|by destruct Hs as (? & -> & ->)].
  destruct Hs as (r & o & -> & Hloc & Hd). rewrite Hloc.
  destruct (obs_cell _ _ _ Hwf Hd) as (t & Ht & ->). simpl. rewrite Ht. apply deref_hget.
Qed.

(** What [sampleCode[l]] designates when it reads as a reference: a
    cell allocated after the table's. *)
Lemma hread_entry_ref st l c :
  wf_heap (h_heap st) -> hread_entry st l = Ok (HRef c) ->
  exists r t, h_binding st = HBInitialized (HRef r) /\ h_heap st !! r = Some t /\
              S r <= c < length (h_heap st).
Proof.
  intros Hwf. unfold hread_entry, hread_binding.
  destruct (h_binding st) as [| |[| | | |r]]; simpl; try done.
  destruct (h_heap st !! r) as [t|] eqn:Ht; simpl; [|done]. intros [= Hg]. exists r, t. split; [done|split; [done|]].
  destruct (get_own_property t l) as [p|] eqn:Hp.
  - unfold hget in Hg. rewrite Hp in Hg. pose proof (wf_heap_prop _ _ _ _ Hwf Ht (assoc_elem _ _ _ Hp)) as Hc.
    simpl in Hc. by rewrite Hg in Hc.
  - pose proof (hget_inherited t l Hp) as Hn. by rewrite Hg in Hn.
Qed.

(** Reading a constant just declared. *)
Lemma hread_local_copied st i x v f h :
  hread_local (mk_hstate (h_status st) (h_binding st) h (h_runs st) (((i, x), v) :: h_locals st)) i x f
  = hget_value h v f.
Proof. unfold hread_local. simpl. by rewrite decide_True. Qed.

Section Sim.
Variable name : jsstr.
Variable body : expr.

Lemma hsim_link hs ms : hsim hs ms -> hsim (hlink hs) (link ms).
Proof.
  intros Hsim. pose proof Hsim as (Hst & Hru & Hwf & Hok & Hb). unfold hlink, link. rewrite Hst.
  destruct (m_status ms); try done; unfold hsim; simpl; by split_and!.
Qed.

Lemma hsim_evaluate hs ms :
  hsim hs ms ->
  hsim (hevaluate name body hs).1 (evaluate name body ms).1 /\
  result_rel (h_heap (hevaluate name body hs).1) (hevaluate name body hs).2 (evaluate name body ms).2.
Proof.
  intros Hsim. pose proof Hsim as (Hst & Hru & Hwf & Hok & Hb).
  unfold hevaluate, evaluate. rewrite Hst. destruct (m_status ms); try (split; [exact Hsim|done]).
  unfold hexecute_module, execute_module, heval_export_const, eval_export_const.
  destruct (eval_expr body) as [v|err] eqn:Ev; simpl.
  - destruct (heval_of_eval body (h_heap hs) v Hwf Hok Ev) as (h' & hv & -> & Hwf' & Hok' & _ & _ & _ & Hd).
    simpl. split; [|by destruct (eval_expr_shape _ _ Ev) as [(? & ->)|(? & ->)]].
    destruct (eval_expr_shape _ _ Ev) as [(str & ->)|(o & ->)]; unfold hsim; simpl; split_and!; try done; try lia.
    + exists str. split; [by apply deref_string in Hd|done].
    + destruct (deref_object _ _ _ _ Hd) as [r ->]. exists r, o. split_and!; [done| |done].
      by rewrite list_lookup_middle.
  - rewrite (heval_of_eval_err _ _ _ Hwf Ev). simpl. split; [|done].
    unfold hsim. simpl. split_and!; try done. lia.
Qed.

Lemma hsim_assign_entry hs ms l e v :
  hsim hs ms -> eval_expr e = Ok v ->
  match hassign_entry hs l e, assign_entry ms l v with
  | Ok hs', Ok ms' => hsim hs' ms'
  | Err err, Err err' => err = err'
  | _, _ => False
  end.
Proof.
  intros Hsim Ev. pose proof Hsim as (Hst & Hru & Hwf & Hok & _).
  unfold hassign_entry, assign_entry, update_table.
  destruct (hsim_read_binding _ _ Hsim) as [[-> ->]|(b & s & -> & -> & Hb & Hb' & Hs)]; [done|]. simpl.
  destruct (heval_of_eval e _ v Hwf Hok Ev) as (h2 & hv & -> & Hwf2 & Hok2 & Hext & Hr & Hfresh & Hd). simpl.
  destruct s as [loc|v']; simpl in Hs; [|by destruct Hs as (? & -> & ->)].
  destruct Hs as (r & o & -> & Hloc & Hdo). rewrite Hloc.
  destruct (obs_cell _ _ _ Hwf Hdo) as (t & Ht & ->). pose proof (lookup_lt_Some _ _ _ Ht).
  rewrite (map_object_extends _ h2 r t Hwf Hext Ht), <- Hd.
  assert (Ht2 : h2 !! r = Some t) by (rewrite (proj2 Hext); done).
  pose proof (heap_set_sim h2 r t l hv Hwf2 Hok2 Ht2 ltac:(eapply refs_in_weaken; [| |exact Hr]; lia) Hfresh)
    as Hset.
  destruct (ordinary_set _ l _) as [[o'|]|err]; simpl; [|by rewrite Hset|by rewrite Hset].
  destruct Hset as (t' & -> & Hwf3 & Hok3 & Hd3). simpl.
  unfold hsim, with_heap. simpl. rewrite Hb, Hb'. split_and!; try done. simpl.
  exists r, o'. split_and!; [done| |by rewrite length_insert].
  apply list_lookup_insert_eq. by eapply lookup_lt_Some.
Qed.

Lemma hsim_assign_field hs ms l f e v :
  hsim hs ms -> eval_expr e = Ok v ->
  match hassign_field hs l f e, assign_field ms l f v with
  | Ok hs', Ok ms' => hsim hs' ms'
  | Err err, Err err' => err = err'
  | _, _ => False
  end.
Proof.
  intros Hsim Ev. pose proof Hsim as (Hst & Hru & Hwf & Hok & _).
  unfold hassign_field, assign_field, update_table, hread_entry.
  destruct (hsim_read_binding _ _ Hsim) as [[-> ->]|(b & s & -> & -> & Hb & Hb' & Hs)]; [done|]. simpl.
  destruct s as [loc|v']; simpl in Hs; [|by destruct Hs as (? & -> & ->)].
  destruct Hs as (r & o & -> & Hloc & Hdo). rewrite Hloc.
  destruct (obs_cell _ _ _ Hwf Hdo) as (t & Ht & ->). simpl. rewrite Ht. simpl.
  destruct (heval_of_eval e _ v Hwf Hok Ev) as (h2 & hv & -> & Hwf2 & Hok2 & Hext & Hr & Hfresh & Hd). simpl.
  pose proof (lookup_lt_Some _ _ _ Ht).
  rewrite (map_object_extends _ h2 r t Hwf Hext Ht), <- Hd.
  assert (Ht2 : h2 !! r = Some t) by (rewrite (proj2 Hext); done).
  unfold set_entry_field. rewrite get_own_property_map.
  destruct (get_own_property t l) as [p|] eqn:Hp; simpl.
  - assert (Hg : hget t l = pr_value p) by (unfold hget; by rewrite Hp). rewrite Hg.
    destruct (pr_value p) as [| | | |c] eqn:Hv; try done.
    pose proof (wf_heap_prop _ _ _ _ Hwf Ht (assoc_elem _ _ _ Hp)) as Hc. simpl in Hc. rewrite Hv in Hc.
    simpl in Hc.
    pose proof (heap_field_write h2 r t l p c f hv Hwf2 Hok2 Ht2 Hp Hv
                  ltac:(eapply refs_in_weaken; [| |exact Hr]; lia) Hfresh) as Hfw.
    destruct (deref (length h2) h2 (HRef c)) as [| | | |ec]; try contradiction. simpl.
    destruct (ordinary_set ec f _) as [[e'|]|err]; simpl; [|by rewrite Hfw|by rewrite Hfw].
    destruct Hfw as (h3 & -> & Hwf3 & Hok3 & Hd3). simpl.
    unfold hsim, with_heap. simpl. rewrite Hb, Hb'. split_and!; try done. simpl.
    eexists _, _. split_and!; [done|by apply list_lookup_insert_eq; eapply lookup_lt_Some|exact Hd3].
  - rewrite <- (deref_hget (length h2) h2 t l). pose proof (hget_inherited t l Hp) as Hn.
    by destruct (hget t l).
Qed.

(** Writes whose right-hand side throws change nothing. *)
Lemma hassign_entry_err hs l e err :
  wf_heap (h_heap hs) -> eval_expr e = Err err -> exists err', hassign_entry hs l e = Err err'.
Proof.
  intros Hwf Ev. unfold hassign_entry. destruct (hread_binding hs); simpl; [|eauto].
  rewrite (heval_of_eval_err _ _ _ Hwf Ev). simpl. eauto.
Qed.

Lemma hassign_field_err hs l f e err :
  wf_heap (h_heap hs) -> eval_expr e = Err err -> exists err', hassign_field hs l f e = Err err'.
Proof.
  intros Hwf Ev. unfold hassign_field. destruct (hread_entry hs l); simpl; [|eauto].
  rewrite (heval_of_eval_err _ _ _ Hwf Ev). simpl. eauto.
Qed.

(** One step of the simulation. *)
Lemma hsim_step hs ms a :
  hsim hs ms ->
  match lifecycle_action a with
  | Some a' => hsim (hstep name body hs a).1 (step name body ms a').1 /\
               result_rel (h_heap (hstep name body hs a).1) (hstep name body hs a).2 (step name body ms a').2
  | None => hsim (hstep name body hs a).1 ms
  end.
Proof.
  intros Hsim. pose proof Hsim as (_ & _ & Hwf & Hok & _).
  destruct a as [| |i l|i l e|i l f e|i e|i x l|i x f]; cbn [lifecycle_action hstep step fst snd].
  - split; [by apply hsim_link|done].
  - by apply hsim_evaluate.
  - split; [done|]. pose proof (hsim_read_entry hs ms l Hsim) as H.
    destruct (hread_entry hs l), (read_entry ms l); simpl in *; by subst.
  - destruct (eval_expr e) as [v|err] eqn:Ev; simpl.
    + pose proof (hsim_assign_entry hs ms l e v Hsim Ev) as H.
      destruct (hassign_entry hs l e), (assign_entry ms l v); simpl in *; by subst.
    + by destruct (hassign_entry_err hs l e err Hwf Ev) as [err' ->].
  - destruct (eval_expr e) as [v|err] eqn:Ev; simpl.
    + pose proof (hsim_assign_field hs ms l f e v Hsim Ev) as H.
      destruct (hassign_field hs l f e), (assign_field ms l f v); simpl in *; by subst.
    + by destruct (hassign_field_err hs l f e err Hwf Ev) as [err' ->].
  - destruct (eval_expr e) as [v|err] eqn:Ev; simpl.
    + destruct (heval_of_eval e _ v Hwf Hok Ev) as (h2 & hv & E & _). rewrite E. by split.
    + done.
  - unfold commit, hcopy_entry. destruct (hread_entry hs l); simpl; [|done].
    by apply (hsim_ext hs).
  - done.
Qed.

(** Along any sequence of actions, with the actions of [Lifecycle.v]
    they perform. *)
Lemma hrun_sim hs ms tr :
  hsim hs ms -> hsim (hrun name body hs tr) (run name body ms (omap lifecycle_action tr)).
Proof.
  revert hs ms. induction tr as [|a tr IH]; intros hs ms Hsim; [done|]. simpl.
  pose proof (hsim_step hs ms a Hsim) as H.
  destruct (lifecycle_action a) as [a'|]; simpl; [apply IH, H|by apply IH].
Qed.

Lemma hrun_heap tr : wf_heap (h_heap (hrun name body hinit tr)) /\ heap_ok (h_heap (hrun name body hinit tr)).
Proof. destruct (hrun_sim _ _ tr hsim_init) as (_ & _ & ? & ? & _). by split. Qed.

(** The module record of [Lifecycle.v], whose object
    holds its entries as values, is exact for the module with reference
    semantics, whose body allocates every object in a heap.  After any
    sequence of host and importer actions, the heap model is related to
    [Lifecycle.v] run on the actions they perform on the shared instance
    (assignments writing the value their right-hand side evaluates to;
    the importers' own constants, and assignments whose right-hand side
    throws, performing none): same status, same runs of the body, a
    well-formed heap with distinct references (the entries form a tree)
    whose binding reads as the object of [Lifecycle.v].  And the next
    action gives the same result in both, a value read on the heap
    reading as the value [Lifecycle.v] returns. *)
Theorem heap_refines_lifecycle tr a :
  hsim (hrun name body hinit tr) (run name body init_state (omap lifecycle_action tr)) /\
  match lifecycle_action a with
  | Some a' => result_rel (h_heap (hstep name body (hrun name body hinit tr) a).1)
                 (hstep name body (hrun name body hinit tr) a).2
                 (step name body (run name body init_state (omap lifecycle_action tr)) a').2
  | None => True
  end.
Proof.
  pose proof (hrun_sim _ _ tr hsim_init) as Hsim. split; [exact Hsim|].
  pose proof (hsim_step _ _ a Hsim) as H. destruct (lifecycle_action a); [exact (proj2 H)|done].
Qed.

(** C24 (safety): after any sequence of actions, an importer that keeps
    an entry of the table in a constant ([const x = sampleCode[l]]) holds
    the table's entry itself, not a copy: when another importer then
    writes a field of that entry ([sampleCode[l][f] = e]), the constant
    reads the new value ([x[f]] is the value of [e]); when another
    importer replaces the entry ([sampleCode[l] = e]), the constant still
    reads the old entry. *)
Theorem held_entry_aliases tr i x l c f e v :
  hread_entry (hrun name body hinit tr) l = Ok (HRef c) -> eval_expr e = Ok v ->
  (forall st2, hassign_field (hstep name body (hrun name body hinit tr) (HCopyEntry i x l)).1 l f e = Ok st2 ->
     exists hv, hread_local st2 i x f = Ok hv /\ deref (length (h_heap st2)) (h_heap st2) hv = v) /\
  (forall st2, hassign_entry (hstep name body (hrun name body hinit tr) (HCopyEntry i x l)).1 l e = Ok st2 ->
     hread_local st2 i x f = hread_local (hstep name body (hrun name body hinit tr) (HCopyEntry i x l)).1 i x f).
Proof.
  intros Hre Ev. destruct (hrun_heap tr) as [Hwf Hok].
  remember (hrun name body hinit tr) as st eqn:Est. clear Est.
  destruct (hread_entry_ref st l c Hwf Hre) as (r & t & Hb & Ht & Hc).
  cbn [hstep]. unfold commit, hcopy_entry. rewrite Hre. simpl.
  destruct (heval_of_eval e (h_heap st) v Hwf Hok Ev) as (h2 & hv & E & Hwf2 & _ & [Hlen Hag] & Hr & _ & Hd).
  destruct (lookup_lt_is_Some_2 (h_heap st) c ltac:(lia)) as [cc Hcc].
  split; intros st2.
  - unfold hassign_field. change (hread_entry _ l) with (hread_entry st l). rewrite Hre. cbn [bind h_heap]. rewrite E. simpl.
    unfold heap_set. rewrite Hag, Hcc by lia.
    destruct (ordinary_set cc f hv) as [[cc'|]|] eqn:Es; simpl; try done. intros [= <-].
    unfold with_heap. cbn [h_status h_binding h_runs h_locals]. rewrite hread_local_copied. simpl.
    rewrite list_lookup_insert_eq by lia. exists hv. split.
    + destruct (ordinary_set_get_own _ _ _ _ Es) as (p & Hp & Hpv). unfold hget. by rewrite Hp, Hpv.
    + rewrite length_insert, <- Hd. apply (deref_frame _ _ _ (length (h_heap st))); [done| |done].
      intros j Hj. rewrite list_lookup_insert_ne by lia. done.
  - unfold hassign_entry, hread_binding. cbn [h_binding]. rewrite Hb. cbn [bind h_heap]. rewrite E. simpl.
    unfold heap_set. rewrite Hag, Ht by lia.
    destruct (ordinary_set t l hv) as [[t'|]|] eqn:Es; simpl; try done. intros [= <-].
    unfold with_heap, hread_local. simpl. rewrite decide_True by done. simpl.
    rewrite list_lookup_insert_ne, Hag by lia. done.
Qed.

End Sim.

(** ** Witnesses *)

Lemma held_entry_aliases_witness :
  hread_entry (hrun (str "sampleCode") sampleCode_expr hinit [HHostLink; HHostEvaluate]) (str "Rust")
    = Ok (HRef 4) /\
  eval_expr (ETemplate (str "x")) = Ok (VString (str "x")) /\
  match hassign_field (hstep (str "sampleCode") sampleCode_expr
                         (hrun (str "sampleCode") sampleCode_expr hinit [HHostLink; HHostEvaluate])
                         (HCopyEntry 0 (str "e") (str "Rust"))).1
          (str "Rust") (str "code") (ETemplate (str "x")) with
  | Ok _ => True
  | Err _ => False
  end /\
  ((forall st2, hassign_field (hstep (str "sampleCode") sampleCode_expr
                                (hrun (str "sampleCode") sampleCode_expr hinit [HHostLink; HHostEvaluate])
                                (HCopyEntry 0 (str "e") (str "Rust"))).1
                  (str "Rust") (str "code") (ETemplate (str "x")) = Ok st2 ->
      exists hv, hread_local st2 0 (str "e") (str "code") = Ok hv /\
                 deref (length (h_heap st2)) (h_heap st2) hv = VString (str "x")) /\
   (forall st2, hassign_entry (hstep (str "sampleCode") sampleCode_expr
                                (hrun (str "sampleCode") sampleCode_expr hinit [HHostLink; HHostEvaluate])
                                (HCopyEntry 0 (str "e") (str "Rust"))).1
                  (str "Rust") (ETemplate (str "x")) = Ok st2 ->
      hread_local st2 0 (str "e") (str "code")
      = hread_local (hstep (str "sampleCode") sampleCode_expr
                       (hrun (str "sampleCode") sampleCode_expr hinit [HHostLink; HHostEvaluate])
                       (HCopyEntry 0 (str "e") (str "Rust"))).1 0 (str "e") (str "code"))).
Proof.
  assert (H1 : hread_entry (hrun (str "sampleCode") sampleCode_expr hinit [HHostLink; HHostEvaluate]) (str "Rust")
               = Ok (HRef 4)) by (vm_compute; reflexivity).
  assert (H2 : eval_expr (ETemplate (str "x")) = Ok (VString (str "x"))) by reflexivity.
  split; [exact H1|]. split; [exact H2|]. split; [vm_compute; exact I|].
  exact (held_entry_aliases (str "sampleCode") sampleCode_expr [HHostLink; HHostEvaluate] 0 (str "e")
           (str "Rust") 4 (str "code") (ETemplate (str "x")) (VString (str "x")) H1 H2).
Defined.

End HeapModule.
